(** * Growatt solar dashboard proxy: session, cache and normalisation logic

    A shallow embedding of the Node server of the repository and the proofs
    of its specified properties.  The server exists in two listings:

    - [ServerTs]: the TypeScript server, second half of [src/public/app.js]
      (lines 209-886);
    - [ServerJs]: the older [server.js], kept in
      [src/solar/Soalr-main/README.md] (lines 141-782).

    The two listings differ in three functions only ([safeJson],
    [withSessionRetry], [getStorageData]); the embedding carries a [Variant]
    and branches on it in exactly these three places.

    Layout: the JavaScript values and built-ins the server calls (module
    [JS]), MD5 (module [MD5]), the server itself (section [Server]), then
    the theorems. *)

From Stdlib Require Import ZArith NArith List String Ascii Bool Lia.
From Stdlib Require Import Floats.SpecFloat.
Import ListNotations.

Set Warnings "-register-all".

(* ================================================================== *)
(** * The JavaScript run-time the server relies on *)
(* ================================================================== *)

Module JS.

Local Open Scope string_scope.

(** ** Text

    A JavaScript string is modelled by its UTF-8 bytes.  Searching for and
    cutting at ASCII characters, which is all the server does with
    response text, is the same on both representations. *)

Definition codes (s : string) : list N :=
  map N_of_ascii (list_ascii_of_string s).

Definition text (l : list N) : string :=
  string_of_list_ascii (map ascii_of_N l).

(** The double-quote character, as a one-character string. *)
Definition dq : string := String (ascii_of_N 34) EmptyString.

(** [s.startsWith(p)] *)
Definition startsWith (s p : string) : bool := prefix p s.

(** [s.includes(sub)] *)
Fixpoint includes (s sub : string) : bool :=
  prefix sub s ||
  match s with
  | EmptyString => false
  | String _ rest => includes rest sub
  end.

(** [s.indexOf(c)] for a single character; [None] stands for -1. *)
Fixpoint indexOf (s : string) (c : ascii) : option nat :=
  match s with
  | EmptyString => None
  | String a rest =>
      if Ascii.eqb a c then Some 0 else option_map S (indexOf rest c)
  end.

(** [s.lastIndexOf(c)] for a single character; [None] stands for -1. *)
Fixpoint lastIndexOf (s : string) (c : ascii) : option nat :=
  match s with
  | EmptyString => None
  | String a rest =>
      match lastIndexOf rest c with
      | Some i => Some (S i)
      | None => if Ascii.eqb a c then Some 0 else None
      end
  end.

(** [s.substring(0, j)] and [s.substring(i)] *)
Definition substring_to (s : string) (j : nat) : string := substring 0 j s.
Definition substring_from (s : string) (i : nat) : string :=
  substring i (length s - i) s.

(** [s.split(c)[0]]: the text before the first [c]. *)
Definition before_first (s : string) (c : ascii) : string :=
  match indexOf s c with
  | Some i => substring_to s i
  | None => s
  end.

(** [xs.join(sep)] *)
Fixpoint join (sep : string) (xs : list string) : string :=
  match xs with
  | [] => ""
  | [x] => x
  | x :: rest => x ++ sep ++ join sep rest
  end.

(** [l] without the prefix [p], when it starts with [p]. *)
Fixpoint strip_prefix (p l : list N) : option (list N) :=
  match p, l with
  | [], _ => Some l
  | a :: p', b :: l' => if (a =? b)%N then strip_prefix p' l' else None
  | _ :: _, [] => None
  end.

Definition starts_with_codes (l p : list N) : bool :=
  match strip_prefix p l with Some _ => true | None => false end.

(** White space as [String.prototype.trim] and the numeric parsers see it
    (WhiteSpace and LineTerminator of ECMA-262), in UTF-8:
    TAB LF VT FF CR SP, U+00A0, U+1680, U+2000..U+200A, U+2028, U+2029,
    U+202F, U+205F, U+3000, U+FEFF. *)
Definition white_space : list (list N) :=
  [[9]; [10]; [11]; [12]; [13]; [32]; [194; 160]; [225; 154; 128];
   [226; 128; 128]; [226; 128; 129]; [226; 128; 130]; [226; 128; 131];
   [226; 128; 132]; [226; 128; 133]; [226; 128; 134]; [226; 128; 135];
   [226; 128; 136]; [226; 128; 137]; [226; 128; 138];
   [226; 128; 168]; [226; 128; 169]; [226; 128; 175]; [226; 129; 159];
   [227; 128; 128]; [239; 187; 191]]%N.

(** The length of the entry of [table] that [l] starts with; 0 if
    none. *)
Definition match_length (table : list (list N)) (l : list N) : nat :=
  match find (starts_with_codes l) table with
  | Some p => List.length p
  | None => 0
  end.

Definition ws_length (l : list N) : nat := match_length white_space l.

Fixpoint trimStart_codes (fuel : nat) (l : list N) : list N :=
  match fuel with
  | O => l
  | S fuel' =>
      match ws_length l with
      | O => l
      | n => trimStart_codes fuel' (skipn n l)
      end
  end.

(** White space at the end of the text: the same table, read backwards. *)
Definition ws_length_rev (l : list N) : nat :=
  match_length (map (@rev N) white_space) l.

Fixpoint trimEnd_rev (fuel : nat) (l : list N) : list N :=
  match fuel with
  | O => l
  | S fuel' =>
      match ws_length_rev l with
      | O => l
      | n => trimEnd_rev fuel' (skipn n l)
      end
  end.

Definition trimStart (s : string) : string :=
  text (trimStart_codes (length s) (codes s)).

(** [s.trim()] *)
Definition trim (s : string) : string :=
  let l := trimStart_codes (length s) (codes s) in
  text (rev (trimEnd_rev (length s) (rev l))).

(** The number of UTF-16 code units of the text ([s.length]): one for
    each code point, two for those outside the basic plane. *)
Definition utf16_length (s : string) : nat :=
  fold_right
    (fun c n =>
       if (c <? 128)%N then S n
       else if (c <? 192)%N then n
       else if (c <? 240)%N then S n
       else S (S n))
    0 (codes s).

(** UTF-8 encoding of a code point. *)
Definition utf8 (cp : N) : list N :=
  (if cp <? 128 then [cp]
   else if cp <? 2048 then [192 + cp / 64; 128 + cp mod 64]
   else if cp <? 65536 then
     [224 + cp / 4096; 128 + (cp / 64) mod 64; 128 + cp mod 64]
   else
     [240 + cp / 262144; 128 + (cp / 4096) mod 64;
      128 + (cp / 64) mod 64; 128 + cp mod 64])%N.

Definition is_digit (c : N) : bool := ((48 <=? c) && (c <=? 57))%N.

Definition hex_value (c : N) : option N :=
  (if is_digit c then Some (c - 48)
   else if (97 <=? c) && (c <=? 102) then Some (c - 87)
   else if (65 <=? c) && (c <=? 70) then Some (c - 55)
   else None)%N.

(** Decimal digits of a natural number. *)
Fixpoint digits_fuel (fuel : nat) (n : N) (acc : list N) : list N :=
  match fuel with
  | O => acc
  | S fuel' =>
      let acc' := ((48 + n mod 10) :: acc)%N in
      if (n <? 10)%N then acc' else digits_fuel fuel' (n / 10)%N acc'
  end.

Definition digits_of_N (n : N) : list N :=
  digits_fuel (S (N.to_nat (N.log2 n))) n [].

Definition string_of_N (n : N) : string := text (digits_of_N n).

(** ** Numbers: IEEE 754 binary64 *)

Definition float : Type := spec_float.
Definition prec : Z := 53.
Definition emax : Z := 1024.

Definition zero : float := S754_zero false.
Definition NaN : float := S754_nan.

(** [isNaN(x)] *)
Definition isNaN (x : float) : bool :=
  match x with S754_nan => true | _ => false end.

(** [x === 0], true of both zeros *)
Definition is_zero (x : float) : bool :=
  match x with S754_zero _ => true | _ => false end.

Definition lt (x y : float) : bool := SFltb x y.

Definition of_Z (z : Z) : float := binary_normalize prec emax z 0 false.
Definition of_nat (n : nat) : float := of_Z (Z.of_nat n).

(** The double nearest to [m * 10^e] (ties to even), [m >= 0], with the
    sign [neg]. *)
Definition of_decimal (neg : bool) (m e : Z) : float :=
  match m with
  | Zpos p =>
      if (0 <=? e)%Z then
        binary_round prec emax neg (Z.to_pos (m * 10 ^ e)) 0
      else
        SFdiv prec emax (S754_finite neg p 0)
          (S754_finite false (Z.to_pos (10 ^ (- e))) 0)
  | _ => S754_zero neg
  end.

(** Reading a run of decimal digits: value, number of digits, rest. *)
Fixpoint scan_digits (l : list N) (acc : Z) (n : Z) : Z * Z * list N :=
  match l with
  | c :: r =>
      if is_digit c then scan_digits r (10 * acc + Z.of_N (c - 48)) (n + 1)
      else (acc, n, l)
  | [] => (acc, n, l)
  end.

(** An optional exponent part [e|E][+|-]digits; absent or incomplete, it
    is not consumed. *)
Definition scan_exponent (l : list N) : Z * list N :=
  match l with
  | c :: r =>
      if ((c =? 101) || (c =? 69))%N then
        let '(neg, r1) :=
          match r with
          | 43%N :: r' => (false, r')
          | 45%N :: r' => (true, r')
          | _ => (false, r)
          end in
        let '(v, n, r2) := scan_digits r1 0 0 in
        if (n =? 0)%Z then (0%Z, l) else ((if neg then - v else v)%Z, r2)
      else (0%Z, l)
  | [] => (0%Z, l)
  end.

(** StrUnsignedDecimalLiteral without [Infinity]: digits, an optional
    fraction, an optional exponent; at least one digit. *)
Definition scan_unsigned_decimal (neg : bool) (l : list N)
  : option (float * list N) :=
  let '(i, ni, r1) := scan_digits l 0 0 in
  let '(m, nf, r2) :=
    match r1 with
    | 46%N :: r' =>
        let '(m, nf, r'') := scan_digits r' i 0 in
        if ((ni =? 0) && (nf =? 0))%Z then (i, 0%Z, r1) else (m, nf, r'')
    | _ => (i, 0%Z, r1)
    end in
  if ((ni =? 0) && (nf =? 0))%Z then None
  else
    let '(e, r3) := scan_exponent r2 in
    Some (of_decimal neg m (e - nf), r3).

Definition Infinity_codes : list N := codes "Infinity".

(** StrDecimalLiteral: an optional sign, then [Infinity] or an unsigned
    decimal literal.  Returns the value and the unread rest. *)
Definition scan_decimal (l : list N) : option (float * list N) :=
  let '(neg, r) :=
    match l with
    | 43%N :: r' => (false, r')
    | 45%N :: r' => (true, r')
    | _ => (false, l)
    end in
  match strip_prefix Infinity_codes r with
  | Some r' => Some (S754_infinity neg, r')
  | None => scan_unsigned_decimal neg r
  end.

(** [parseFloat(s)] for a string [s]: white space is skipped, then the
    longest prefix that is a decimal literal is read; [NaN] if none. *)
Definition parseFloat_string (s : string) : float :=
  match scan_decimal (trimStart_codes (length s) (codes s)) with
  | Some (x, _) => x
  | None => NaN
  end.

(** Structural equality of doubles (it tells the two zeros apart). *)
Definition float_eqb (x y : float) : bool :=
  match x, y with
  | S754_zero a, S754_zero b => Bool.eqb a b
  | S754_infinity a, S754_infinity b => Bool.eqb a b
  | S754_nan, S754_nan => true
  | S754_finite a m e, S754_finite b m' e' =>
      Bool.eqb a b && Pos.eqb m m' && Z.eqb e e'
  | _, _ => false
  end.

(** *** Number::toString (ECMA-262, 6.1.6.1.20)

    For a positive finite [x = m * 2^e] the rendering uses the integers
    [k], [s], [n] with [10^(k-1) <= s < 10^k], [s * 10^(n-k)] rounding to
    [x], [k] as small as possible and, among these, [s * 10^(n-k)] as
    close to [x] as possible. *)

Local Open Scope Z_scope.

(** [x / 10^p] as an exact fraction (numerator, denominator). *)
Definition scaled (m e p : Z) : Z * Z :=
  (m * 2 ^ (Z.max e 0) * 10 ^ (Z.max (- p) 0),
   10 ^ (Z.max p 0) * 2 ^ (Z.max (- e) 0)).

(** The largest [q] with [10^q <= m * 2^e], searched near the estimate
    that the binary length gives. *)
Definition floor_log10 (m e : Z) : Z :=
  let b := Z.log2 m + e in
  let q0 := (b * 30103) / 100000 - 1 in
  let ge q := let '(a, d) := scaled m e q in d <=? a in
  if ge (q0 + 3) then q0 + 3
  else if ge (q0 + 2) then q0 + 2
  else if ge (q0 + 1) then q0 + 1
  else q0.

(** The candidates with [k] digits: [(s, n, a, d)], where [a / d] is the
    distance of [s * 10^(n-k)] to [x] in units of [10^(n-k)]. *)
Definition candidates (x : float) (m e q k : Z) : list (Z * Z * Z * Z) :=
  flat_map
    (fun n =>
       let p := n - k in
       let '(a, d) := scaled m e p in
       let s0 := a / d in
       let r := a mod d in
       filter
         (fun c =>
            let '(s, _, _, _) := c in
            (10 ^ (k - 1) <=? s) && (s <? 10 ^ k)
            && float_eqb (of_decimal false s p) x)
         [(s0, n, r, d); (s0 + 1, n, d - r, d)])
    [q + 1; q + 2].

(** Two candidates of the same [k] are compared by their distances
    [a / d * 10^(n-k)] to [x]. *)
Definition closer (c1 c2 : Z * Z * Z * Z) : bool :=
  let '(_, n1, a1, d1) := c1 in
  let '(_, n2, a2, d2) := c2 in
  (* a1/d1 * 10^n1 <= a2/d2 * 10^n2 *)
  a1 * d2 * 10 ^ (Z.max (n1 - n2) 0) <=? a2 * d1 * 10 ^ (Z.max (n2 - n1) 0).

Definition closest (cs : list (Z * Z * Z * Z)) : option (Z * Z) :=
  match cs with
  | [] => None
  | c :: rest =>
      let '(s, n, _, _) :=
        fold_left (fun best c' => if closer best c' then best else c')
          rest c in
      Some (s, n)
  end.

Fixpoint shortest_from (fuel : nat) (x : float) (m e q k : Z)
  : Z * Z * Z :=
  match fuel with
  | O => (k, m, q + 1)
  | S fuel' =>
      match closest (candidates x m e q k) with
      | Some (s, n) => (k, s, n)
      | None => shortest_from fuel' x m e q (k + 1)
      end
  end.

(** The triple [(k, s, n)] of a positive finite double. *)
Definition shortest (m : positive) (e : Z) : Z * Z * Z :=
  shortest_from 17 (S754_finite false m e) (Zpos m) e
    (floor_log10 (Zpos m) e) 1.

Local Close Scope Z_scope.

Definition zeros (n : Z) : string :=
  text (repeat 48%N (Z.to_nat n)).

Definition Number_toString_pos (m : positive) (e : Z) : string :=
  let '(k, s, n) := shortest m e in
  let ds := string_of_N (Z.to_N s) in
  if ((k <=? n) && (n <=? 21))%Z then ds ++ zeros (n - k)
  else if ((0 <? n) && (n <=? 21))%Z then
    substring_to ds (Z.to_nat n) ++ "." ++ substring_from ds (Z.to_nat n)
  else if ((-6 <? n) && (n <=? 0))%Z then "0." ++ zeros (- n) ++ ds
  else
    let ex := (n - 1)%Z in
    let sign := if (ex <? 0)%Z then "-" else "+" in
    let mant :=
      if (k =? 1)%Z then ds
      else substring_to ds 1 ++ "." ++ substring_from ds 1 in
    mant ++ "e" ++ sign ++ string_of_N (Z.abs_N ex).

(** [String(x)] for a number [x]. *)
Definition Number_toString (x : float) : string :=
  match x with
  | S754_nan => "NaN"
  | S754_zero _ => "0"
  | S754_infinity false => "Infinity"
  | S754_infinity true => "-Infinity"
  | S754_finite false m e => Number_toString_pos m e
  | S754_finite true m e => "-" ++ Number_toString_pos m e
  end.

(** ** Values

    The values the server handles are those [JSON.parse] builds, and
    [undefined] for a property that is not there. *)

Inductive jsval : Type :=
| VUndef
| VNull
| VBool (b : bool)
| VNum (x : float)
| VStr (s : string)
| VArr (items : list jsval)
| VObj (props : list (string * jsval)).

Fixpoint lookup (k : string) (ps : list (string * jsval)) : option jsval :=
  match ps with
  | [] => None
  | (k', v) :: rest => if String.eqb k k' then Some v else lookup k rest
  end.

(** Setting a property: an existing key keeps its place. *)
Fixpoint upsert (k : string) (v : jsval) (ps : list (string * jsval))
  : list (string * jsval) :=
  match ps with
  | [] => [(k, v)]
  | (k', v') :: rest =>
      if String.eqb k k' then (k, v) :: rest else (k', v') :: upsert k v rest
  end.

(** ToBoolean: what [!v], [v || w] and [v ? a : b] test. *)
Definition truthy (v : jsval) : bool :=
  match v with
  | VUndef | VNull => false
  | VBool b => b
  | VNum x => negb (is_zero x || isNaN x)
  | VStr s => negb (String.eqb s "")
  | VArr _ | VObj _ => true
  end.

(** [a || b] *)
Definition or_else (a b : jsval) : jsval := if truthy a then a else b.

(** [v.k] for a value that is neither [null] nor [undefined].  None of
    the names the server reads is inherited from a prototype, [length]
    apart, which strings and arrays have. *)
Definition get (v : jsval) (k : string) : jsval :=
  match v with
  | VObj ps => match lookup k ps with Some x => x | None => VUndef end
  | VArr items =>
      if String.eqb k "length" then VNum (of_nat (List.length items))
      else VUndef
  | VStr s =>
      if String.eqb k "length" then VNum (of_nat (utf16_length s))
      else VUndef
  | _ => VUndef
  end.

(** [v?.k] *)
Definition get_opt (v : jsval) (k : string) : jsval :=
  match v with
  | VUndef | VNull => VUndef
  | _ => get v k
  end.

(** [null] and [undefined], on which a property read throws. *)
Definition nullish (v : jsval) : bool :=
  match v with VUndef | VNull => true | _ => false end.

(** ** JSON.parse (ECMA-404) *)

Fixpoint skip_json_ws (l : list N) : list N :=
  match l with
  | c :: r =>
      if ((c =? 32) || (c =? 9) || (c =? 10) || (c =? 13))%N
      then skip_json_ws r else l
  | [] => []
  end.

Definition hex4 (a b c d : N) : option N :=
  match hex_value a, hex_value b, hex_value c, hex_value d with
  | Some x, Some y, Some z, Some w => Some (4096 * x + 256 * y + 16 * z + w)%N
  | _, _, _, _ => None
  end.

Definition is_high_surrogate (u : N) : bool :=
  ((55296 <=? u) && (u <=? 56319))%N.
Definition is_low_surrogate (u : N) : bool :=
  ((56320 <=? u) && (u <=? 57343))%N.

(** The characters of a string literal after its opening quote, up to the
    closing one; [acc] holds the bytes read so far, last first. *)
Fixpoint scan_string (l : list N) (acc : list N)
  : option (list N * list N) :=
  match l with
  | [] => None
  | 34%N :: r => Some (rev acc, r)
  | 92%N :: r =>
      match r with
      | 34%N :: r' => scan_string r' (34%N :: acc)
      | 92%N :: r' => scan_string r' (92%N :: acc)
      | 47%N :: r' => scan_string r' (47%N :: acc)
      | 98%N :: r' => scan_string r' (8%N :: acc)
      | 102%N :: r' => scan_string r' (12%N :: acc)
      | 110%N :: r' => scan_string r' (10%N :: acc)
      | 114%N :: r' => scan_string r' (13%N :: acc)
      | 116%N :: r' => scan_string r' (9%N :: acc)
      | 117%N :: a :: b :: c :: d :: r' =>
          match hex4 a b c d with
          | None => None
          | Some u =>
              match r' with
              | 92%N :: 117%N :: a' :: b' :: c' :: d' :: r'' =>
                  match hex4 a' b' c' d' with
                  | Some u' =>
                      if is_high_surrogate u && is_low_surrogate u' then
                        scan_string r''
                          (rev_append
                             (utf8 (65536 + 1024 * (u - 55296)
                                    + (u' - 56320))%N) acc)
                      else scan_string r' (rev_append (utf8 u) acc)
                  | None => scan_string r' (rev_append (utf8 u) acc)
                  end
              | _ => scan_string r' (rev_append (utf8 u) acc)
              end
          end
      | _ => None
      end
  | c :: r => if (c <? 32)%N then None else scan_string r (c :: acc)
  end.

(** A JSON number: an optional minus sign; 0 or a run of digits that
    does not start with 0; an optional fraction (a dot and digits); an
    optional exponent. *)
Definition scan_json_number (l : list N) : option (float * list N) :=
  let '(neg, r) :=
    match l with
    | 45%N :: r' => (true, r')
    | _ => (false, l)
    end in
  let int_part :=
    match r with
    | c :: r' =>
        if (c =? 48)%N then Some (0%Z, r')
        else if is_digit c then
          let '(i, _, r1) := scan_digits r 0 0 in Some (i, r1)
        else None
    | [] => None
    end in
  match int_part with
  | None => None
  | Some (i, r1) =>
      let '(m, nf, r2) :=
        match r1 with
        | 46%N :: r' =>
            let '(m, nf, r'') := scan_digits r' i 0 in
            if (nf =? 0)%Z then (i, 0%Z, r1) else (m, nf, r'')
        | _ => (i, 0%Z, r1)
        end in
      let '(e, r3) := scan_exponent r2 in
      Some (of_decimal neg m (e - nf), r3)
  end.

Fixpoint parse_value (fuel : nat) (l : list N) : option (jsval * list N) :=
  match fuel with
  | O => None
  | S fuel' =>
      match skip_json_ws l with
      | 34%N :: r =>
          match scan_string r [] with
          | Some (bs, r') => Some (VStr (text bs), r')
          | None => None
          end
      | 123%N :: r =>
          match skip_json_ws r with
          | 125%N :: r' => Some (VObj [], r')
          | _ => parse_members fuel' r []
          end
      | 91%N :: r =>
          match skip_json_ws r with
          | 93%N :: r' => Some (VArr [], r')
          | _ => parse_elements fuel' r []
          end
      | 116%N :: 114%N :: 117%N :: 101%N :: r => Some (VBool true, r)
      | 102%N :: 97%N :: 108%N :: 115%N :: 101%N :: r =>
          Some (VBool false, r)
      | 110%N :: 117%N :: 108%N :: 108%N :: r => Some (VNull, r)
      | l' =>
          match scan_json_number l' with
          | Some (x, r) => Some (VNum x, r)
          | None => None
          end
      end
  end

with parse_elements (fuel : nat) (l : list N) (acc : list jsval)
  : option (jsval * list N) :=
  match fuel with
  | O => None
  | S fuel' =>
      match parse_value fuel' l with
      | Some (v, r) =>
          match skip_json_ws r with
          | 44%N :: r' => parse_elements fuel' r' (v :: acc)
          | 93%N :: r' => Some (VArr (rev (v :: acc)), r')
          | _ => None
          end
      | None => None
      end
  end

with parse_members (fuel : nat) (l : list N) (acc : list (string * jsval))
  : option (jsval * list N) :=
  match fuel with
  | O => None
  | S fuel' =>
      match skip_json_ws l with
      | 34%N :: r =>
          match scan_string r [] with
          | Some (k, r1) =>
              match skip_json_ws r1 with
              | 58%N :: r2 =>
                  match parse_value fuel' r2 with
                  | Some (v, r3) =>
                      match skip_json_ws r3 with
                      | 44%N :: r4 =>
                          parse_members fuel' r4 (upsert (text k) v acc)
                      | 125%N :: r4 =>
                          Some (VObj (upsert (text k) v acc), r4)
                      | _ => None
                      end
                  | None => None
                  end
              | _ => None
              end
          | None => None
          end
      | _ => None
      end
  end.

(** [JSON.parse(s)]; [None] when it throws a SyntaxError.  Each level of
    nesting and each element uses at most two units of fuel for at least
    one character read. *)
Definition JSON_parse (s : string) : option jsval :=
  let l := codes s in
  match parse_value (2 * List.length l + 2) l with
  | Some (v, r) =>
      match skip_json_ws r with
      | [] => Some v
      | _ => None
      end
  | None => None
  end.

(** ** Conversions *)

(** ToString: what template literals, [String(v)], [parseFloat] and
    [parseInt] apply to their argument. *)
Fixpoint ToString (v : jsval) : string :=
  match v with
  | VUndef => "undefined"
  | VNull => "null"
  | VBool true => "true"
  | VBool false => "false"
  | VNum x => Number_toString x
  | VStr s => s
  | VArr items =>
      join ","
        (map (fun e =>
                match e with
                | VUndef | VNull => ""
                | _ => ToString e
                end) items)
  | VObj _ => "[object Object]"
  end.

(** [parseFloat(v)] *)
Definition parseFloat (v : jsval) : float := parseFloat_string (ToString v).

(** A run of digits in the given radix: value, number of digits, rest. *)
Fixpoint scan_radix_digits (radix : N) (l : list N) (acc n : Z)
  : Z * Z * list N :=
  match l with
  | c :: r =>
      match hex_value c with
      | Some d =>
          if (d <? radix)%N
          then scan_radix_digits radix r (Z.of_N radix * acc + Z.of_N d)
                 (n + 1)
          else (acc, n, l)
      | None => (acc, n, l)
      end
  | [] => (acc, n, l)
  end.

Definition of_signed_Z (neg : bool) (v : Z) : float :=
  match v with
  | Zpos p => binary_round prec emax neg p 0
  | _ => S754_zero neg
  end.

(** [parseInt(s)] without a radix, for a string [s]. *)
Definition parseInt_string (s : string) : float :=
  let l := trimStart_codes (length s) (codes s) in
  let '(neg, r) :=
    match l with
    | 43%N :: r' => (false, r')
    | 45%N :: r' => (true, r')
    | _ => (false, l)
    end in
  let '(radix, r1) :=
    match r with
    | 48%N :: c :: r' =>
        if ((c =? 120) || (c =? 88))%N then (16%N, r') else (10%N, r)
    | _ => (10%N, r)
    end in
  let '(v, n, _) := scan_radix_digits radix r1 0 0 in
  if (n =? 0)%Z then NaN else of_signed_Z neg v.

(** [parseInt(v)] *)
Definition parseInt (v : jsval) : float := parseInt_string (ToString v).

(** StringToNumber: the whole trimmed text must be a numeric literal. *)
Definition StringToNumber (s : string) : float :=
  let l := codes (trim s) in
  let radix_literal radix r :=
    match scan_radix_digits radix r 0 0 with
    | (v, n, []) => if (n =? 0)%Z then NaN else of_signed_Z false v
    | _ => NaN
    end in
  let decimal :=
    match scan_decimal l with
    | Some (x, []) => x
    | _ => NaN
    end in
  match l with
  | [] => zero
  | 48%N :: c :: r =>
      if ((c =? 120) || (c =? 88))%N then radix_literal 16%N r
      else if ((c =? 111) || (c =? 79))%N then radix_literal 8%N r
      else if ((c =? 98) || (c =? 66))%N then radix_literal 2%N r
      else decimal
  | _ => decimal
  end.

(** ToNumber: what [v > 0] applies to [v]. *)
Definition ToNumber (v : jsval) : float :=
  match v with
  | VUndef => NaN
  | VNull => zero
  | VBool true => of_Z 1
  | VBool false => zero
  | VNum x => x
  | VStr s => StringToNumber s
  | VArr _ | VObj _ => StringToNumber (ToString v)
  end.

(** [v > 0] *)
Definition gt_zero (v : jsval) : bool := lt zero (ToNumber v).

(** [v === 0] *)
Definition is_number_zero (v : jsval) : bool :=
  match v with
  | VNum x => is_zero x
  | _ => false
  end.

(** ** JSON.stringify *)

Definition hex_digit (d : N) : N := (if d <? 10 then 48 + d else 87 + d)%N.

Definition escape_code (c : N) : list N :=
  (if c =? 34 then [92; 34]
   else if c =? 92 then [92; 92]
   else if c =? 8 then [92; 98]
   else if c =? 12 then [92; 102]
   else if c =? 10 then [92; 110]
   else if c =? 13 then [92; 114]
   else if c =? 9 then [92; 116]
   else if c <? 32 then [92; 117; 48; 48; hex_digit (c / 16); hex_digit (c mod 16)]
   else [c])%N.

(** QuoteJSONString *)
Definition quote (s : string) : string :=
  dq ++ text (flat_map escape_code (codes s)) ++ dq.

Definition is_finite (x : float) : bool :=
  match x with
  | S754_zero _ | S754_finite _ _ _ => true
  | _ => false
  end.

(** [JSON.stringify(v)] for a value other than [undefined].  Properties
    are written in the order in which the object holds them. *)
Fixpoint JSON_stringify (v : jsval) : string :=
  match v with
  | VUndef | VNull => "null"
  | VBool true => "true"
  | VBool false => "false"
  | VNum x => if is_finite x then Number_toString x else "null"
  | VStr s => quote s
  | VArr items => "[" ++ join "," (map JSON_stringify items) ++ "]"
  | VObj ps =>
      "{" ++
      join ","
        (flat_map
           (fun kv =>
              let '(k, x) := kv in
              match x with
              | VUndef => []
              | _ => [quote k ++ ":" ++ JSON_stringify x]
              end) ps)
      ++ "}"
  end.

End JS.

(* ================================================================== *)
(** * MD5 (RFC 1321), as [crypto.createHash('md5')] computes it *)
(* ================================================================== *)

Module MD5.

Local Open Scope N_scope.

(** 32-bit words with wrap-around. *)
Definition w32 (x : N) : N := N.land x 4294967295.
Definition add32 (x y : N) : N := w32 (x + y).
Definition not32 (x : N) : N := N.lxor (w32 x) 4294967295.
Definition rotl (x c : N) : N :=
  w32 (N.lor (N.shiftl x c) (N.shiftr (w32 x) (32 - c))).

Definition K : list N :=
  [3614090360; 3905402710; 606105819; 3250441966;
   4118548399; 1200080426; 2821735955; 4249261313;
   1770035416; 2336552879; 4294925233; 2304563134;
   1804603682; 4254626195; 2792965006; 1236535329;
   4129170786; 3225465664; 643717713; 3921069994;
   3593408605; 38016083; 3634488961; 3889429448;
   568446438; 3275163606; 4107603335; 1163531501;
   2850285829; 4243563512; 1735328473; 2368359562;
   4294588738; 2272392833; 1839030562; 4259657740;
   2763975236; 1272893353; 4139469664; 3200236656;
   681279174; 3936430074; 3572445317; 76029189;
   3654602809; 3873151461; 530742520; 3299628645;
   4096336452; 1126891415; 2878612391; 4237533241;
   1700485571; 2399980690; 4293915773; 2240044497;
   1873313359; 4264355552; 2734768916; 1309151649;
   4149444226; 3174756917; 718787259; 3951481745].

Definition shifts : list N :=
  [7; 12; 17; 22; 7; 12; 17; 22; 7; 12; 17; 22; 7; 12; 17; 22;
   5; 9; 14; 20; 5; 9; 14; 20; 5; 9; 14; 20; 5; 9; 14; 20;
   4; 11; 16; 23; 4; 11; 16; 23; 4; 11; 16; 23; 4; 11; 16; 23;
   6; 10; 15; 21; 6; 10; 15; 21; 6; 10; 15; 21; 6; 10; 15; 21].

Definition state : Type := N * N * N * N.

Definition init : state := (1732584193, 4023233417, 2562383102, 271733878).

(** One of the 64 operations on the block [M] of sixteen words. *)
Definition operation (M : list N) (st : state) (i : N) : state :=
  let '(a, b, c, d) := st in
  let '(f, g) :=
    if i <? 16 then (N.lor (N.land b c) (N.land (not32 b) d), i)
    else if i <? 32 then
      (N.lor (N.land d b) (N.land (not32 d) c), (5 * i + 1) mod 16)
    else if i <? 48 then (N.lxor b (N.lxor c d), (3 * i + 5) mod 16)
    else (N.lxor c (N.lor b (not32 d)), (7 * i) mod 16) in
  let f' :=
    add32 (add32 (add32 f a) (nth (N.to_nat i) K 0))
      (nth (N.to_nat g) M 0) in
  (d, add32 b (rotl f' (nth (N.to_nat i) shifts 0)), b, c).

Definition rounds : list N := map N.of_nat (seq 0 64).

Definition compress (st : state) (M : list N) : state :=
  let '(a, b, c, d) := st in
  let '(a', b', c', d') := fold_left (operation M) rounds st in
  (add32 a a', add32 b b', add32 c c', add32 d d').

(** Little-endian words of a run of bytes. *)
Fixpoint words (bytes : list N) : list N :=
  match bytes with
  | b0 :: b1 :: b2 :: b3 :: rest =>
      (b0 + 256 * b1 + 65536 * b2 + 16777216 * b3) :: words rest
  | _ => []
  end.

Fixpoint blocks (fuel : nat) (ws : list N) : list (list N) :=
  match fuel, ws with
  | S fuel', _ :: _ => firstn 16 ws :: blocks fuel' (skipn 16 ws)
  | _, _ => []
  end.

Definition le_bytes (count : nat) (x : N) : list N :=
  map (fun i => (x / 256 ^ N.of_nat i) mod 256) (seq 0 count).

(** The message, a single 1 bit, zeros up to 56 modulo 64 bytes, and the
    length in bits on 64 bits. *)
Definition pad (msg : list N) : list N :=
  let len := N.of_nat (List.length msg) in
  (msg ++ [128] ++ repeat 0 (N.to_nat ((119 - len mod 64) mod 64))
   ++ le_bytes 8 ((8 * len) mod 2 ^ 64))%list.

Definition digest (msg : list N) : list N :=
  let ws := words (pad msg) in
  let '(a, b, c, d) :=
    fold_left compress (blocks (List.length ws) ws) init in
  (le_bytes 4 a ++ le_bytes 4 b ++ le_bytes 4 c ++ le_bytes 4 d)%list.

Definition hex_of_bytes (bytes : list N) : list N :=
  flat_map (fun b => [JS.hex_digit (b / 16); JS.hex_digit (b mod 16)]) bytes.

(** [crypto.createHash('md5').update(s, 'utf8').digest('hex')] *)
Definition md5_hex (s : string) : string :=
  JS.text (hex_of_bytes (digest (JS.codes s))).

End MD5.

(* ================================================================== *)
(** * The server *)
(* ================================================================== *)

Import JS.
Local Open Scope string_scope.

(** The two listings of the server. *)
Inductive Variant : Type := ServerTs | ServerJs.

(** ** Growatt's modified MD5 hash ([growattHash]) *)

(** The loop [for (let i = 0; i < hash.length; i += 2)]. *)
Fixpoint growattHash_loop (fuel : nat) (i : nat) (hash : string) : string :=
  match fuel with
  | O => hash
  | S fuel' =>
      if (i <? String.length hash)%nat then
        let hash' :=
          match String.get i hash with
          | Some ch =>
              if Ascii.eqb ch "0" then
                substring_to hash i ++ "c" ++ substring_from hash (i + 1)
              else hash
          | None => hash
          end in
        growattHash_loop fuel' (i + 2) hash'
      else hash
  end.

Definition growattHash (password : string) : string :=
  let rawMd5 := MD5.md5_hex password in
  growattHash_loop (String.length rawMd5) 0 rawMd5.

(** ** The normalised dashboard snapshot *)

Record PlantSection : Type := {
  plant_name : jsval;
  plant_id : jsval;
  plant_currentPower : float;
  plant_todayEnergy : float;
  plant_monthEnergy : float;
  plant_totalEnergy : float
}.

Record PvSection : Type := {
  pv_power : float;
  pv_powerStr2 : float;
  pv_voltage : float;
  pv_current : float;
  pv_todayEnergy : float;
  pv_totalEnergy : float
}.

Record BatterySection : Type := {
  battery_soc : float;
  battery_voltage : float;
  battery_chargePower : float;
  battery_dischargePower : float;
  battery_dischargeCurrent : float;
  battery_chargeToday : float;
  battery_dischargeToday : float;
  battery_temperature : float
}.

Record LoadSection : Type := {
  load_power : float;
  load_current : float;
  load_voltage : float;
  load_frequency : float;
  load_todayEnergy : float;
  load_loadPercent : float
}.

Record GridSection : Type := {
  grid_power : float;
  grid_voltage : float;
  grid_frequency : float;
  grid_importToday : float;
  grid_exportToday : float;
  grid_status : string
}.

Record InverterSection : Type := {
  inverter_status : jsval;
  inverter_statusCode : float;
  inverter_temperature : float;
  inverter_dcDcTemperature : float;
  inverter_model : jsval;
  inverter_serial : jsval;
  inverter_alias : jsval;
  inverter_firmware : jsval
}.

Record EnergySection : Type := {
  energy_pvToday : float;
  energy_pvTotal : float;
  energy_consumptionToday : float;
  energy_consumptionTotal : float;
  energy_gridImportToday : float;
  energy_gridImportTotal : float;
  energy_gridExportToday : float;
  energy_gridExportTotal : float;
  energy_batteryChargeToday : float;
  energy_batteryDischargeToday : float;
  energy_acChargeToday : float;
  energy_acDischargeToday : float
}.

Record RawSection : Type := {
  raw_storageDetail : jsval;
  raw_energyOverview : jsval;
  raw_storageDetailBean : jsval;
  raw_storageBean : jsval;
  raw_plantDetail : jsval
}.

(** [timestamp] is the clock reading whose ISO rendering the server
    sends. *)
Record DashData : Type := {
  timestamp : Z;
  plant : PlantSection;
  pv : PvSection;
  battery : BatterySection;
  load : LoadSection;
  grid : GridSection;
  inverter : InverterSection;
  energy : EnergySection;
  _raw : RawSection
}.

(** The numeric fields of a snapshot, by their path. *)
Definition numeric_fields (d : DashData) : list (string * float) :=
  [("plant.currentPower", plant_currentPower (plant d));
   ("plant.todayEnergy", plant_todayEnergy (plant d));
   ("plant.monthEnergy", plant_monthEnergy (plant d));
   ("plant.totalEnergy", plant_totalEnergy (plant d));
   ("pv.power", pv_power (pv d));
   ("pv.powerStr2", pv_powerStr2 (pv d));
   ("pv.voltage", pv_voltage (pv d));
   ("pv.current", pv_current (pv d));
   ("pv.todayEnergy", pv_todayEnergy (pv d));
   ("pv.totalEnergy", pv_totalEnergy (pv d));
   ("battery.soc", battery_soc (battery d));
   ("battery.voltage", battery_voltage (battery d));
   ("battery.chargePower", battery_chargePower (battery d));
   ("battery.dischargePower", battery_dischargePower (battery d));
   ("battery.dischargeCurrent", battery_dischargeCurrent (battery d));
   ("battery.chargeToday", battery_chargeToday (battery d));
   ("battery.dischargeToday", battery_dischargeToday (battery d));
   ("battery.temperature", battery_temperature (battery d));
   ("load.power", load_power (load d));
   ("load.current", load_current (load d));
   ("load.voltage", load_voltage (load d));
   ("load.frequency", load_frequency (load d));
   ("load.todayEnergy", load_todayEnergy (load d));
   ("load.loadPercent", load_loadPercent (load d));
   ("grid.power", grid_power (grid d));
   ("grid.voltage", grid_voltage (grid d));
   ("grid.frequency", grid_frequency (grid d));
   ("grid.importToday", grid_importToday (grid d));
   ("grid.exportToday", grid_exportToday (grid d));
   ("inverter.statusCode", inverter_statusCode (inverter d));
   ("inverter.temperature", inverter_temperature (inverter d));
   ("inverter.dcDcTemperature", inverter_dcDcTemperature (inverter d));
   ("energy.pvToday", energy_pvToday (energy d));
   ("energy.pvTotal", energy_pvTotal (energy d));
   ("energy.consumptionToday", energy_consumptionToday (energy d));
   ("energy.consumptionTotal", energy_consumptionTotal (energy d));
   ("energy.gridImportToday", energy_gridImportToday (energy d));
   ("energy.gridImportTotal", energy_gridImportTotal (energy d));
   ("energy.gridExportToday", energy_gridExportToday (energy d));
   ("energy.gridExportTotal", energy_gridExportTotal (energy d));
   ("energy.batteryChargeToday", energy_batteryChargeToday (energy d));
   ("energy.batteryDischargeToday", energy_batteryDischargeToday (energy d));
   ("energy.acChargeToday", energy_acChargeToday (energy d));
   ("energy.acDischargeToday", energy_acDischargeToday (energy d))].

(** ** The session and the world around it *)

(** The object [session] (app.js 256-265, README.md 188-197). *)
Record Session : Type := {
  cookies : option string;
  userId : jsval;
  plantId : jsval;
  plantName : jsval;
  deviceSn : jsval;
  lastLogin : option Z;
  lastData : option DashData;
  lastFetch : Z
}.

Definition SESSION_TTL : Z := 30 * 60 * 1000.
Definition DATA_CACHE_TTL : Z := 60 * 1000.

(** The upstream operations the server calls. *)
Inductive Endpoint : Type :=
| EpLogin
| EpDeviceListTwo
| EpDeviceListAll
| EpStorageDetail
| EpEnergyOverview
| EpStorageParams
| EpPlantDetail.

(** What the server reads of a response: the status, the raw
    [Set-Cookie] values and the text of the body. *)
Record Response : Type := {
  status : N;
  setCookies : list string;
  body : string
}.

(** What the upstream can tell requests apart by: the operation, the
    [Cookie] header, and the form fields of the login. *)
Record Request : Type := {
  endpoint : Endpoint;
  cookie : option string;
  form : list (string * string)
}.

(** [fetch] either rejects with an error or resolves to a response. *)
Inductive Reply : Type :=
| NetworkError (message : string)
| Answer (res : Response).

(** The history of a run: entries into [login], requests sent, and
    invocations of the operation given to [withSessionRetry]. *)
Inductive Event : Type :=
| EvLogin
| EvRequest (rq : Request)
| EvInvoke.

(** The state of the process: the session, the cookie jar (a [Map], in
    insertion order), the clock in milliseconds and the history. *)
Record World : Type := {
  session : Session;
  cookieJar : list (string * string);
  now : Z;
  trace : list Event
}.

Definition with_session (f : Session -> Session) (w : World) : World :=
  {| session := f (session w); cookieJar := cookieJar w;
     now := now w; trace := trace w |}.

Definition set_cookies (c : option string) (s : Session) : Session :=
  {| cookies := c; userId := userId s; plantId := plantId s;
     plantName := plantName s; deviceSn := deviceSn s;
     lastLogin := lastLogin s; lastData := lastData s;
     lastFetch := lastFetch s |}.

Definition set_identity (u p n : jsval) (s : Session) : Session :=
  {| cookies := cookies s; userId := u; plantId := p;
     plantName := n; deviceSn := deviceSn s;
     lastLogin := lastLogin s; lastData := lastData s;
     lastFetch := lastFetch s |}.

Definition set_userId (u : jsval) (s : Session) : Session :=
  set_identity u (plantId s) (plantName s) s.
Definition set_plantId (p : jsval) (s : Session) : Session :=
  set_identity (userId s) p (plantName s) s.
Definition set_plantName (n : jsval) (s : Session) : Session :=
  set_identity (userId s) (plantId s) n s.

Definition set_deviceSn (d : jsval) (s : Session) : Session :=
  {| cookies := cookies s; userId := userId s; plantId := plantId s;
     plantName := plantName s; deviceSn := d;
     lastLogin := lastLogin s; lastData := lastData s;
     lastFetch := lastFetch s |}.

Definition set_lastLogin (t : option Z) (s : Session) : Session :=
  {| cookies := cookies s; userId := userId s; plantId := plantId s;
     plantName := plantName s; deviceSn := deviceSn s;
     lastLogin := t; lastData := lastData s;
     lastFetch := lastFetch s |}.

Definition set_lastData (d : option DashData) (s : Session) : Session :=
  {| cookies := cookies s; userId := userId s; plantId := plantId s;
     plantName := plantName s; deviceSn := deviceSn s;
     lastLogin := lastLogin s; lastData := d;
     lastFetch := lastFetch s |}.

Definition set_lastFetch (t : Z) (s : Session) : Session :=
  {| cookies := cookies s; userId := userId s; plantId := plantId s;
     plantName := plantName s; deviceSn := deviceSn s;
     lastLogin := lastLogin s; lastData := lastData s;
     lastFetch := t |}.

(** The session at process start. *)
Definition initial_session : Session :=
  {| cookies := None; userId := VNull; plantId := VNull;
     plantName := VNull; deviceSn := VNull; lastLogin := None;
     lastData := None; lastFetch := 0 |}.

Definition initial_world (t : Z) : World :=
  {| session := initial_session; cookieJar := []; now := t; trace := [] |}.

(** ** Computations: state and exceptions

    An [async] function is a function of the world that returns or
    throws; an [Error] is its message, which is all the handlers look
    at. *)

Inductive Result (A : Type) : Type :=
| Ok (a : A)
| Throw (message : string).

Arguments Ok {A} a.
Arguments Throw {A} message.

Definition M (A : Type) : Type := World -> Result A * World.

Definition ret {A : Type} (a : A) : M A := fun w => (Ok a, w).

Definition throw {A : Type} (message : string) : M A :=
  fun w => (Throw message, w).

Definition bind {A B : Type} (m : M A) (k : A -> M B) : M B :=
  fun w =>
    match m w with
    | (Ok a, w') => k a w'
    | (Throw e, w') => (Throw e, w')
    end.

(** [try { m } catch (e) { handler(e) }] *)
Definition try_catch {A : Type} (m : M A) (handler : string -> M A) : M A :=
  fun w =>
    match m w with
    | (Ok a, w') => (Ok a, w')
    | (Throw e, w') => handler e w'
    end.

Declare Scope server_scope.
Delimit Scope server_scope with server.

Notation "x <- m ;; k" := (bind m (fun x => k))
  (at level 61, m at next level, right associativity) : server_scope.
Notation "m ;;; k" := (bind m (fun _ => k))
  (at level 61, right associativity) : server_scope.

Local Open Scope server_scope.

Definition getSession : M Session := fun w => (Ok (session w), w).

Definition update (f : Session -> Session) : M unit :=
  fun w => (Ok tt, with_session f w).

(** [Date.now()] *)
Definition Date_now : M Z := fun w => (Ok (now w), w).

Definition record (ev : Event) : M unit :=
  fun w =>
    (Ok tt,
     {| session := session w; cookieJar := cookieJar w; now := now w;
        trace := trace w ++ [ev] |}).

(** ** Reading values that may be [null] or [undefined]

    The messages are those of V8, the engine of Node. *)

Definition TypeError_read (what prop : string) : string :=
  "Cannot read properties of " ++ what ++ " (reading '" ++ prop ++ "')".

(** [v.k], which throws on [null] and [undefined]. *)
Definition getE (v : jsval) (k : string) : M jsval :=
  match v with
  | VUndef => throw (TypeError_read "undefined" k)
  | VNull => throw (TypeError_read "null" k)
  | _ => ret (get v k)
  end.

(** [Object.keys(v)], for its exception only. *)
Definition Object_keys (v : jsval) : M unit :=
  if nullish v then throw "Cannot convert undefined or null to object"
  else ret tt.

(** [v[0]] *)
Definition index0 (v : jsval) : jsval :=
  match v with
  | VArr (x :: _) => x
  | VObj ps => match lookup "0" ps with Some x => x | None => VUndef end
  | VStr s => match s with
              | String c _ => VStr (String c EmptyString)
              | EmptyString => VUndef
              end
  | _ => VUndef
  end.

Fixpoint for_each (f : jsval -> M unit) (items : list jsval) : M unit :=
  match items with
  | [] => ret tt
  | x :: rest => f x ;;; for_each f rest
  end.

(** [v.map(f)] for its effects: only arrays have [map]. *)
Definition js_map (callee : string) (v : jsval) (f : jsval -> M unit)
  : M unit :=
  match v with
  | VArr items => for_each f items
  | VUndef => throw (TypeError_read "undefined" "map")
  | VNull => throw (TypeError_read "null" "map")
  | _ => throw (callee ++ " is not a function")
  end.

(** ** The numeric coalesce [pf] and the normaliser
    (app.js 679-778, README.md 577-676) *)

(** [const pf = (...vals) => { for (const v of vals) { const n =
    parseFloat(v); if (!isNaN(n) && n !== 0) return n; } return 0; }] *)
Fixpoint pf (vals : list jsval) : float :=
  match vals with
  | [] => zero
  | v :: rest =>
      let n := parseFloat v in
      if negb (isNaN n) && negb (is_zero n) then n else pf rest
  end.

(** What [getStorageData] returns, and the handler's default for it. *)
Record StorageRaw : Type := {
  detail : jsval;
  energy_overview : jsval;
  params : jsval
}.

Definition empty_object : jsval := VObj [].

Definition empty_storage : StorageRaw :=
  {| detail := empty_object; energy_overview := empty_object;
     params := empty_object |}.

(** [a || b] on numbers *)
Definition num_or (a b : float) : float :=
  if truthy (VNum a) then a else b.

(** The object [dashData] built from the raw sources. *)
Definition normalize (s : Session) (t : Z) (storageRaw : StorageRaw)
  (plantDetail : jsval) : DashData :=
  let sd :=
    or_else (get_opt (detail storageRaw) "obj")
      (or_else (detail storageRaw) empty_object) in
  let energy := or_else (energy_overview storageRaw) empty_object in
  let paramsRoot :=
    or_else (get_opt (params storageRaw) "obj")
      (or_else (params storageRaw) empty_object) in
  let bean := or_else (get paramsRoot "storageDetailBean") empty_object in
  let storageBean := or_else (get paramsRoot "storageBean") empty_object in
  let isOffGrid :=
    lt (parseFloat (get bean "vac")) (of_Z 50)
    && lt zero (parseFloat (get sd "vGrid")) in
  {| timestamp := t;
     plant := {|
       plant_name := plantName s;
       plant_id := plantId s;
       plant_currentPower :=
         pf [get sd "activePower"; get sd "outPutPower";
             get bean "outPutPower"];
       plant_todayEnergy := pf [get sd "epvToday"; get energy "epvToday"];
       plant_monthEnergy := zero;
       plant_totalEnergy := pf [get sd "epvTotal"; get energy "epvTotal"]
     |};
     pv := {|
       pv_power := pf [get sd "pCharge1"; get bean "ppv"];
       pv_powerStr2 := pf [get sd "pCharge2"; get bean "ppv2"];
       pv_voltage := pf [get sd "vpv1"; get bean "vpv"];
       pv_current := pf [get sd "iChargePV1"; get bean "iChargePV1"];
       pv_todayEnergy := pf [get sd "epvToday"; get energy "epvToday"];
       pv_totalEnergy := pf [get sd "epvTotal"; get energy "epvTotal"]
     |};
     battery := {|
       battery_soc := pf [get sd "capacity"; get bean "capacity"];
       battery_voltage := pf [get sd "vbat"; get bean "vBat"];
       battery_chargePower := pf [get sd "pCharge1"; get bean "pCharge"];
       battery_dischargePower := pf [get bean "pDischarge"; get bean "pBat"];
       battery_dischargeCurrent := pf [get bean "dischgCurr"];
       battery_chargeToday :=
         pf [get sd "eBatChargeToday"; get energy "eChargeToday"];
       battery_dischargeToday :=
         pf [get sd "eBatDisChargeToday"; get energy "eDischargeToday"];
       battery_temperature :=
         pf [get bean "batTemp"; get bean "bmsTemperature"]
     |};
     load := {|
       load_power :=
         pf [get sd "outPutPower"; get bean "outPutPower";
             get bean "sysOut"];
       load_current := pf [get bean "outPutCurrent"];
       load_voltage := pf [get sd "outPutVolt"; get bean "outPutVolt"];
       load_frequency := pf [get sd "freqOutPut"; get bean "freqOutPut"];
       load_todayEnergy :=
         pf [get energy "useEnergyToday"; get energy "eToUserToday"];
       load_loadPercent := pf [get sd "loadPercent"; get bean "loadPercent"]
     |};
     grid := {|
       grid_power := pf [get bean "pAcInPut"; get sd "pacToGrid"];
       grid_voltage := pf [get sd "vGrid"; get bean "vGrid"];
       grid_frequency := pf [get sd "freqGrid"; get bean "freqGrid"];
       grid_importToday := pf [get energy "eToUserToday"];
       grid_exportToday := pf [get energy "eToGridToday"];
       grid_status := if isOffGrid then "off-grid" else "connected"
     |};
     inverter := {|
       inverter_status :=
         or_else (get bean "SPF5000StatusText")
           (or_else (get bean "statusText")
              (VStr (ToString
                       (or_else (get bean "status")
                          (or_else (get sd "status") (VStr ""))))));
       inverter_statusCode :=
         num_or (parseInt (get bean "status"))
           (num_or (parseInt (get sd "status")) zero);
       inverter_temperature := pf [get bean "invTemperature"];
       inverter_dcDcTemperature := pf [get bean "dcDcTemperature"];
       inverter_model :=
         or_else (get paramsRoot "storageType")
           (or_else (get storageBean "modelText") (VStr "SPF 5000ES"));
       inverter_serial := deviceSn s;
       inverter_alias :=
         or_else (get storageBean "alias")
           (or_else (get storageBean "treeName") (VStr ""));
       inverter_firmware := or_else (get storageBean "fwVersion") (VStr "")
     |};
     energy := {|
       energy_pvToday := pf [get sd "epvToday"; get energy "epvToday"];
       energy_pvTotal := pf [get sd "epvTotal"; get energy "epvTotal"];
       energy_consumptionToday := pf [get energy "useEnergyToday"];
       energy_consumptionTotal := pf [get energy "useEnergyTotal"];
       energy_gridImportToday := pf [get energy "eToUserToday"];
       energy_gridImportTotal := pf [get energy "eToUserTotal"];
       energy_gridExportToday := pf [get energy "eToGridToday"];
       energy_gridExportTotal := pf [get energy "eToGridTotal"];
       energy_batteryChargeToday := pf [get energy "eChargeToday"];
       energy_batteryDischargeToday := pf [get energy "eDischargeToday"];
       energy_acChargeToday := pf [get bean "eacChargeToday"];
       energy_acDischargeToday := pf [get bean "eacDisChargeToday"]
     |};
     _raw := {|
       raw_storageDetail := sd;
       raw_energyOverview := energy;
       raw_storageDetailBean := bean;
       raw_storageBean := storageBean;
       raw_plantDetail := plantDetail
     |}
  |}.

(** ** The server's functions *)

Section Server.

(** Which listing is modelled. *)
Variable variant : Variant.

(** [process.env.GROWATT_USERNAME] and [process.env.GROWATT_PASSWORD] *)
Variable GROWATT_USERNAME GROWATT_PASSWORD : option string.

(** The vendor's API: from the history and the time of a request, the
    time the reply takes and the reply. *)
Variable upstream : list Event -> Z -> Request -> N * Reply.

(** The global [fetch]. *)
Definition fetch (rq : Request) : M Response :=
  fun w =>
    let '(latency, reply) := upstream (trace w) (now w) rq in
    let w' :=
      {| session := session w; cookieJar := cookieJar w;
         now := now w + Z.of_N latency;
         trace := trace w ++ [EvRequest rq] |} in
    match reply with
    | NetworkError e => (Throw e, w')
    | Answer res => (Ok res, w')
    end.

(** *** Cookie jar (app.js 286-314, README.md 218-246) *)

(** One raw [Set-Cookie] value: the name and value it sets, if any. *)
Definition parse_cookie (raw : string) : option (string * string) :=
  let pair := trim (before_first raw ";") in
  if String.eqb pair "" || negb (includes pair "=") then None
  else
    match indexOf pair "=" with
    | Some eqIdx =>
        let name := trim (substring_to pair eqIdx) in
        let value := trim (substring_from pair (eqIdx + 1)) in
        if String.eqb name "" then None else Some (name, value)
    | None => None
    end.

(** [cookieJar.set(name, value)] *)
Fixpoint jar_set (name value : string) (jar : list (string * string))
  : list (string * string) :=
  match jar with
  | [] => [(name, value)]
  | (k, v) :: rest =>
      if String.eqb name k then (k, value) :: rest
      else (k, v) :: jar_set name value rest
  end.

Definition capture (raws : list string) (jar : list (string * string))
  : list (string * string) :=
  fold_left
    (fun jar raw =>
       match parse_cookie raw with
       | Some (name, value) => jar_set name value jar
       | None => jar
       end)
    raws jar.

(** The [Cookie] header of a jar; [null] for the empty text. *)
Definition cookie_header (jar : list (string * string)) : option string :=
  let header := join "; " (map (fun kv => fst kv ++ "=" ++ snd kv) jar) in
  if String.eqb header "" then None else Some header.

Definition captureCookies (res : Response) : M unit :=
  fun w =>
    let jar := capture (setCookies res) (cookieJar w) in
    (Ok tt,
     {| session := set_cookies (cookie_header jar) (session w);
        cookieJar := jar; now := now w; trace := trace w |}).

(** [session.cookies = null; cookieJar.clear()] *)
Definition clearCookies : M unit :=
  fun w =>
    (Ok tt,
     {| session := set_cookies None (session w);
        cookieJar := []; now := now w; trace := trace w |}).

(** *** Tolerant JSON parsing (app.js 316-348, README.md 248-257) *)

Definition endings : list string :=
  ["}"; "}}"; "}}}"; "}}}}"; "]}"; "]}}"].

(** [for (const ending of endings)], returning at the first parse. *)
Fixpoint try_endings (current : string) (es : list string) : option jsval :=
  match es with
  | [] => None
  | ending :: rest =>
      match JSON_parse (current ++ ending) with
      | Some parsed => Some parsed
      | None => try_endings current rest
      end
  end.

(** [for (let i = 0; i < 10; i++)], with [rounds] iterations left. *)
Fixpoint salvage (rounds : nat) (current : string) : option jsval :=
  match rounds with
  | O => None
  | S rounds' =>
      match lastIndexOf current ","%char with
      | None => None
      | Some commaIdx =>
          let current' := substring_to current commaIdx in
          match try_endings current' endings with
          | Some parsed => Some parsed
          | None => salvage rounds' current'
          end
      end
  end.

Definition safeJson (res : Response) (label : string) : M jsval :=
  let text := body res in
  match JSON_parse text with
  | Some parsed => ret parsed
  | None =>
      match variant with
      | ServerJs =>
          throw (label ++ " returned non-JSON: " ++ dq
                 ++ substring_to text 80 ++ dq)
      | ServerTs =>
          if startsWith (trim text) "<" then
            throw ("session_expired: " ++ label ++ " returned HTML")
          else
            match salvage 10 text with
            | Some parsed => ret parsed
            | None => ret empty_object
            end
      end
  end.

(** *** HTTP helper (app.js 350-376, README.md 259-285) *)

Definition cookie_to_send (s : Session) : option string :=
  match cookies s with
  | Some c => if String.eqb c "" then None else Some c
  | None => None
  end.

Definition growattFetch (ep : Endpoint) : M Response :=
  s <- getSession ;;
  res <- fetch {| endpoint := ep; cookie := cookie_to_send s; form := [] |} ;;
  captureCookies res ;;;
  ret res.

(** [await safeJson(await growattFetch(..), label)] *)
Definition fetch_json (ep : Endpoint) (label : string) : M jsval :=
  res <- growattFetch ep ;;
  safeJson res label.

(** *** Device discovery (app.js 513-556, README.md 422-465) *)

Definition deviceList_of (data : jsval) : jsval :=
  or_else (get data "deviceList") (VArr []).

Definition discoverDevices : M jsval :=
  data <- fetch_json EpDeviceListTwo "DeviceListTwo" ;;
  Object_keys data ;;;
  let devices := deviceList_of data in
  devices <-
    (if is_number_zero (get devices "length") then
       data <- fetch_json EpDeviceListAll "DeviceListAll" ;;
       Object_keys data ;;;
       ret (deviceList_of data)
     else ret devices) ;;
  (if gt_zero (get devices "length") then
     sn <- getE (index0 devices) "deviceSn" ;;
     sn <-
       (if truthy sn then ret sn
        else
          alias <- getE (index0 devices) "alias" ;;
          if truthy alias then ret alias
          else getE (index0 devices) "sn") ;;
     update (set_deviceSn sn) ;;;
     js_map "devices.map" devices
       (fun d => _ <- getE d "deviceSn" ;; Object_keys d)
   else ret tt) ;;;
  ret devices.

(** *** Login (app.js 378-489, README.md 287-398) *)

(** What [login] returns to [/api/connect]. *)
Record LoginInfo : Type := {
  info_plantName : jsval;
  info_plantId : jsval;
  info_userId : jsval;
  info_country : jsval;
  info_deviceSn : jsval
}.

Definition login_non_json (res : Response) : string :=
  "Login returned non-JSON (status " ++ string_of_N (status res) ++ "): "
  ++ dq ++ substring_to (body res) 120 ++ dq.

(** [session.lastLogin = Date.now()] *)
Definition stampLogin : M unit :=
  t <- Date_now ;;
  update (set_lastLogin (Some t)).

Definition config_error : string :=
  "GROWATT_USERNAME and GROWATT_PASSWORD must be set in .env".

(** [login] from the point where both credentials are known to be set. *)
Definition login_with (username password : string) : M LoginInfo :=
  clearCookies ;;;
  let hashedPw := growattHash password in
  res <- fetch {| endpoint := EpLogin; cookie := None;
                  form := [("userName", username);
                           ("password", hashedPw)] |} ;;
  captureCookies res ;;;
  data <-
    try_catch
      (match JSON_parse (body res) with
       | Some data => Object_keys data ;;; ret data
       | None => throw "SyntaxError"
       end)
      (fun _ => throw (login_non_json res)) ;;
  back <- getE data "back" ;;
  if negb (truthy back) then
    throw ("Login failed: no " ++ dq ++ "back" ++ dq
           ++ " in response — "
           ++ substring_to (JSON_stringify data) 200)
  else if negb (truthy (get back "success")) then
    let msg :=
      or_else (get_opt back "msg")
        (or_else (get data "msg") (VStr (JSON_stringify data))) in
    throw ("Login failed: " ++ ToString msg)
  else
    let user := get back "user" in
    let plants := get back "data" in
    (if nullish plants then ret tt
     else js_map "plants?.map" plants
            (fun p => _ <- getE p "plantId" ;; ret tt)) ;;;
    if negb (truthy plants) || is_number_zero (get plants "length")
    then throw "Login succeeded but no plants found"
    else
      uid <- getE user "id" ;;
      update (set_userId uid) ;;;
      pid <- getE (index0 plants) "plantId" ;;
      update (set_plantId pid) ;;;
      pname <- getE (index0 plants) "plantName" ;;
      update (set_plantName pname) ;;;
      stampLogin ;;;
      discoverDevices ;;;
      s <- getSession ;;
      country <- getE user "country" ;;
      ret {| info_plantName := plantName s;
             info_plantId := plantId s;
             info_userId := userId s;
             info_country := or_else country (VStr "Unknown");
             info_deviceSn := deviceSn s |}.

Definition login : M LoginInfo :=
  record EvLogin ;;;
  match GROWATT_USERNAME, GROWATT_PASSWORD with
  | Some username, Some password =>
      if String.eqb username "" || String.eqb password "" then
        throw config_error
      else login_with username password
  | _, _ => throw config_error
  end.

(** *** Session guard and retry (app.js 491-511, README.md 400-420) *)

(** [!session.cookies || !session.lastLogin ||
     (Date.now() - session.lastLogin > SESSION_TTL)] *)
Definition login_needed (s : Session) (t : Z) : bool :=
  match cookie_to_send s with
  | None => true
  | Some _ =>
      match lastLogin s with
      | None => true
      | Some t0 => (t0 =? 0)%Z || (t - t0 >? SESSION_TTL)%Z
      end
  end.

Definition ensureSession : M unit :=
  s <- getSession ;;
  t <- Date_now ;;
  if login_needed s t then login ;;; ret tt else ret tt.

(** The errors after which [withSessionRetry] logs in again. *)
Definition retryable (message : string) : bool :=
  negb (String.eqb message "") &&
  match variant with
  | ServerTs =>
      includes message "non-JSON" || includes message "session_expired"
  | ServerJs => includes message "non-JSON"
  end.

(** [await fn()], noted in the history. *)
Definition invoke {A : Type} (fn : M A) : M A :=
  record EvInvoke ;;; fn.

Definition withSessionRetry {A : Type} (fn : M A) : M A :=
  try_catch (invoke fn)
    (fun err =>
       if retryable err then
         update (set_lastLogin None) ;;;
         ensureSession ;;;
         invoke fn
       else throw err).

(** *** Storage and plant data (app.js 558-626, README.md 467-528) *)

(** The result of a computation, as a value. *)
Definition attempt {A : Type} (m : M A) : M (Result A) :=
  fun w => let '(r, w') := m w in (Ok r, w').

(** One source of the TypeScript listing:
    [try { x = await safeJson(await growattFetch(..)); log(Object.keys(x)) }
     catch (e) { if (e.message.includes('session_expired')) throw e; }],
    with [x] initially [{}]. *)
Definition guarded_source (ep : Endpoint) (label : string) : M jsval :=
  r <- attempt (fetch_json ep label) ;;
  match r with
  | Ok x =>
      try_catch (Object_keys x ;;; ret x)
        (fun e => if includes e "session_expired" then throw e else ret x)
  | Throw e =>
      if includes e "session_expired" then throw e else ret empty_object
  end.

(** One source of the older listing: no handler of its own. *)
Definition plain_source (ep : Endpoint) (label : string) : M jsval :=
  x <- fetch_json ep label ;;
  Object_keys x ;;;
  ret x.

Definition source (ep : Endpoint) (label : string) : M jsval :=
  match variant with
  | ServerTs => guarded_source ep label
  | ServerJs => plain_source ep label
  end.

Definition getStorageData : M StorageRaw :=
  s <- getSession ;;
  if negb (truthy (deviceSn s)) then
    throw "No device discovered. Try reconnecting."
  else
    detailData <- source EpStorageDetail "StorageDetail" ;;
    energyData <- source EpEnergyOverview "EnergyOverview" ;;
    paramsData <- source EpStorageParams "StorageParams" ;;
    obj <- getE energyData "obj" ;;
    ret {| detail := detailData;
           energy_overview := or_else obj energyData;
           params := paramsData |}.

Definition getPlantDetail : M jsval :=
  raw <- fetch_json EpPlantDetail "PlantDetail" ;;
  Object_keys raw ;;;
  ret (or_else (get raw "back") empty_object).

(** *** The endpoints (app.js 634-868, README.md 532-766) *)

(** The body of a reply of [/api/data]:
    [{ success: true, cached, ...dashData }] or
    [{ success: false, error }]. *)
Inductive DataReply : Type :=
| DataOk (cached : bool) (d : DashData)
| DataError (error : string).

(** The cache test
    [session.lastData && (Date.now() - session.lastFetch < DATA_CACHE_TTL)]:
    the snapshot to serve, if any. *)
Definition fresh_snapshot (w : World) : option DashData :=
  match lastData (session w) with
  | Some d =>
      if (now w - lastFetch (session w) <? DATA_CACHE_TTL)%Z then Some d
      else None
  | None => None
  end.

(** The two [try] blocks of the handler, each with its default. *)
Definition storage_or_empty : M StorageRaw :=
  try_catch (withSessionRetry getStorageData) (fun _ => ret empty_storage).

Definition plant_or_error : M jsval :=
  try_catch (withSessionRetry getPlantDetail)
    (fun e => ret (VObj [("error", VStr e)])).

(** The refresh: from [await ensureSession()] to the assignment of
    [session.lastFetch]. *)
Definition refresh : M DashData :=
  ensureSession ;;;
  storageRaw <- storage_or_empty ;;
  plantDetail <- plant_or_error ;;
  s <- getSession ;;
  t <- Date_now ;;
  let dashData := normalize s t storageRaw plantDetail in
  update (set_lastData (Some dashData)) ;;;
  t' <- Date_now ;;
  update (set_lastFetch t') ;;;
  ret dashData.

(** The handler's [catch]. *)
Definition indicates_login_problem (message : string) : bool :=
  includes message "Login" || includes message "session".

(** [app.get('/api/data', ...)] *)
Definition api_data (w : World) : DataReply * World :=
  match fresh_snapshot w with
  | Some d => (DataOk true d, w)
  | None =>
      match refresh w with
      | (Ok d, w') => (DataOk false d, w')
      | (Throw e, w') =>
          (DataError e,
           if indicates_login_problem e
           then with_session (set_lastLogin None) w'
           else w')
      end
  end.

(** The body of a reply of [/api/connect]. *)
Inductive ConnectReply : Type :=
| ConnectOk (info : LoginInfo)
| ConnectError (error : string).

(** [app.get('/api/connect', ...)] *)
Definition api_connect (w : World) : ConnectReply * World :=
  match login w with
  | (Ok info, w') => (ConnectOk info, w')
  | (Throw e, w') => (ConnectError e, w')
  end.


(** *** The diagnostic endpoints (app.js 796-823 and 860-868,
    README.md 694-721 and 758-766) *)

(** [{ error: e.message }] *)
Definition error_object (e : string) : jsval := VObj [("error", VStr e)].

(** What [getStorageData] returns, as the object it is. *)
Definition storage_object (storageRaw : StorageRaw) : jsval :=
  VObj [("detail", detail storageRaw);
        ("energy", energy_overview storageRaw);
        ("params", params storageRaw)].

(** The body of a successful reply of [/api/debug]. *)
Record DebugInfo : Type := {
  debug_plantId : jsval;
  debug_plantName : jsval;
  debug_deviceSn : jsval;
  debug_userId : jsval;
  debug_storageDetail : jsval;
  debug_energyOverview : jsval;
  debug_storageParams : jsval;
  debug_plantDetail : jsval;
  debug_devices : jsval
}.

Inductive DebugReply : Type :=
| DebugOk (info : DebugInfo)
| DebugError (error : string).

(** The [try] block of the handler of [/api/debug]. *)
Definition debug : M DebugInfo :=
  ensureSession ;;;
  storageRaw <-
    try_catch (storageRaw <- getStorageData ;; ret (storage_object storageRaw))
      (fun e => ret (error_object e)) ;;
  plantDetail <- try_catch getPlantDetail (fun e => ret (error_object e)) ;;
  devices <- try_catch discoverDevices (fun e => ret (error_object e)) ;;
  s <- getSession ;;
  ret {| debug_plantId := plantId s;
         debug_plantName := plantName s;
         debug_deviceSn := deviceSn s;
         debug_userId := userId s;
         debug_storageDetail := or_else (get storageRaw "detail") storageRaw;
         debug_energyOverview :=
           or_else (get storageRaw "energy") empty_object;
         debug_storageParams :=
           or_else (get storageRaw "params") empty_object;
         debug_plantDetail := plantDetail;
         debug_devices := devices |}.

(** [app.get('/api/debug', ...)] *)
Definition api_debug (w : World) : DebugReply * World :=
  match debug w with
  | (Ok info, w') => (DebugOk info, w')
  | (Throw e, w') => (DebugError e, w')
  end.

(** The body of a reply of [/api/status]; the two instants are sent in
    their ISO rendering. *)
Record StatusReply : Type := {
  status_connected : bool;
  status_plantName : jsval;
  status_deviceSn : jsval;
  status_lastLogin : option Z;
  status_lastFetch : option Z
}.

(** [app.get('/api/status', ...)] *)
Definition api_status (w : World) : StatusReply * World :=
  let s := session w in
  ({| status_connected :=
        match cookie_to_send s with Some _ => true | None => false end;
      status_plantName := plantName s;
      status_deviceSn := deviceSn s;
      status_lastLogin :=
        match lastLogin s with
        | Some t => if (t =? 0)%Z then None else Some t
        | None => None
        end;
      status_lastFetch :=
        if (lastFetch s =? 0)%Z then None else Some (lastFetch s) |},
   w).

(* ================================================================== *)
(** * Vocabulary of the properties *)
(* ================================================================== *)

Definition is_login (ev : Event) : bool :=
  match ev with EvLogin => true | _ => false end.

Definition is_invoke (ev : Event) : bool :=
  match ev with EvInvoke => true | _ => false end.

(** The number of calls of [login] so far. *)
Definition logins (w : World) : nat :=
  List.length (filter is_login (trace w)).

(** The number of invocations under [withSessionRetry] so far. *)
Definition invocations (w : World) : nat :=
  List.length (filter is_invoke (trace w)).

(** The world once an event is noted. *)
Definition noted (ev : Event) (w : World) : World :=
  {| session := session w; cookieJar := cookieJar w; now := now w;
     trace := trace w ++ [ev] |}.

(** The world after a request: time has passed and the request is in
    the history. *)
Definition after_fetch (rq : Request) (w : World) : World :=
  {| session := session w; cookieJar := cookieJar w;
     now := now w + Z.of_N (fst (upstream (trace w) (now w) rq));
     trace := trace w ++ [EvRequest rq] |}.

Definition same_logins (w w' : World) : Prop := logins w' = logins w.

Definition same_invocations (w w' : World) : Prop :=
  invocations w' = invocations w.

(** A session as the server builds it: the cookie header is never the
    empty text and the login time is never the epoch itself. *)
Definition well_formed (s : Session) : Prop :=
  cookies s <> Some "" /\ lastLogin s <> Some 0%Z.

(** The session has to be established again: no cookies, no login time,
    or a login more than thirty minutes old. *)
Definition session_expired (w : World) : Prop :=
  cookies (session w) = None \/
  lastLogin (session w) = None \/
  exists t0, lastLogin (session w) = Some t0 /\
             (now w - t0 > 30 * 60 * 1000)%Z.

(** An operation that does not itself go through [withSessionRetry]. *)
Definition neutral {A : Type} (fn : M A) : Prop :=
  forall w, invocations (snd (fn w)) = invocations w.

(** An operation that always fails with an error that asks for a new
    login. *)
Definition always_expired {A : Type} (fn : M A) : Prop :=
  forall w, exists e w', fn w = (Throw e, w') /\ retryable e = true.

(** The text with every ['0'] at an even index replaced by ['c']; [i] is
    the index of the first character of [s]. *)
Fixpoint replace_even_zeros (i : nat) (s : string) : string :=
  match s with
  | EmptyString => EmptyString
  | String ch rest =>
      String (if Nat.even i && Ascii.eqb ch "0" then "c"%char else ch)
        (replace_even_zeros (S i) rest)
  end.

(** A decimal digit or one of [a]..[f], by its code. *)
Definition lowercase_hex (c : N) : Prop :=
  (48 <= c <= 57 \/ 97 <= c <= 102)%N.

(** A candidate that counts: it parses to a number that is not zero. *)
Definition usable (v : jsval) : bool :=
  negb (isNaN (parseFloat v)) && negb (is_zero (parseFloat v)).

(** 12.5, the double [25 * 2^-1]. *)
Definition twelve_and_a_half : float := of_decimal false 125 (-1).

(** The texts obtained by cutting the text at its last comma, then the
    result at its last comma, and so on, at most [rounds] times. *)
Fixpoint truncations (rounds : nat) (text : string) : list string :=
  match rounds with
  | O => []
  | S rounds' =>
      match lastIndexOf text ","%char with
      | None => []
      | Some i =>
          let cut := substring_to text i in
          cut :: truncations rounds' cut
      end
  end.

(** Every truncation with every ending, in the order they are tried. *)
Definition salvage_candidates (rounds : nat) (text : string) : list string :=
  flat_map (fun cut => map (fun ending => (cut ++ ending)%string) endings)
    (truncations rounds text).

(** The value of the first text of the list that parses. *)
Fixpoint first_parse (texts : list string) : option jsval :=
  match texts with
  | [] => None
  | t :: rest =>
      match JSON_parse t with
      | Some v => Some v
      | None => first_parse rest
      end
  end.

(** What [safeJson] is specified to do with a body that does not parse,
    read to the letter: HTML is a body that starts with [<]. *)
Definition safeJson_as_specified (res : Response) (label : string)
  : Result jsval :=
  if startsWith (body res) "<" then
    Throw ("session_expired: " ++ label ++ " returned HTML")
  else
    match first_parse (salvage_candidates 10 (body res)) with
    | Some v => Ok v
    | None => Ok empty_object
    end.

(** The cached snapshot and its time are the same in both worlds. *)
Definition same_cache (w w' : World) : Prop :=
  lastData (session w') = lastData (session w) /\
  lastFetch (session w') = lastFetch (session w).

(** The world once the snapshot [d] is stored:
    [session.lastData = dashData; session.lastFetch = Date.now()]. *)
Definition stored (d : DashData) (w : World) : World :=
  with_session (set_lastFetch (now w))
    (with_session (set_lastData (Some d)) w).

(** The fields of a snapshot that only the energy overview feeds. *)
Definition energy_only_fields (d : DashData) : list (string * float) :=
  [("load.todayEnergy", load_todayEnergy (load d));
   ("grid.importToday", grid_importToday (grid d));
   ("grid.exportToday", grid_exportToday (grid d));
   ("energy.consumptionToday", energy_consumptionToday (energy d));
   ("energy.consumptionTotal", energy_consumptionTotal (energy d));
   ("energy.gridImportToday", energy_gridImportToday (energy d));
   ("energy.gridImportTotal", energy_gridImportTotal (energy d));
   ("energy.gridExportToday", energy_gridExportToday (energy d));
   ("energy.gridExportTotal", energy_gridExportTotal (energy d));
   ("energy.batteryChargeToday", energy_batteryChargeToday (energy d));
   ("energy.batteryDischargeToday",
    energy_batteryDischargeToday (energy d))].

(** The storage detail and the storage bean as the normaliser reads
    them off the raw sources. *)
Definition sd_of (storageRaw : StorageRaw) : jsval :=
  or_else (get_opt (detail storageRaw) "obj")
    (or_else (detail storageRaw) empty_object).

Definition bean_of (storageRaw : StorageRaw) : jsval :=
  or_else
    (get (or_else (get_opt (params storageRaw) "obj")
            (or_else (params storageRaw) empty_object))
       "storageDetailBean")
    empty_object.

(** Time passing between two requests. *)
Definition later (dt : N) (w : World) : World :=
  {| session := session w; cookieJar := cookieJar w;
     now := now w + Z.of_N dt; trace := trace w |}.

(** The worlds the process can be in between two requests: it starts
    empty, after the epoch; requests to [/api/connect] and [/api/data]
    are served; the diagnostic endpoints run [ensureSession],
    [getStorageData], [getPlantDetail] and [discoverDevices]. *)
Inductive reachable : World -> Prop :=
| reach_start (t : Z) : (0 < t)%Z -> reachable (initial_world t)
| reach_later (dt : N) (w : World) : reachable w -> reachable (later dt w)
| reach_connect (w : World) : reachable w -> reachable (snd (api_connect w))
| reach_data (w : World) : reachable w -> reachable (snd (api_data w))
| reach_ensureSession (w : World) :
    reachable w -> reachable (snd (ensureSession w))
| reach_getStorageData (w : World) :
    reachable w -> reachable (snd (getStorageData w))
| reach_getPlantDetail (w : World) :
    reachable w -> reachable (snd (getPlantDetail w))
| reach_discoverDevices (w : World) :
    reachable w -> reachable (snd (discoverDevices w)).

(** The cookie header of the session is the one built from the jar. *)
Definition jar_consistent (w : World) : Prop :=
  cookies (session w) = cookie_header (cookieJar w).

(** A property of worlds that holds after if it held before. *)
Definition keeps (P : World -> Prop) (w w' : World) : Prop := P w -> P w'.

(** The clock is past the epoch and the session is well formed. *)
Definition sound (w : World) : Prop :=
  (0 < now w)%Z /\ well_formed (session w).

(** The events of a kind in the history, counted. *)
Definition count (p : Event -> bool) (w : World) : nat :=
  List.length (filter p (trace w)).

Definition is_request (ev : Event) : bool :=
  match ev with EvRequest _ => true | _ => false end.

(** The number of requests sent upstream so far. *)
Definition requests (w : World) : nat := count is_request w.

(** A computation adds at most [k] events of the kind to the history,
    whether it returns or throws. *)
Definition costs (p : Event -> bool) {A : Type} (m : M A) (k : nat) : Prop :=
  forall w, count p (snd (m w)) <= count p w + k.

(** The login time and the clock across device discovery. *)
Definition login_time_kept (w w' : World) : Prop :=
  lastLogin (session w') = lastLogin (session w) /\ (now w <= now w')%Z.

(** The user and the plant of the session are the same in both worlds. *)
Definition identity_kept (w w' : World) : Prop :=
  userId (session w') = userId (session w)
  /\ plantId (session w') = plantId (session w)
  /\ plantName (session w') = plantName (session w).

(** A number the dashboard can show: not [NaN], and not the negative
    zero. *)
Definition plain_number (x : float) : Prop :=
  isNaN x = false /\ x <> S754_zero true.

(** The cache is the same in both worlds and the clock has not gone
    back. *)
Definition cache_kept (w w' : World) : Prop :=
  same_cache w w' /\ (now w <= now w')%Z.

(** With a snapshot in the cache, the time of the last fetch is past the
    epoch, not in the future and not before the time stamp of the
    snapshot; without one it is the initial 0. *)
Definition cache_sound (w : World) : Prop :=
  match lastData (session w) with
  | Some d =>
      (0 < lastFetch (session w) <= now w)%Z
      /\ (timestamp d <= lastFetch (session w))%Z
  | None => lastFetch (session w) = 0%Z
  end.

(** A login time is set. *)
Definition logged_in (w : World) : Prop := lastLogin (session w) <> None.

(** Every character of the text passes the test. *)
Fixpoint all_chars (f : ascii -> bool) (s : string) : bool :=
  match s with
  | EmptyString => true
  | String c rest => f c && all_chars f rest
  end.

(** A visible ASCII character: no space, no control character. *)
Definition visible (c : ascii) : bool :=
  ((33 <=? N_of_ascii c) && (N_of_ascii c <=? 126))%N.

(** The characters of a cookie value: visible, other than [;]. *)
Definition value_char (c : ascii) : bool :=
  visible c && negb (Ascii.eqb c ";").

(** The characters of a cookie name: visible, other than [;] and [=]. *)
Definition name_char (c : ascii) : bool :=
  value_char c && negb (Ascii.eqb c "=").

(** The jar holds each name once, and no empty name. *)
Definition jar_well_keyed (w : World) : Prop :=
  NoDup (map fst (cookieJar w))
  /\ Forall (fun kv => fst kv <> "") (cookieJar w).

(** The user, the plant and the device of the session are the same in
    both worlds, and no login was entered in between. *)
Definition target_kept (w w' : World) : Prop :=
  identity_kept w w'
  /\ deviceSn (session w') = deviceSn (session w)
  /\ logins w' = logins w.

(** The user, the plant and the device of the session are the same in
    both worlds unless a login was entered in between. *)
Definition target_kept_unless_login (w w' : World) : Prop :=
  logins w <= logins w'
  /\ (logins w' = logins w ->
      identity_kept w w' /\ deviceSn (session w') = deviceSn (session w)).

(* ================================================================== *)
(** * A scripted vendor

    Replies of the vendor and worlds on which the properties are run.
    Nothing here depends on the configuration of the server. *)
(* ================================================================== *)

(** JSON written with single quotes, for legibility. *)
Definition json_text (s : string) : string :=
  string_of_list_ascii
    (map (fun c => if Ascii.eqb c "'" then ascii_of_N 34 else c)
       (list_ascii_of_string s)).

Definition answer (set_cookie : list string) (text : string) : N * Reply :=
  (5%N,
   Answer {| status := 200; setCookies := set_cookie;
             body := json_text text |}).

Definition network_down : N * Reply := (5%N, NetworkError "fetch failed").

Definition login_page : string := "<html><body>Please log in</body></html>".

(** A vendor that answers every operation. *)
Definition healthy (rq : Request) : N * Reply :=
  match endpoint rq with
  | EpLogin =>
      answer ["JSESSIONID=abc; Path=/"]
        "{'back':{'success':true,'user':{'id':7,'country':'ZA'},'data':[{'plantId':'9001','plantName':'Home'}]}}"
  | EpDeviceListTwo => answer [] "{'deviceList':[{'deviceSn':'XYZ123'}]}"
  | EpDeviceListAll => answer [] "{}"
  | EpStorageDetail => answer [] "{'obj':{'capacity':'55','vbat':'51.2'}}"
  | EpEnergyOverview =>
      answer [] "{'obj':{'epvToday':'3.5','useEnergyToday':'4'}}"
  | EpStorageParams =>
      answer [] "{'obj':{'storageDetailBean':{'vac':'230','ppv':'1200'}}}"
  | EpPlantDetail => answer [] "{'back':{'plantData':{}}}"
  end.

(** A vendor whose replies depend on the operation only. *)
Definition always (f : Request -> N * Reply)
  : list Event -> Z -> Request -> N * Reply :=
  fun _ _ rq => f rq.

(** The energy overview cannot be reached. *)
Definition energy_down (rq : Request) : N * Reply :=
  match endpoint rq with
  | EpEnergyOverview => network_down
  | _ => healthy rq
  end.

(** The energy overview answers with the login page. *)
Definition energy_html (rq : Request) : N * Reply :=
  match endpoint rq with
  | EpEnergyOverview => answer [] login_page
  | _ => healthy rq
  end.

(** The storage detail answers with the login page and the plant detail
    cannot be reached. *)
Definition all_down (rq : Request) : N * Reply :=
  match endpoint rq with
  | EpStorageDetail => answer [] login_page
  | EpPlantDetail => network_down
  | _ => healthy rq
  end.

(** The vendor rejects the credentials. *)
Definition bad_password (rq : Request) : N * Reply :=
  match endpoint rq with
  | EpLogin => answer [] "{'back':{'success':false,'msg':'bad password'}}"
  | _ => healthy rq
  end.

Definition sent_login (history : list Event) : bool :=
  existsb
    (fun ev =>
       match ev with
       | EvRequest {| endpoint := EpLogin |} => true
       | _ => false
       end)
    history.

(** The first login is answered; later ones do not get through. *)
Definition second_login_fails (history : list Event) (t : Z) (rq : Request)
  : N * Reply :=
  match endpoint rq with
  | EpLogin => if sent_login history then network_down else healthy rq
  | _ => healthy rq
  end.

Definition user : option string := Some "u".
Definition pass : option string := Some "p".

(** The process just started, at time 1000. *)
Definition w_start : World := initial_world 1000.

(** The snapshot of a reply, if it carries one. *)
Definition snapshot_of (r : DataReply) : option DashData :=
  match r with
  | DataOk _ d => Some d
  | DataError _ => None
  end.

(** 55 and 51.2 as doubles. *)
Definition fifty_five : float := of_decimal false 55 0.
Definition fifty_one_point_two : float := of_decimal false 512 (-1).

(** A truncated body, and one with a space before the markup. *)
Definition truncated : Response :=
  {| status := 200; setCookies := [];
     body := json_text "{'a':1,'b':{'c':2,'d" |}.

Definition spaced_html : Response :=
  {| status := 200; setCookies := []; body := " <html>" |}.

(** A world with a snapshot cached long ago and a login as old. *)
Definition old_snapshot : DashData :=
  normalize initial_session 1000 empty_storage empty_object.

Definition w_stale : World :=
  {| session :=
       {| cookies := Some "JSESSIONID=abc"; userId := VNull;
          plantId := VStr "9001"; plantName := VStr "Home";
          deviceSn := VStr "XYZ123"; lastLogin := Some 1000%Z;
          lastData := Some old_snapshot; lastFetch := 1000 |};
     cookieJar := [("JSESSIONID", "abc")];
     now := 10000000;
     trace := [] |}.

(** An operation that always finds the session expired. *)
Definition expired_call : M unit :=
  fun w => (Throw "session_expired: Probe returned HTML", w).


(** The energy overview answers with the JSON value [null]. *)
Definition energy_null (rq : Request) : N * Reply :=
  match endpoint rq with
  | EpEnergyOverview => answer [] "null"
  | _ => healthy rq
  end.

(** Neither device list holds a device. *)
Definition no_devices (rq : Request) : N * Reply :=
  match endpoint rq with
  | EpDeviceListTwo => answer [] "{'deviceList':[]}"
  | EpDeviceListAll => answer [] "{}"
  | _ => healthy rq
  end.

(** Nothing gets through. *)
Definition offline (rq : Request) : N * Reply := network_down.

(** The vendor that costs the most requests: the device is in the second
    list only, and the storage parameters and the plant detail answer
    with the login page. *)
Definition costly (rq : Request) : N * Reply :=
  match endpoint rq with
  | EpDeviceListTwo => answer [] "{}"
  | EpDeviceListAll => answer [] "{'deviceList':[{'deviceSn':'XYZ123'}]}"
  | EpStorageParams => answer [] login_page
  | EpPlantDetail => answer [] login_page
  | _ => healthy rq
  end.

(** A world with a snapshot cached a second ago. *)
Definition w_cached : World :=
  {| session :=
       {| cookies := Some "JSESSIONID=abc"; userId := VNull;
          plantId := VStr "9001"; plantName := VStr "Home";
          deviceSn := VStr "XYZ123"; lastLogin := Some 1000%Z;
          lastData := Some old_snapshot; lastFetch := 1000 |};
     cookieJar := [("JSESSIONID", "abc")];
     now := 2000;
     trace := [] |}.

(* ================================================================== *)
(** * Properties *)
(* ================================================================== *)

(** ** What a computation leaves related

    [stable R m]: the world after [m], whether it returns or throws, is
    [R]-related to the world before.  With [R] a preorder this goes
    through sequencing and handlers, so a property of the few operations
    that write to the world carries over to every function of the
    server. *)

Section Stability.

Variable R : World -> World -> Prop.
Hypothesis R_refl : forall w, R w w.
Hypothesis R_trans : forall w1 w2 w3, R w1 w2 -> R w2 w3 -> R w1 w3.

Definition stable {A : Type} (m : M A) : Prop :=
  forall w, R w (snd (m w)).

Lemma stable_ret {A : Type} (a : A) : stable (ret a).
Proof. intro w. apply R_refl. Qed.

Lemma stable_throw {A : Type} (e : string) : stable (@throw A e).
Proof. intro w. apply R_refl. Qed.

Lemma stable_bind {A B : Type} (m : M A) (k : A -> M B) :
  stable m -> (forall a, stable (k a)) -> stable (bind m k).
Proof.
  intros Hm Hk w. unfold bind. specialize (Hm w).
  destruct (m w) as [[a | e] w']; simpl in *.
  - eapply R_trans; [exact Hm | apply Hk].
  - exact Hm.
Qed.

Lemma stable_try_catch {A : Type} (m : M A) (h : string -> M A) :
  stable m -> (forall e, stable (h e)) -> stable (try_catch m h).
Proof.
  intros Hm Hh w. unfold try_catch. specialize (Hm w).
  destruct (m w) as [[a | e] w']; simpl in *.
  - exact Hm.
  - eapply R_trans; [exact Hm | apply Hh].
Qed.

Lemma stable_attempt {A : Type} (m : M A) : stable m -> stable (attempt m).
Proof.
  intros Hm w. unfold attempt. specialize (Hm w).
  destruct (m w) as [r w']; exact Hm.
Qed.

Lemma stable_getSession : stable getSession.
Proof. intro w. apply R_refl. Qed.

Lemma stable_Date_now : stable Date_now.
Proof. intro w. apply R_refl. Qed.

Lemma stable_getE (v : jsval) (k : string) : stable (getE v k).
Proof. destruct v; intro w; apply R_refl. Qed.

Lemma stable_Object_keys (v : jsval) : stable (Object_keys v).
Proof. unfold Object_keys. destruct (nullish v); intro w; apply R_refl. Qed.

Lemma stable_for_each (f : jsval -> M unit) (items : list jsval) :
  (forall x, stable (f x)) -> stable (for_each f items).
Proof.
  intro Hf. induction items as [| x rest IH]; simpl.
  - apply stable_ret.
  - apply stable_bind; [apply Hf | intros _; exact IH].
Qed.

Lemma stable_js_map (callee : string) (v : jsval) (f : jsval -> M unit) :
  (forall x, stable (f x)) -> stable (js_map callee v f).
Proof.
  intro Hf. destruct v; simpl;
    try apply stable_throw. apply stable_for_each, Hf.
Qed.

Lemma stable_safeJson (res : Response) (label : string) :
  stable (safeJson res label).
Proof.
  unfold safeJson.
  destruct (JSON_parse (body res)); [apply stable_ret |].
  destruct variant; [| apply stable_throw].
  destruct (startsWith _ _); [apply stable_throw |].
  destruct (salvage _ _); apply stable_ret.
Qed.

(** The operations that write to the world. *)
Hypothesis R_fetch : forall rq, stable (fetch rq).
Hypothesis R_captureCookies : forall res, stable (captureCookies res).
Hypothesis R_clearCookies : stable clearCookies.
Hypothesis R_userId : forall v, stable (update (set_userId v)).
Hypothesis R_plantId : forall v, stable (update (set_plantId v)).
Hypothesis R_plantName : forall v, stable (update (set_plantName v)).
Hypothesis R_deviceSn : forall v, stable (update (set_deviceSn v)).
Hypothesis R_stampLogin : stable stampLogin.
Hypothesis R_invalidate : stable (update (set_lastLogin None)).
Hypothesis R_EvLogin : stable (record EvLogin).
Hypothesis R_EvInvoke : stable (record EvInvoke).

Ltac stable_step :=
  first
    [ apply stable_ret | apply stable_throw | apply stable_getSession
    | apply stable_Date_now | apply stable_getE | apply stable_Object_keys
    | apply stable_safeJson
    | apply R_fetch | apply R_captureCookies | apply R_clearCookies
    | apply R_userId | apply R_plantId | apply R_plantName
    | apply R_deviceSn | apply R_stampLogin | apply R_invalidate
    | apply R_EvLogin | apply R_EvInvoke
    | assumption
    | apply stable_js_map; intros
    | apply stable_attempt
    | apply stable_bind; [| intros]
    | apply stable_try_catch; [| intros]
    | match goal with
      | |- stable (if ?b then _ else _) => destruct b
      | |- stable (match ?x with _ => _ end) => destruct x
      end
    | progress cbv zeta ].

Ltac stable_auto := repeat stable_step.

Lemma stable_growattFetch (ep : Endpoint) : stable (growattFetch ep).
Proof. unfold growattFetch. stable_auto. Qed.

Lemma stable_fetch_json (ep : Endpoint) (label : string) :
  stable (fetch_json ep label).
Proof.
  unfold fetch_json.
  repeat first [apply stable_growattFetch | stable_step].
Qed.

Lemma stable_discoverDevices : stable discoverDevices.
Proof.
  unfold discoverDevices.
  repeat first [apply stable_fetch_json | stable_step].
Qed.

Lemma stable_login_with (username password : string) :
  stable (login_with username password).
Proof.
  unfold login_with.
  repeat first [apply stable_discoverDevices | stable_step].
Qed.

Lemma stable_login : stable login.
Proof.
  unfold login.
  repeat first [apply stable_login_with | stable_step].
Qed.

Lemma stable_ensureSession : stable ensureSession.
Proof.
  unfold ensureSession.
  repeat first [apply stable_login | stable_step].
Qed.

Lemma stable_invoke {A : Type} (fn : M A) : stable fn -> stable (invoke fn).
Proof. intro H. unfold invoke. stable_auto. Qed.

Lemma stable_withSessionRetry {A : Type} (fn : M A) :
  stable fn -> stable (withSessionRetry fn).
Proof.
  intro H. unfold withSessionRetry.
  repeat first
    [apply stable_ensureSession | apply stable_invoke | stable_step].
Qed.

Lemma stable_source (ep : Endpoint) (label : string) :
  stable (source ep label).
Proof.
  unfold source, guarded_source, plain_source.
  repeat first [apply stable_fetch_json | stable_step].
Qed.

Lemma stable_getStorageData : stable getStorageData.
Proof.
  unfold getStorageData.
  repeat first [apply stable_source | stable_step].
Qed.

Lemma stable_getPlantDetail : stable getPlantDetail.
Proof.
  unfold getPlantDetail.
  repeat first [apply stable_fetch_json | stable_step].
Qed.

Lemma stable_storage_or_empty : stable storage_or_empty.
Proof.
  unfold storage_or_empty.
  repeat first
    [apply stable_withSessionRetry, stable_getStorageData | stable_step].
Qed.

Lemma stable_plant_or_error : stable plant_or_error.
Proof.
  unfold plant_or_error.
  repeat first
    [apply stable_withSessionRetry, stable_getPlantDetail | stable_step].
Qed.

Hypothesis R_lastData : forall d, stable (update (set_lastData d)).
Hypothesis R_lastFetch : forall t, stable (update (set_lastFetch t)).

Lemma stable_refresh : stable refresh.
Proof.
  unfold refresh.
  repeat first
    [ apply stable_ensureSession | apply stable_storage_or_empty
    | apply stable_plant_or_error | apply R_lastData | apply R_lastFetch
    | stable_step ].
Qed.

Lemma stable_api_data (w : World) : R w (snd (api_data w)).
Proof.
  unfold api_data. destruct (fresh_snapshot w); [apply R_refl |].
  pose proof (stable_refresh w) as H.
  destruct (refresh w) as [[d | e] w']; simpl in *; [exact H |].
  destruct (indicates_login_problem e); [| exact H].
  eapply R_trans; [exact H | apply (R_invalidate w')].
Qed.

Lemma stable_api_connect (w : World) : R w (snd (api_connect w)).
Proof.
  unfold api_connect. pose proof (stable_login w) as H.
  destruct (login w) as [[info | e] w']; exact H.
Qed.

End Stability.

(** ** Reading the history *)

Lemma fetch_world (rq : Request) (w : World) :
  snd (fetch rq w) = after_fetch rq w.
Proof.
  unfold fetch, after_fetch.
  destruct (upstream (trace w) (now w) rq) as [latency [e | res]];
    reflexivity.
Qed.

Lemma logins_noted (ev : Event) (w : World) :
  logins (noted ev w) = logins w + (if is_login ev then 1 else 0).
Proof.
  unfold logins, noted; simpl. rewrite filter_app, length_app; simpl.
  destruct (is_login ev); reflexivity.
Qed.

Lemma invocations_noted (ev : Event) (w : World) :
  invocations (noted ev w) = invocations w + (if is_invoke ev then 1 else 0).
Proof.
  unfold invocations, noted; simpl. rewrite filter_app, length_app; simpl.
  destruct (is_invoke ev); reflexivity.
Qed.

(** *** Logins are counted at the entry of [login] only *)

Lemma same_logins_fetch (rq : Request) : stable same_logins (fetch rq).
Proof.
  intro w. rewrite fetch_world. unfold same_logins, logins, after_fetch.
  simpl. rewrite filter_app, length_app. simpl. lia.
Qed.

Lemma login_with_same_logins (username password : string) :
  stable same_logins (login_with username password).
Proof.
  apply stable_login_with; unfold same_logins;
    try (intros; congruence);
    try (intros; intro; reflexivity).
  apply same_logins_fetch.
Qed.

Lemma login_counts_once (w : World) : logins (snd (login w)) = logins w + 1.
Proof.
  unfold login, bind, record. fold (noted EvLogin w).
  assert (H : logins (noted EvLogin w) = logins w + 1)
    by (rewrite logins_noted; reflexivity).
  destruct GROWATT_USERNAME as [username |];
    [destruct GROWATT_PASSWORD as [password |] |]; simpl; try exact H.
  destruct (String.eqb username "" || String.eqb password ""); simpl;
    [exact H |].
  rewrite <- H. apply login_with_same_logins.
Qed.

(** *** Invocations are counted by [withSessionRetry] only *)

Lemma same_invocations_fetch (rq : Request) :
  stable same_invocations (fetch rq).
Proof.
  intro w. rewrite fetch_world.
  unfold same_invocations, invocations, after_fetch.
  simpl. rewrite filter_app, length_app. simpl. lia.
Qed.

Lemma ensureSession_same_invocations : stable same_invocations ensureSession.
Proof.
  apply stable_ensureSession; unfold same_invocations;
    try (intros; congruence);
    try (intros; intro; reflexivity).
  - apply same_invocations_fetch.
  - intro w. unfold record; simpl. fold (noted EvLogin w).
    rewrite invocations_noted. simpl. lia.
Qed.

(** ** The session guard *)

Lemma login_needed_iff (w : World) :
  well_formed (session w) ->
  login_needed (session w) (now w) = true <-> session_expired w.
Proof.
  intros [Hc Hl]. unfold login_needed, cookie_to_send, session_expired.
  destruct (cookies (session w)) as [c |].
  - destruct (String.eqb_spec c "") as [-> | Hne]; [congruence |].
    destruct (lastLogin (session w)) as [t0 |].
    + destruct (Z.eqb_spec t0 0) as [-> | H0]; [congruence |]. simpl.
      change SESSION_TTL with (30 * 60 * 1000)%Z.
      rewrite Z.gtb_ltb, Z.ltb_lt. split.
      * intro H. right; right. exists t0. split; [reflexivity | lia].
      * intros [H | [H | [t1 [H1 H2]]]]; try discriminate.
        injection H1 as <-. lia.
    + split; [intros _; right; left; reflexivity | reflexivity].
  - split; [intros _; left; reflexivity | reflexivity].
Qed.

(** C7.  On a well-formed session, [ensureSession] calls [login], once,
    exactly when the cookies are absent, or there is no login time, or
    the login is more than thirty minutes old; then it ends as [login]
    does.  Otherwise it returns at once and leaves the world, history
    included, as it was: no login and no request. *)
Theorem ensureSession_logs_in_iff_expired (w : World) :
  well_formed (session w) ->
  (session_expired w ->
     logins (snd (ensureSession w)) = logins w + 1 /\
     snd (ensureSession w) = snd (login w) /\
     (forall e, fst (ensureSession w) = Throw e <-> fst (login w) = Throw e))
  /\
  (~ session_expired w ->
     ensureSession w = (Ok tt, w) /\
     logins (snd (ensureSession w)) = logins w).
Proof.
  intro Hwf. pose proof (login_needed_iff w Hwf) as Hiff.
  unfold ensureSession, bind, getSession, Date_now, ret.
  destruct (login_needed (session w) (now w)).
  - split.
    + intros _. pose proof (login_counts_once w) as Hcount.
      destruct (login w) as [[info | e] w']; simpl in *.
      * repeat split; try assumption; intro H; discriminate.
      * repeat split; try assumption; intro H; injection H as ->; reflexivity.
    + intro Hn. exfalso. apply Hn, Hiff. reflexivity.
  - split.
    + intro He. apply Hiff in He. discriminate.
    + intros _. split; reflexivity.
Qed.

(** ** The retry wrapper *)

Lemma invoke_counts {A : Type} (fn : M A) (w : World) :
  neutral fn ->
  invoke fn w = fn (noted EvInvoke w) /\
  invocations (snd (invoke fn w)) = invocations w + 1.
Proof.
  intro Hn. unfold invoke, bind, record. fold (noted EvInvoke w).
  split; [reflexivity |].
  rewrite Hn, invocations_noted. reflexivity.
Qed.

(** C6.  [withSessionRetry fn] invokes [fn] once; if that invocation
    returns, so does the wrapper; if it throws an error that does not ask
    for a new login, the error propagates and [fn] is not invoked again;
    if it throws one that does, [lastLogin] is cleared and
    [ensureSession] runs, after which [fn] is invoked once more and
    whatever it does is the outcome (a failure of [ensureSession]
    propagates instead).  In every case [fn] is invoked at most twice,
    and an [fn] that always asks for a new login makes the wrapper
    throw after at most two invocations. *)
Theorem withSessionRetry_retries_once {A : Type} (fn : M A) (w : World) :
  neutral fn ->
  invocations (snd (withSessionRetry fn w)) <= invocations w + 2
  /\
  match fn (noted EvInvoke w) with
  | (Ok a, w1) =>
      withSessionRetry fn w = (Ok a, w1) /\
      invocations w1 = invocations w + 1
  | (Throw e, w1) =>
      if retryable e then
        match ensureSession (with_session (set_lastLogin None) w1) with
        | (Ok _, w2) =>
            withSessionRetry fn w = fn (noted EvInvoke w2) /\
            invocations (snd (withSessionRetry fn w)) = invocations w + 2
        | (Throw e', w2) =>
            withSessionRetry fn w = (Throw e', w2) /\
            invocations w2 = invocations w + 1
        end
      else
        withSessionRetry fn w = (Throw e, w1) /\
        invocations w1 = invocations w + 1
  end
  /\
  (always_expired fn ->
   exists e, fst (withSessionRetry fn w) = Throw e /\
             invocations (snd (withSessionRetry fn w)) <= invocations w + 2).
Proof.
  intro Hn.
  assert (Hcase :
    match fn (noted EvInvoke w) with
    | (Ok a, w1) =>
        withSessionRetry fn w = (Ok a, w1) /\
        invocations w1 = invocations w + 1
    | (Throw e, w1) =>
        if retryable e then
          match ensureSession (with_session (set_lastLogin None) w1) with
          | (Ok _, w2) =>
              withSessionRetry fn w = fn (noted EvInvoke w2) /\
              invocations (snd (withSessionRetry fn w)) = invocations w + 2
          | (Throw e', w2) =>
              withSessionRetry fn w = (Throw e', w2) /\
              invocations w2 = invocations w + 1
          end
        else
          withSessionRetry fn w = (Throw e, w1) /\
          invocations w1 = invocations w + 1
    end).
  { destruct (invoke_counts fn w Hn) as [Hrun Hcount].
    unfold withSessionRetry, try_catch. rewrite Hrun.
    rewrite Hrun in Hcount.
    destruct (fn (noted EvInvoke w)) as [[a | e] w1] eqn:E1; simpl in Hcount.
    - split; [reflexivity | exact Hcount].
    - destruct (retryable e); [| split; [reflexivity | exact Hcount]].
      assert (Hk :
        (update (set_lastLogin None) ;;; ensureSession ;;; invoke fn) w1 =
        match ensureSession (with_session (set_lastLogin None) w1) with
        | (Ok _, w2) => fn (noted EvInvoke w2)
        | (Throw e', w2) => (Throw e', w2)
        end).
      { unfold bind, update.
        destruct (ensureSession (with_session (set_lastLogin None) w1))
          as [[[] | e'] w2]; reflexivity. }
      rewrite Hk.
      pose proof (ensureSession_same_invocations
                    (with_session (set_lastLogin None) w1)) as Hs.
      unfold same_invocations in Hs.
      destruct (ensureSession (with_session (set_lastLogin None) w1))
        as [[[] | e'] w2] eqn:E2; simpl in Hs.
      + split; [reflexivity |].
        rewrite Hn, invocations_noted, Hs. simpl.
        unfold invocations, with_session; simpl.
        unfold invocations in Hcount. rewrite Hcount. lia.
      + split; [reflexivity |].
        rewrite Hs. unfold invocations, with_session; simpl.
        exact Hcount. }
  split; [| split; [exact Hcase |]].
  - destruct (fn (noted EvInvoke w)) as [[a | e] w1].
    + destruct Hcase as [-> H]. simpl. lia.
    + destruct (retryable e).
      * destruct (ensureSession (with_session (set_lastLogin None) w1))
          as [[[] | e'] w2].
        -- destruct Hcase as [_ H]. lia.
        -- destruct Hcase as [-> H]. simpl. lia.
      * destruct Hcase as [-> H]. simpl. lia.
  - intro Hall.
    destruct (Hall (noted EvInvoke w)) as [e [w1 [E1 Hr]]].
    rewrite E1, Hr in Hcase.
    destruct (ensureSession (with_session (set_lastLogin None) w1))
      as [[[] | e'] w2].
    + destruct Hcase as [Heq Hcount].
      destruct (Hall (noted EvInvoke w2)) as [e2 [w3 [E2 _]]].
      exists e2. rewrite Hcount. rewrite Heq, E2. split; [reflexivity | lia].
    + destruct Hcase as [-> Hcount]. exists e'. simpl.
      split; [reflexivity | lia].
Qed.

(** ** The credential hash *)

Lemma string_app_assoc (a b c : string) : ((a ++ b) ++ c = a ++ (b ++ c))%string.
Proof. induction a as [| x a IH]; simpl; [reflexivity | now rewrite IH]. Qed.

Lemma string_app_nil_r (a : string) : (a ++ "" = a)%string.
Proof. induction a as [| x a IH]; simpl; [reflexivity | now rewrite IH]. Qed.

Lemma string_length_app (a b : string) :
  String.length (a ++ b) = String.length a + String.length b.
Proof. induction a as [| x a IH]; simpl; [reflexivity | now rewrite IH]. Qed.

Lemma get_app_at (pre s : string) :
  String.get (String.length pre) (pre ++ s) = String.get 0 s.
Proof. induction pre as [| x pre IH]; simpl; [reflexivity | exact IH]. Qed.

Lemma substring_all (s : string) : substring 0 (String.length s) s = s.
Proof. induction s as [| x s IH]; simpl; [reflexivity | now rewrite IH]. Qed.

Lemma substring_to_app (pre s : string) :
  substring_to (pre ++ s) (String.length pre) = pre.
Proof.
  unfold substring_to. induction pre as [| x pre IH]; simpl.
  - destruct s; reflexivity.
  - now rewrite IH.
Qed.

Lemma substring_from_app (pre : string) (ch : ascii) (s : string) :
  substring_from (pre ++ String ch s) (String.length pre + 1) = s.
Proof.
  unfold substring_from. induction pre as [| x pre IH]; simpl.
  - rewrite Nat.sub_0_r. apply substring_all.
  - exact IH.
Qed.

Lemma replace_even_zeros_SS (s : string) (i : nat) :
  replace_even_zeros (S (S i)) s = replace_even_zeros i s.
Proof.
  revert i. induction s as [| ch s IH]; intro i; simpl; [reflexivity |].
  now rewrite IH.
Qed.

Lemma growattHash_loop_beyond (fuel i : nat) (hash : string) :
  String.length hash <= i -> growattHash_loop fuel i hash = hash.
Proof.
  intro H. destruct fuel; simpl; [reflexivity |].
  destruct (Nat.ltb_spec i (String.length hash)); [lia | reflexivity].
Qed.

(** The loop, started at the even index where [pre] ends, rewrites the
    rest of the text and leaves [pre] alone. *)
Lemma growattHash_loop_spec (fuel : nat) :
  forall pre s : string,
    String.length s <= 2 * fuel ->
    growattHash_loop fuel (String.length pre) (pre ++ s)
    = (pre ++ replace_even_zeros 0 s)%string.
Proof.
  induction fuel as [| fuel IH]; intros pre s Hlen.
  - destruct s; [reflexivity | simpl in Hlen; lia].
  - destruct s as [| a s1].
    + simpl replace_even_zeros. apply growattHash_loop_beyond.
      rewrite string_length_app. simpl. lia.
    + cbn [growattHash_loop].
      destruct (Nat.ltb_spec (String.length pre)
                  (String.length (pre ++ String a s1))) as [_ | Hge];
        [| rewrite string_length_app in Hge; simpl in Hge; lia].
      rewrite get_app_at. cbn [String.get].
      set (a' := if Ascii.eqb a "0" then "c"%char else a).
      assert (Hhash :
        (if Ascii.eqb a "0"
         then (substring_to (pre ++ String a s1) (String.length pre)
               ++ "c" ++ substring_from (pre ++ String a s1)
                           (String.length pre + 1))%string
         else (pre ++ String a s1)%string)
        = (pre ++ String a' s1)%string).
      { subst a'. destruct (Ascii.eqb a "0"); [| reflexivity].
        now rewrite substring_to_app, substring_from_app. }
      rewrite Hhash. cbn [replace_even_zeros Nat.even andb]. fold a'.
      destruct s1 as [| b s2].
      * apply growattHash_loop_beyond. rewrite string_length_app. simpl. lia.
      * replace (pre ++ String a' (String b s2))%string
          with ((pre ++ String a' (String b "")) ++ s2)%string
          by (rewrite string_app_assoc; reflexivity).
        replace (String.length pre + 2)
          with (String.length (pre ++ String a' (String b "")))
          by (rewrite string_length_app; reflexivity).
        rewrite IH by (simpl in Hlen; lia).
        rewrite string_app_assoc. cbn [replace_even_zeros Nat.even andb].
        simpl. now rewrite replace_even_zeros_SS.
Qed.

Lemma growattHash_loop_whole (h : string) :
  growattHash_loop (String.length h) 0 h = replace_even_zeros 0 h.
Proof.
  apply (growattHash_loop_spec (String.length h) "" h). lia.
Qed.

Lemma replace_even_zeros_length (s : string) (i : nat) :
  String.length (replace_even_zeros i s) = String.length s.
Proof.
  revert i. induction s as [| ch s IH]; intro i; simpl;
    [reflexivity | now rewrite IH].
Qed.

Lemma replace_even_zeros_get (s : string) (i j : nat) :
  String.get j (replace_even_zeros i s)
  = option_map
      (fun ch => if Nat.even (i + j) && Ascii.eqb ch "0" then "c"%char else ch)
      (String.get j s).
Proof.
  revert i j. induction s as [| ch s IH]; intros i j; simpl;
    [reflexivity |].
  destruct j as [| j]; simpl.
  - now rewrite Nat.add_0_r.
  - rewrite IH. simpl. now rewrite Nat.add_succ_r.
Qed.

Lemma text_length (l : list N) : String.length (text l) = List.length l.
Proof.
  unfold text. induction l as [| c l IH]; simpl; [reflexivity | now rewrite IH].
Qed.

Lemma codes_text (l : list N) :
  Forall (fun c => (c < 256)%N) l -> codes (text l) = l.
Proof.
  unfold codes, text. induction 1 as [| c l Hc _ IH]; simpl;
    [reflexivity |].
  rewrite IH. now rewrite N_ascii_embedding.
Qed.

Lemma le_bytes_length (count : nat) (x : N) :
  List.length (MD5.le_bytes count x) = count.
Proof. unfold MD5.le_bytes. now rewrite length_map, length_seq. Qed.

Lemma le_bytes_small (count : nat) (x : N) :
  Forall (fun b => (b < 256)%N) (MD5.le_bytes count x).
Proof.
  unfold MD5.le_bytes. apply Forall_map, Forall_forall. intros i _.
  apply N.mod_lt. discriminate.
Qed.

Lemma hex_digit_lowercase (d : N) : (d < 16)%N -> lowercase_hex (hex_digit d).
Proof.
  intro H. unfold lowercase_hex, hex_digit.
  destruct (N.ltb_spec d 10); lia.
Qed.

Lemma hex_of_bytes_spec (bytes : list N) :
  Forall (fun b => (b < 256)%N) bytes ->
  List.length (MD5.hex_of_bytes bytes) = 2 * List.length bytes /\
  Forall lowercase_hex (MD5.hex_of_bytes bytes).
Proof.
  unfold MD5.hex_of_bytes. induction 1 as [| b l Hb _ [IHl IHf]]; simpl.
  - split; [reflexivity | constructor].
  - split; [rewrite IHl; lia |].
    constructor; [| constructor; [| exact IHf]]; apply hex_digit_lowercase.
    + apply N.Div0.div_lt_upper_bound. exact Hb.
    + apply N.mod_lt. discriminate.
Qed.

Lemma digest_spec (msg : list N) :
  List.length (MD5.digest msg) = 16 /\
  Forall (fun b => (b < 256)%N) (MD5.digest msg).
Proof.
  unfold MD5.digest.
  destruct (fold_left MD5.compress _ MD5.init) as [[[a b] c] d].
  split.
  - rewrite !length_app, !le_bytes_length. reflexivity.
  - repeat (apply Forall_app; split); apply le_bytes_small.
Qed.

Lemma lowercase_hex_small (l : list N) :
  Forall lowercase_hex l -> Forall (fun c => (c < 256)%N) l.
Proof.
  apply Forall_impl. unfold lowercase_hex. intros c H. lia.
Qed.

(** C8.  [growattHash] returns the MD5 digest of the password in
    lowercase hexadecimal (32 characters) with every ['0'] at an even
    index replaced by ['c']: no even index holds ['0'], and the odd
    indices hold what the digest holds there.  It is a function of the
    password alone. *)
Theorem growattHash_replaces_even_zeros (password : string) :
  growattHash password = replace_even_zeros 0 (MD5.md5_hex password)
  /\ String.length (MD5.md5_hex password) = 32
  /\ Forall lowercase_hex (codes (MD5.md5_hex password))
  /\ String.length (growattHash password) = 32
  /\ (forall i, Nat.even i = true ->
        String.get i (growattHash password) <> Some "0"%char)
  /\ (forall i, Nat.odd i = true ->
        String.get i (growattHash password)
        = String.get i (MD5.md5_hex password))
  /\ (forall password', password' = password ->
        growattHash password' = growattHash password).
Proof.
  assert (Heq : growattHash password
                = replace_even_zeros 0 (MD5.md5_hex password))
    by apply growattHash_loop_whole.
  destruct (digest_spec (codes password)) as [Hlen Hsmall].
  destruct (hex_of_bytes_spec _ Hsmall) as [Hhexlen Hhex].
  assert (H32 : String.length (MD5.md5_hex password) = 32).
  { unfold MD5.md5_hex. rewrite text_length, Hhexlen, Hlen. reflexivity. }
  split; [exact Heq |]. split; [exact H32 |]. split.
  { unfold MD5.md5_hex. rewrite codes_text; [exact Hhex |].
    apply lowercase_hex_small, Hhex. }
  split; [rewrite Heq, replace_even_zeros_length; exact H32 |].
  split; [| split].
  - intros i Hi. rewrite Heq, replace_even_zeros_get. simpl. rewrite Hi.
    destruct (String.get i (MD5.md5_hex password)) as [ch |]; simpl;
      [| discriminate].
    destruct (Ascii.eqb_spec ch "0") as [-> | Hne]; simpl.
    + discriminate.
    + intro H. injection H as ->. now apply Hne.
  - intros i Hi. rewrite Heq, replace_even_zeros_get. simpl.
    rewrite <- Nat.negb_odd, Hi. simpl.
    destruct (String.get i (MD5.md5_hex password)); reflexivity.
  - intros password' ->. reflexivity.
Qed.

(** ** The numeric coalesce *)

Lemma pf_find (vals : list jsval) :
  pf vals = match find usable vals with
            | Some v => parseFloat v
            | None => zero
            end.
Proof.
  induction vals as [| v rest IH]; simpl; [reflexivity |].
  unfold usable at 1. destruct (negb _ && negb _); [reflexivity | exact IH].
Qed.

Lemma find_first {A : Type} (f : A -> bool) (pre : list A) (x : A)
  (post : list A) :
  Forall (fun y => f y = false) pre -> f x = true ->
  find f (pre ++ x :: post) = Some x.
Proof.
  induction 1 as [| y pre Hy _ IH]; intro Hx; simpl.
  - now rewrite Hx.
  - rewrite Hy. now apply IH.
Qed.

Lemma find_nothing {A : Type} (f : A -> bool) (l : list A) :
  Forall (fun y => f y = false) l -> find f l = None.
Proof.
  induction 1 as [| y l Hy _ IH]; simpl; [reflexivity |].
  now rewrite Hy.
Qed.


(** ** Tolerant JSON parsing *)

Lemma first_parse_app (a b : list string) :
  first_parse (a ++ b) = match first_parse a with
                         | Some v => Some v
                         | None => first_parse b
                         end.
Proof.
  induction a as [| t a IH]; simpl; [reflexivity |].
  destruct (JSON_parse t); [reflexivity | exact IH].
Qed.

Lemma try_endings_first_parse (current : string) (es : list string) :
  try_endings current es
  = first_parse (map (fun ending => (current ++ ending)%string) es).
Proof.
  induction es as [| e es IH]; simpl; [reflexivity |].
  destruct (JSON_parse (current ++ e)); [reflexivity | exact IH].
Qed.

Lemma salvage_first_parse (rounds : nat) (text : string) :
  salvage rounds text = first_parse (salvage_candidates rounds text).
Proof.
  revert text. induction rounds as [| rounds IH]; intro text;
    [reflexivity |].
  unfold salvage_candidates. cbn [salvage truncations].
  destruct (lastIndexOf text ","%char) as [i |]; [| reflexivity].
  cbn [flat_map]. rewrite first_parse_app, <- try_endings_first_parse.
  destruct (try_endings (substring_to text i) endings); [reflexivity |].
  apply IH.
Qed.

Lemma includes_prefix (s sub : string) :
  prefix sub s = true -> includes s sub = true.
Proof. intro H. destruct s; cbn [includes]; rewrite H; reflexivity. Qed.

(** Trimming does not remove a leading [<]. *)

Lemma strip_prefix_shorter (x : N) (p l : list N) :
  ~ In x p -> starts_with_codes (l ++ [x]) p = true ->
  List.length p <= List.length l.
Proof.
  unfold starts_with_codes. revert l.
  induction p as [| a p IH]; intros l Hx H; simpl; [lia |].
  destruct l as [| b l]; simpl in H.
  - destruct (N.eqb_spec a x) as [-> | _]; [| discriminate].
    exfalso. apply Hx. now left.
  - destruct (a =? b)%N; [| discriminate].
    simpl. apply le_n_S, IH; [| exact H].
    intro Hin. apply Hx. now right.
Qed.

Lemma ws_length_rev_within (l : list N) :
  ws_length_rev (l ++ [60%N]) <= List.length l.
Proof.
  unfold ws_length_rev, match_length.
  destruct (find _ _) as [p |] eqn:F; [| lia].
  apply find_some in F as [Hin Hp].
  apply (strip_prefix_shorter 60%N); [| exact Hp].
  assert (Hall : forallb (fun q => negb (existsb (N.eqb 60) q))
                   (map (@rev N) white_space) = true) by reflexivity.
  rewrite forallb_forall in Hall. specialize (Hall p Hin).
  apply negb_true_iff in Hall. intro H60.
  assert (Hex : existsb (N.eqb 60) p = true)
    by (apply existsb_exists; exists 60%N; split;
        [exact H60 | apply N.eqb_refl]).
  congruence.
Qed.

Lemma trimEnd_rev_keeps (fuel : nat) (l : list N) :
  exists l', trimEnd_rev fuel (l ++ [60%N]) = (l' ++ [60%N])%list.
Proof.
  revert l. induction fuel as [| fuel IH]; intro l; cbn [trimEnd_rev].
  - now exists l.
  - pose proof (ws_length_rev_within l) as Hle.
    destruct (ws_length_rev (l ++ [60%N])) as [| n]; [now exists l |].
    rewrite skipn_app.
    replace (S n - List.length l) with 0 by lia.
    apply IH.
Qed.

Lemma trim_keeps_lt (s : string) :
  startsWith s "<" = true -> startsWith (trim s) "<" = true.
Proof.
  unfold startsWith. destruct s as [| ch rest]; cbn [prefix];
    [discriminate |].
  destruct (ascii_dec "<" ch) as [<- | _]; [| discriminate].
  intros _. unfold trim. cbn [String.length].
  change (trimStart_codes (S (String.length rest))
            (codes (String "<" rest)))
    with (60%N :: codes rest).
  cbn [rev].
  destruct (trimEnd_rev_keeps (S (String.length rest)) (rev (codes rest)))
    as [l' ->].
  rewrite rev_app_distr. cbn [rev app]. unfold text.
  cbn [map string_of_list_ascii].
  change (ascii_of_N 60) with "<"%char. cbn [prefix].
  destruct (ascii_dec "<" "<"); [| congruence].
  destruct (string_of_list_ascii _); reflexivity.
Qed.

(** C1, amended.  In the TypeScript listing, for a body that does not
    parse: if the body without its leading white space starts with [<],
    [safeJson] throws the error [session_expired: <label> returned HTML],
    which both [withSessionRetry] and the handler of [/api/data]
    recognise; otherwise it returns the value of the first text that
    parses among the truncations of the body at its last comma (at most
    ten, each shorter than the one before), each tried with the endings
    [}], [}}], [}}}], [}}}}], []}], []}}] in this order, and the empty
    object if none parses.  The world is left as it was. *)
Theorem safeJson_tolerant (res : Response) (label : string) (w : World) :
  variant = ServerTs ->
  JSON_parse (body res) = None ->
  (startsWith (trim (body res)) "<" = true ->
     safeJson res label w
     = (Throw ("session_expired: " ++ label ++ " returned HTML"), w) /\
     retryable ("session_expired: " ++ label ++ " returned HTML") = true /\
     indicates_login_problem
       ("session_expired: " ++ label ++ " returned HTML") = true)
  /\
  (startsWith (trim (body res)) "<" = false ->
     safeJson res label w
     = (Ok match first_parse (salvage_candidates 10 (body res)) with
           | Some v => v
           | None => empty_object
           end, w))
  /\
  (startsWith (body res) "<" = true ->
     startsWith (trim (body res)) "<" = true).
Proof.
  intros Hvariant Hparse. unfold safeJson. rewrite Hparse, Hvariant.
  split; [| split].
  - intro H. rewrite H. split; [reflexivity |].
    unfold retryable, indicates_login_problem. rewrite Hvariant.
    rewrite (includes_prefix _ "session_expired") by reflexivity.
    rewrite (includes_prefix _ "session") by reflexivity.
    rewrite !orb_true_r. split; reflexivity.
  - intro H. rewrite H, salvage_first_parse.
    destruct (first_parse _); reflexivity.
  - apply trim_keeps_lt.
Qed.

(** ** The cache gate *)

Lemma same_cache_refl (w : World) : same_cache w w.
Proof. split; reflexivity. Qed.

Lemma same_cache_trans (w1 w2 w3 : World) :
  same_cache w1 w2 -> same_cache w2 w3 -> same_cache w1 w3.
Proof. intros [A B] [C D]. split; congruence. Qed.

Lemma ensureSession_same_cache : stable same_cache ensureSession.
Proof.
  apply stable_ensureSession;
    try exact same_cache_refl; try exact same_cache_trans;
    try (intros; intro; split; reflexivity).
  intros rq w. rewrite fetch_world. split; reflexivity.
Qed.

(** The two [try] blocks of the handler never throw. *)
Lemma storage_or_empty_returns (w : World) :
  exists storageRaw, fst (storage_or_empty w) = Ok storageRaw.
Proof.
  unfold storage_or_empty, try_catch.
  destruct (withSessionRetry getStorageData w) as [[sr | e] w'];
    eexists; reflexivity.
Qed.

Lemma plant_or_error_returns (w : World) :
  exists plantDetail, fst (plant_or_error w) = Ok plantDetail.
Proof.
  unfold plant_or_error, try_catch.
  destruct (withSessionRetry getPlantDetail w) as [[pd | e] w'];
    eexists; reflexivity.
Qed.

(** The refresh, stage by stage. *)
Lemma refresh_run (w : World) :
  refresh w =
  match ensureSession w with
  | (Throw e, w1) => (Throw e, w1)
  | (Ok _, w1) =>
      match storage_or_empty w1 with
      | (Throw e, w2) => (Throw e, w2)
      | (Ok storageRaw, w2) =>
          match plant_or_error w2 with
          | (Throw e, w3) => (Throw e, w3)
          | (Ok plantDetail, w3) =>
              let d := normalize (session w3) (now w3) storageRaw
                         plantDetail in
              (Ok d, stored d w3)
          end
      end
  end.
Proof.
  unfold refresh, bind.
  destruct (ensureSession w) as [[[] | e] w1]; [| reflexivity].
  destruct (storage_or_empty w1) as [[sr | e] w2]; [| reflexivity].
  destruct (plant_or_error w2) as [[pd | e] w3]; reflexivity.
Qed.

(** A refresh throws only what [ensureSession] throws. *)
Lemma refresh_throws (w : World) (e : string) (w1 : World) :
  refresh w = (Throw e, w1) <-> ensureSession w = (Throw e, w1).
Proof.
  rewrite refresh_run.
  destruct (ensureSession w) as [[[] | e0] w0];
    [| split; intro H; injection H as -> ->; reflexivity].
  destruct (storage_or_empty_returns w0) as [sr Hsr].
  destruct (storage_or_empty w0) as [[sr' | e1] w2]; [| discriminate].
  destruct (plant_or_error_returns w2) as [pd Hpd].
  destruct (plant_or_error w2) as [[pd' | e2] w3]; [| discriminate].
  simpl. split; discriminate.
Qed.



(** ** Failing sources *)

(** C10.  On a cache miss with the session established, if both
    [withSessionRetry(getStorageData)] and
    [withSessionRetry(getPlantDetail)] throw, the handler of [/api/data]
    still answers with success, not cached, with a snapshot whose
    numeric fields are all 0; the snapshot is stored, and every request
    made less than 60 seconds later is answered with it, marked
    cached. *)
Theorem all_sources_fail_zero_snapshot
  (w w1 w2 w3 : World) (e1 e2 : string) :
  fresh_snapshot w = None ->
  ensureSession w = (Ok tt, w1) ->
  withSessionRetry getStorageData w1 = (Throw e1, w2) ->
  withSessionRetry getPlantDetail w2 = (Throw e2, w3) ->
  let d := normalize (session w3) (now w3) empty_storage
             (VObj [("error", VStr e2)]) in
  api_data w = (DataOk false d, stored d w3)
  /\ Forall (fun field => snd field = zero) (numeric_fields d)
  /\ lastData (session (stored d w3)) = Some d
  /\ lastFetch (session (stored d w3)) = now w3
  /\ (forall w',
        session w' = session (stored d w3) ->
        (now w' - now w3 < 60 * 1000)%Z ->
        api_data w' = (DataOk true d, w')).
Proof.
  intros Hmiss H1 H2 H3 d.
  split; [| split; [| split; [| split]]].
  - unfold api_data. rewrite Hmiss, refresh_run, H1.
    unfold storage_or_empty, plant_or_error, try_catch.
    rewrite H2. cbn [ret]. rewrite H3. reflexivity.
  - subst d. repeat constructor.
  - reflexivity.
  - reflexivity.
  - intros w' Hs Hage. unfold api_data, fresh_snapshot. rewrite Hs.
    cbn [stored with_session session set_lastFetch set_lastData lastData
         lastFetch].
    change DATA_CACHE_TTL with (60 * 1000)%Z.
    destruct (Z.ltb_spec (now w' - now w3) (60 * 1000)); [reflexivity | lia].
Qed.

Lemma pf_missing_last (v : jsval) : pf [v; VUndef] = pf [v].
Proof.
  cbn [pf]. destruct (negb _ && negb _); reflexivity.
Qed.

(** A source of the TypeScript listing fails only with a
    session-expired error; any other failure leaves [{}]. *)
Lemma guarded_source_run (ep : Endpoint) (label : string) (w : World) :
  variant = ServerTs ->
  source ep label w =
  match fetch_json ep label w with
  | (Ok x, w') => (Ok x, w')
  | (Throw e, w') =>
      if includes e "session_expired" then (Throw e, w')
      else (Ok empty_object, w')
  end.
Proof.
  intro Hv. unfold source, guarded_source, bind, attempt. rewrite Hv.
  destruct (fetch_json ep label w) as [[x | e] w']; simpl.
  - unfold try_catch, bind, Object_keys.
    destruct (nullish x); reflexivity.
  - destruct (includes e "session_expired"); reflexivity.
Qed.

(** A source of the older listing fails whenever its request or its
    parsing fails. *)
Lemma plain_source_run (ep : Endpoint) (label : string) (w : World) :
  variant = ServerJs ->
  forall e w', fetch_json ep label w = (Throw e, w') ->
  source ep label w = (Throw e, w').
Proof.
  intros Hv e w' H. unfold source, plain_source, bind. rewrite Hv, H.
  reflexivity.
Qed.



(** ** Reachable states *)

Lemma keeps_refl (P : World -> Prop) (w : World) : keeps P w w.
Proof. intro H. exact H. Qed.

Lemma keeps_trans (P : World -> Prop) (w1 w2 w3 : World) :
  keeps P w1 w2 -> keeps P w2 w3 -> keeps P w1 w3.
Proof. unfold keeps. auto. Qed.

(** Only [captureCookies] and [clearCookies] write the cookies, and both
    write the jar with them. *)
Ltac keeps_jar :=
  first
    [ exact (keeps_refl jar_consistent)
    | exact (keeps_trans jar_consistent)
    | intros; intro; rewrite ?fetch_world; unfold keeps, jar_consistent;
      simpl; auto ].

Lemma join_not_empty (sep x : string) (xs : list string) :
  x <> "" -> join sep (x :: xs) <> "".
Proof.
  intros Hx H. destruct xs as [| y ys]; cbn [join] in H.
  - contradiction.
  - destruct x; [contradiction | discriminate H].
Qed.

Lemma header_of_jar (jar : list (string * string)) :
  cookie_header jar = None <-> jar = [].
Proof.
  split; [| intros ->; reflexivity].
  unfold cookie_header. destruct jar as [| [k v] rest]; [reflexivity |].
  cbn [map fst snd].
  destruct (String.eqb_spec
              (join "; " ((k ++ "=" ++ v)
                          :: map (fun kv => fst kv ++ "=" ++ snd kv) rest))
              "") as [E | _]; [| discriminate].
  exfalso. revert E. apply join_not_empty.
  destruct k; discriminate.
Qed.

Lemma header_not_empty (jar : list (string * string)) :
  cookie_header jar <> Some "".
Proof.
  unfold cookie_header.
  destruct (String.eqb_spec (join "; " (map (fun kv => fst kv ++ "=" ++ snd kv) jar)) "")
    as [E | Hne]; [discriminate |].
  intro H. injection H as H. contradiction.
Qed.

Ltac keeps_sound :=
  first
    [ exact (keeps_refl sound)
    | exact (keeps_trans sound)
    | intros; intro; rewrite ?fetch_world;
      unfold keeps, sound, well_formed, stampLogin, bind, Date_now, update;
      simpl; intros [Hnow [Hc Hl]];
      repeat split;
      first [ assumption | lia | discriminate | apply header_not_empty
            | let H := fresh in intro H; injection H; lia ] ].

Lemma reachable_invariants (w : World) :
  reachable w -> jar_consistent w /\ sound w.
Proof.
  induction 1 as [t Ht | dt w _ [IHj IHs] | w _ [IHj IHs] | w _ [IHj IHs]
                 | w _ [IHj IHs] | w _ [IHj IHs] | w _ [IHj IHs]
                 | w _ [IHj IHs]].
  - split; [reflexivity |]. split; [exact Ht |]. split; discriminate.
  - split; [exact IHj |]. destruct IHs as [Hnow Hwf].
    split; [simpl; lia | exact Hwf].
  - split.
    + apply (stable_api_connect (keeps jar_consistent)); try keeps_jar.
      exact IHj.
    + apply (stable_api_connect (keeps sound)); try keeps_sound.
      exact IHs.
  - split.
    + apply (stable_api_data (keeps jar_consistent)); try keeps_jar.
      exact IHj.
    + apply (stable_api_data (keeps sound)); try keeps_sound.
      exact IHs.
  - split.
    + apply (stable_ensureSession (keeps jar_consistent)); try keeps_jar.
      exact IHj.
    + apply (stable_ensureSession (keeps sound)); try keeps_sound.
      exact IHs.
  - split.
    + apply (stable_getStorageData (keeps jar_consistent)); try keeps_jar.
      exact IHj.
    + apply (stable_getStorageData (keeps sound)); try keeps_sound.
      exact IHs.
  - split.
    + apply (stable_getPlantDetail (keeps jar_consistent)); try keeps_jar.
      exact IHj.
    + apply (stable_getPlantDetail (keeps sound)); try keeps_sound.
      exact IHs.
  - split.
    + apply (stable_discoverDevices (keeps jar_consistent)); try keeps_jar.
      exact IHj.
    + apply (stable_discoverDevices (keeps sound)); try keeps_sound.
      exact IHs.
Qed.

(** Every reachable session is well formed, as C7 asks. *)
Lemma reachable_well_formed (w : World) :
  reachable w -> well_formed (session w).
Proof. intro H. apply reachable_invariants in H as [_ [_ Hwf]]. exact Hwf. Qed.

(** C9, amended.  In every reachable state the cookie header of the
    session is the one built from the cookie jar: it is null exactly
    when the jar is empty.  So a non-null [lastLogin] comes with
    non-null cookies whenever the jar holds a cookie, that is, whenever
    a response has set one since [login] last cleared the jar. *)
Theorem cookies_follow_the_jar (w : World) :
  reachable w ->
  cookies (session w) = cookie_header (cookieJar w)
  /\ (cookies (session w) = None <-> cookieJar w = [])
  /\ (lastLogin (session w) <> None -> cookieJar w <> [] ->
      cookies (session w) <> None).
Proof.
  intro H. apply reachable_invariants in H as [Hj _].
  unfold jar_consistent in Hj.
  split; [exact Hj |]. rewrite Hj. split; [apply header_of_jar |].
  intros _ Hjar Hnone. apply Hjar, header_of_jar, Hnone.
Qed.

(* ================================================================== *)
(** * Further properties of the server *)
(* ================================================================== *)

(** ** How much a computation adds to the history *)

Section Costs.

Variable p : Event -> bool.

Lemma costs_ret {A : Type} (a : A) : costs p (ret a) 0.
Proof. intro w. simpl. lia. Qed.

Lemma costs_throw {A : Type} (e : string) : costs p (@throw A e) 0.
Proof. intro w. simpl. lia. Qed.

Lemma costs_weaken {A : Type} (m : M A) (k k' : nat) :
  costs p m k -> k <= k' -> costs p m k'.
Proof. intros H Hle w. specialize (H w). lia. Qed.

Lemma costs_bind {A B : Type} (m : M A) (f : A -> M B) (k1 k2 : nat) :
  costs p m k1 -> (forall a, costs p (f a) k2) ->
  costs p (bind m f) (k1 + k2).
Proof.
  intros Hm Hf w. unfold bind. specialize (Hm w).
  destruct (m w) as [[a | e] w1]; simpl in *.
  - specialize (Hf a w1). lia.
  - lia.
Qed.

Lemma costs_try_catch {A : Type} (m : M A) (h : string -> M A)
  (k1 k2 : nat) :
  costs p m k1 -> (forall e, costs p (h e) k2) ->
  costs p (try_catch m h) (k1 + k2).
Proof.
  intros Hm Hh w. unfold try_catch. specialize (Hm w).
  destruct (m w) as [[a | e] w1]; simpl in *.
  - lia.
  - specialize (Hh e w1). lia.
Qed.

Lemma costs_if {A : Type} (b : bool) (m1 m2 : M A) (k1 k2 : nat) :
  costs p m1 k1 -> costs p m2 k2 ->
  costs p (if b then m1 else m2) (Nat.max k1 k2).
Proof.
  intros H1 H2 w. destruct b; [specialize (H1 w) | specialize (H2 w)]; lia.
Qed.

Lemma costs_bind_free {A B : Type} (m : M A) (f : A -> M B) :
  costs p m 0 -> (forall a, costs p (f a) 0) -> costs p (bind m f) 0.
Proof. intros Hm Hf. apply (costs_bind m f 0 0 Hm Hf). Qed.

Lemma costs_if_same {A : Type} (b : bool) (m1 m2 : M A) (k : nat) :
  costs p m1 k -> costs p m2 k -> costs p (if b then m1 else m2) k.
Proof. intros H1 H2. destruct b; assumption. Qed.

Lemma costs_attempt {A : Type} (m : M A) (k : nat) :
  costs p m k -> costs p (attempt m) k.
Proof.
  intros H w. specialize (H w). unfold attempt.
  destruct (m w) as [r w']. exact H.
Qed.

(** What does not write to the history costs nothing. *)
Lemma costs_getSession : costs p getSession 0.
Proof. intro w. simpl. lia. Qed.

Lemma costs_Date_now : costs p Date_now 0.
Proof. intro w. simpl. lia. Qed.

Lemma costs_update (f : Session -> Session) : costs p (update f) 0.
Proof. intro w. unfold count. simpl. lia. Qed.

Lemma costs_getE (v : jsval) (k : string) : costs p (getE v k) 0.
Proof. destruct v; first [apply costs_throw | apply costs_ret]. Qed.

Lemma costs_Object_keys (v : jsval) : costs p (Object_keys v) 0.
Proof.
  unfold Object_keys. destruct (nullish v);
    [apply costs_throw | apply costs_ret].
Qed.

Lemma costs_for_each (f : jsval -> M unit) (items : list jsval) :
  (forall x, costs p (f x) 0) -> costs p (for_each f items) 0.
Proof.
  intro Hf. induction items as [| x rest IH]; cbn [for_each].
  - apply costs_ret.
  - apply (costs_bind _ _ 0 0); [apply Hf | intros _; exact IH].
Qed.

Lemma costs_js_map (callee : string) (v : jsval) (f : jsval -> M unit) :
  (forall x, costs p (f x) 0) -> costs p (js_map callee v f) 0.
Proof.
  intro Hf. destruct v; cbn [js_map];
    first [apply costs_throw | apply costs_for_each, Hf].
Qed.

Lemma costs_captureCookies (res : Response) : costs p (captureCookies res) 0.
Proof. intro w. unfold count. simpl. lia. Qed.

Lemma costs_clearCookies : costs p clearCookies 0.
Proof. intro w. unfold count. simpl. lia. Qed.

Lemma costs_safeJson (res : Response) (label : string) :
  costs p (safeJson res label) 0.
Proof.
  unfold safeJson. destruct (JSON_parse (body res)); [apply costs_ret |].
  destruct variant; [| apply costs_throw].
  destruct (startsWith _ _); [apply costs_throw |].
  destruct (salvage _ _); apply costs_ret.
Qed.

Lemma count_noted (ev : Event) (w : World) :
  count p (noted ev w) = count p w + Nat.b2n (p ev).
Proof.
  unfold count, noted. cbn [trace]. rewrite filter_app, length_app.
  cbn [filter]. destruct (p ev); reflexivity.
Qed.

Lemma costs_record (ev : Event) : costs p (record ev) (Nat.b2n (p ev)).
Proof.
  intro w. change (snd (record ev w)) with (noted ev w).
  rewrite count_noted. lia.
Qed.

(** Each request is one event, of the kind or not. *)
Variable r : nat.
Hypothesis p_request : forall rq, Nat.b2n (p (EvRequest rq)) = r.

Lemma costs_fetch (rq : Request) : costs p (fetch rq) r.
Proof.
  intro w. rewrite fetch_world. unfold after_fetch, count. cbn [trace].
  rewrite filter_app, length_app. cbn [filter].
  rewrite <- (p_request rq). destruct (p (EvRequest rq)); simpl; lia.
Qed.

Create HintDb costs.

#[local] Hint Resolve costs_ret costs_throw costs_getSession costs_Date_now
  costs_update costs_getE costs_Object_keys costs_captureCookies
  costs_clearCookies costs_safeJson costs_record costs_fetch : costs.

(** One step through a computation: a known cost, or the rule of the
    construct at its head. *)
Ltac costs_step :=
  first
    [ solve [eauto 1 with costs nocore]
    | eapply costs_bind; [| intros]
    | eapply costs_bind_free; [| intros]
    | eapply costs_try_catch; [| intros]
    | eapply costs_if
    | eapply costs_if_same
    | eapply costs_js_map; intros
    | eapply costs_attempt
    | progress cbv zeta ].

Ltac costs_auto :=
  eapply costs_weaken; [repeat costs_step | cbn; lia].

Lemma costs_growattFetch (ep : Endpoint) : costs p (growattFetch ep) r.
Proof. unfold growattFetch. costs_auto. Qed.

Lemma costs_fetch_json (ep : Endpoint) (label : string) :
  costs p (fetch_json ep label) r.
Proof.
  unfold fetch_json.
  eapply costs_weaken;
    [eapply costs_bind; [apply costs_growattFetch | intro; apply costs_safeJson]
    | lia].
Qed.

#[local] Hint Resolve costs_fetch_json : costs.

Lemma costs_discoverDevices : costs p discoverDevices (2 * r).
Proof. unfold discoverDevices. costs_auto. Qed.

Lemma costs_stampLogin : costs p stampLogin 0.
Proof. unfold stampLogin. costs_auto. Qed.

#[local] Hint Resolve costs_discoverDevices costs_stampLogin : costs.

Lemma costs_login_with (username password : string) :
  costs p (login_with username password) (3 * r).
Proof.
  unfold login_with.
  assert (Hparse : forall res : Response,
             costs p
               (match JSON_parse (body res) with
                | Some data => Object_keys data ;;; ret data
                | None => throw "SyntaxError"
                end) 0).
  { intro res. destruct (JSON_parse (body res)); costs_auto. }
  costs_auto.
Qed.

#[local] Hint Resolve costs_login_with : costs.

Lemma costs_login : costs p login (Nat.b2n (p EvLogin) + 3 * r).
Proof.
  unfold login.
  destruct GROWATT_USERNAME as [username |];
    [destruct GROWATT_PASSWORD as [password |] |]; costs_auto.
Qed.

#[local] Hint Resolve costs_login : costs.

Lemma costs_ensureSession :
  costs p ensureSession (Nat.b2n (p EvLogin) + 3 * r).
Proof. unfold ensureSession. costs_auto. Qed.

#[local] Hint Resolve costs_ensureSession : costs.

Lemma costs_invoke {A : Type} (fn : M A) (k : nat) :
  costs p fn k -> costs p (invoke fn) (Nat.b2n (p EvInvoke) + k).
Proof.
  intro H. unfold invoke.
  apply costs_bind; [apply costs_record | intros _; exact H].
Qed.

Lemma costs_withSessionRetry {A : Type} (fn : M A) (k : nat) :
  costs p fn k ->
  costs p (withSessionRetry fn)
    (2 * (Nat.b2n (p EvInvoke) + k) + Nat.b2n (p EvLogin) + 3 * r).
Proof.
  intro H. unfold withSessionRetry.
  eapply costs_weaken;
    [eapply costs_try_catch; [apply costs_invoke, H | intro e];
     eapply costs_if; [| apply costs_throw];
     repeat first [apply costs_invoke, H | costs_step]
    | cbn; lia].
Qed.

Lemma costs_source (ep : Endpoint) (label : string) :
  costs p (source ep label) r.
Proof.
  unfold source, guarded_source, plain_source.
  destruct variant; [| costs_auto].
  eapply costs_weaken;
    [eapply costs_bind; [apply costs_attempt, costs_fetch_json |] | ].
  - intros [x | e]; [| apply costs_if; [apply costs_throw | apply costs_ret]].
    eapply costs_weaken; [repeat costs_step | reflexivity].
  - cbn. lia.
Qed.

#[local] Hint Resolve costs_source : costs.

Lemma costs_getStorageData : costs p getStorageData (3 * r).
Proof. unfold getStorageData. costs_auto. Qed.

Lemma costs_getPlantDetail : costs p getPlantDetail r.
Proof. unfold getPlantDetail. costs_auto. Qed.

Lemma costs_storage_or_empty :
  costs p storage_or_empty
    (2 * (Nat.b2n (p EvInvoke) + 3 * r) + Nat.b2n (p EvLogin) + 3 * r).
Proof.
  unfold storage_or_empty.
  eapply costs_weaken;
    [eapply costs_try_catch;
       [apply costs_withSessionRetry, costs_getStorageData
       | intro; apply costs_ret]
    | lia].
Qed.

Lemma costs_plant_or_error :
  costs p plant_or_error
    (2 * (Nat.b2n (p EvInvoke) + r) + Nat.b2n (p EvLogin) + 3 * r).
Proof.
  unfold plant_or_error.
  eapply costs_weaken;
    [eapply costs_try_catch;
       [apply costs_withSessionRetry, costs_getPlantDetail
       | intro; apply costs_ret]
    | lia].
Qed.

#[local] Hint Resolve costs_getStorageData costs_getPlantDetail
  costs_storage_or_empty costs_plant_or_error : costs.

Lemma costs_refresh :
  costs p refresh
    (3 * Nat.b2n (p EvLogin) + 4 * Nat.b2n (p EvInvoke) + 17 * r).
Proof. unfold refresh. costs_auto. Qed.

Lemma costs_debug :
  costs p debug (Nat.b2n (p EvLogin) + 9 * r).
Proof. unfold debug. costs_auto. Qed.

End Costs.

Lemma count_with_session (p : Event -> bool) (f : Session -> Session)
  (w : World) :
  count p (with_session f w) = count p w.
Proof. reflexivity. Qed.

Lemma costs_api_data (p : Event -> bool) (r : nat) (w : World) :
  (forall rq, Nat.b2n (p (EvRequest rq)) = r) ->
  count p (snd (api_data w))
  <= count p w + (3 * Nat.b2n (p EvLogin) + 4 * Nat.b2n (p EvInvoke) + 17 * r).
Proof.
  intro Hr. unfold api_data.
  destruct (fresh_snapshot w); [simpl; lia |].
  pose proof (costs_refresh p r Hr w) as H.
  destruct (refresh w) as [[d | e] w']; cbn [snd] in *; [exact H |].
  destruct (indicates_login_problem e);
    [rewrite count_with_session |]; exact H.
Qed.

(** ** The load on the vendor *)

(** X1.  One request to [/api/data] sends at most 17 requests upstream,
    enters [login] at most 3 times and invokes the two fetch operations
    at most 4 times in all, whatever the vendor answers. *)
Theorem api_data_load_bounded (w : World) :
  requests (snd (api_data w)) <= requests w + 17
  /\ logins (snd (api_data w)) <= logins w + 3
  /\ invocations (snd (api_data w)) <= invocations w + 4.
Proof.
  split; [| split].
  - apply (costs_api_data is_request 1 w). reflexivity.
  - apply (costs_api_data is_login 0 w). reflexivity.
  - apply (costs_api_data is_invoke 0 w). reflexivity.
Qed.

(** ** Missing credentials *)

Lemma login_unconfigured (w : World) :
  GROWATT_USERNAME = None \/ GROWATT_USERNAME = Some "" \/
  GROWATT_PASSWORD = None \/ GROWATT_PASSWORD = Some "" ->
  login w = (Throw config_error, noted EvLogin w).
Proof.
  intro H. unfold login, bind, record. fold (noted EvLogin w).
  destruct GROWATT_USERNAME as [username |];
    destruct GROWATT_PASSWORD as [password |]; try reflexivity.
  destruct H as [H | [H | [H | H]]]; try discriminate;
    injection H as ->; [reflexivity |].
  rewrite orb_true_r. reflexivity.
Qed.

(** X2.  When the user name or the password is not set, or is empty,
    [login] throws the configuration error before it touches the
    cookies or sends anything: [/api/connect] answers with that error,
    and so does [/api/data] when it has no fresh snapshot and the session
    has to be established; the session, the cookie jar and the clock
    are what they were, and [lastLogin] is not cleared. *)
Theorem unconfigured_server_sends_nothing (w : World) :
  GROWATT_USERNAME = None \/ GROWATT_USERNAME = Some "" \/
  GROWATT_PASSWORD = None \/ GROWATT_PASSWORD = Some "" ->
  api_connect w = (ConnectError config_error, noted EvLogin w)
  /\ (fresh_snapshot w = None ->
      login_needed (session w) (now w) = true ->
      api_data w = (DataError config_error, noted EvLogin w))
  /\ session (noted EvLogin w) = session w
  /\ cookieJar (noted EvLogin w) = cookieJar w
  /\ now (noted EvLogin w) = now w
  /\ requests (noted EvLogin w) = requests w.
Proof.
  intro H. pose proof (login_unconfigured w H) as Hlogin.
  split; [unfold api_connect; rewrite Hlogin; reflexivity |].
  split; [| repeat split].
  - intros Hmiss Hneed. unfold api_data. rewrite Hmiss.
    assert (Hrefresh : refresh w = (Throw config_error, noted EvLogin w)).
    { apply refresh_throws. unfold ensureSession, bind, getSession, Date_now.
      rewrite Hneed, Hlogin. reflexivity. }
    rewrite Hrefresh. reflexivity.
  - unfold requests. rewrite count_noted. simpl. lia.
Qed.

(** ** The retry logs in *)

(** With [lastLogin] cleared, [ensureSession] is [login]. *)
Lemma ensureSession_invalidated (w : World) :
  lastLogin (session w) = None ->
  ensureSession w
  = match login w with
    | (Ok _, w') => (Ok tt, w')
    | (Throw e, w') => (Throw e, w')
    end.
Proof.
  intro H. unfold ensureSession, bind, getSession, Date_now, login_needed.
  rewrite H. destruct (cookie_to_send (session w));
    destruct (login w) as [[info | e] w']; reflexivity.
Qed.

(** [withSessionRetry], stage by stage. *)
Lemma withSessionRetry_run {A : Type} (fn : M A) (w : World) :
  withSessionRetry fn w
  = match fn (noted EvInvoke w) with
    | (Ok a, w1) => (Ok a, w1)
    | (Throw e, w1) =>
        if retryable e then
          match login (with_session (set_lastLogin None) w1) with
          | (Ok _, w2) => fn (noted EvInvoke w2)
          | (Throw e', w2) => (Throw e', w2)
          end
        else (Throw e, w1)
    end.
Proof.
  unfold withSessionRetry, try_catch, invoke.
  unfold bind at 1. unfold record at 1. fold (noted EvInvoke w).
  destruct (fn (noted EvInvoke w)) as [[a | e] w1]; [reflexivity |].
  destruct (retryable e); [| reflexivity].
  unfold bind at 1. unfold update at 1. unfold bind at 1.
  rewrite (ensureSession_invalidated (with_session (set_lastLogin None) w1))
    by reflexivity.
  destruct (login (with_session (set_lastLogin None) w1)) as [[info | e'] w2];
    reflexivity.
Qed.

(** X3.  In [withSessionRetry], a first invocation that returns, or that
    throws an error that does not ask for a new login, is followed by no
    login.  One that throws an error that asks for it is followed by
    exactly one entry into [login], whatever the state of the session:
    the cookies and the age of the login are not looked at, since
    [lastLogin] has just been cleared.  When that login throws, the
    operation is not invoked again and the login's error is the
    outcome. *)
Theorem withSessionRetry_retry_logs_in {A : Type} (fn : M A) (w : World) :
  (forall w0, logins (snd (fn w0)) = logins w0) ->
  match fn (noted EvInvoke w) with
  | (Ok a, w1) => logins (snd (withSessionRetry fn w)) = logins w
  | (Throw e, w1) =>
      if retryable e then
        logins (snd (withSessionRetry fn w)) = logins w + 1
        /\ (forall e' w2,
              login (with_session (set_lastLogin None) w1) = (Throw e', w2) ->
              withSessionRetry fn w = (Throw e', w2))
      else logins (snd (withSessionRetry fn w)) = logins w
  end.
Proof.
  intro Hfn. rewrite withSessionRetry_run.
  pose proof (Hfn (noted EvInvoke w)) as H0.
  rewrite logins_noted in H0. cbn [is_login] in H0.
  rewrite Nat.add_0_r in H0.
  destruct (fn (noted EvInvoke w)) as [[a | e] w1]; cbn [snd] in *;
    [exact H0 |].
  destruct (retryable e); [| exact H0].
  pose proof (login_counts_once (with_session (set_lastLogin None) w1)) as Hl.
  change (logins (with_session (set_lastLogin None) w1)) with (logins w1) in Hl.
  destruct (login (with_session (set_lastLogin None) w1)) as [[info | e'] w2];
    cbn [snd] in *.
  - split; [| discriminate].
    rewrite Hfn, logins_noted. cbn [is_login].
    rewrite Nat.add_0_r, Hl, H0. reflexivity.
  - split; [rewrite Hl, H0; reflexivity |].
    intros e'' w2' H. injection H as -> ->. reflexivity.
Qed.

(** ** What a login leaves behind *)

Lemma bind_Ok {A B : Type} (m : M A) (k : A -> M B) (w w' : World) (b : B) :
  bind m k w = (Ok b, w') ->
  exists a w1, m w = (Ok a, w1) /\ k a w1 = (Ok b, w').
Proof.
  unfold bind. destruct (m w) as [[a | e] w1]; [| discriminate].
  intro H. exists a, w1. split; [reflexivity | exact H].
Qed.

(** The computations that leave the world as it is. *)
Lemma pure_getE (v : jsval) (k : string) (w w' : World) (r : Result jsval) :
  getE v k w = (r, w') -> w' = w.
Proof.
  intro H. pose proof (stable_getE (fun w w' => w' = w) (fun _ => eq_refl) v k w)
    as Hs. rewrite H in Hs. exact Hs.
Qed.

(** A computation that leaves the world as it is. *)
Lemma unchanged {A : Type} (m : M A) (w w' : World) (r : Result A) :
  stable (fun w0 w1 => w1 = w0) m -> m w = (r, w') -> w' = w.
Proof. intros Hs H. specialize (Hs w). rewrite H in Hs. exact Hs. Qed.

Lemma unchanged_getE (v : jsval) (k : string) :
  stable (fun w0 w1 : World => w1 = w0) (getE v k).
Proof. apply stable_getE. reflexivity. Qed.

Lemma unchanged_Object_keys (v : jsval) :
  stable (fun w0 w1 : World => w1 = w0) (Object_keys v).
Proof. apply stable_Object_keys. reflexivity. Qed.

Lemma unchanged_js_map (callee : string) (v : jsval) (f : jsval -> M unit) :
  (forall x, stable (fun w0 w1 : World => w1 = w0) (f x)) ->
  stable (fun w0 w1 : World => w1 = w0) (js_map callee v f).
Proof.
  apply stable_js_map; [reflexivity | intros w1 w2 w3 -> ->; reflexivity].
Qed.

Lemma discoverDevices_login_time_kept : stable login_time_kept discoverDevices.
Proof.
  apply stable_discoverDevices.
  - intro w. split; [reflexivity | lia].
  - intros w1 w2 w3 [E1 L1] [E2 L2]. split; [congruence | lia].
  - intros rq w. rewrite fetch_world. split; [reflexivity |].
    cbn [after_fetch now]. lia.
  - intros res w. split; [reflexivity | cbn; lia].
  - intros v w. split; [reflexivity | cbn; lia].
Qed.

Lemma discoverDevices_identity_kept : stable identity_kept discoverDevices.
Proof.
  apply stable_discoverDevices.
  - intro w. repeat split.
  - intros w1 w2 w3 (A1 & B1 & C1) (A2 & B2 & C2).
    repeat split; congruence.
  - intros rq w. rewrite fetch_world. repeat split.
  - intros res w. repeat split.
  - intros v w. repeat split.
Qed.

Lemma discoverDevices_same_cache : stable same_cache discoverDevices.
Proof.
  apply stable_discoverDevices.
  - intro w. split; reflexivity.
  - intros w1 w2 w3 [A1 B1] [A2 B2]. split; congruence.
  - intros rq w. rewrite fetch_world. split; reflexivity.
  - intros res w. split; reflexivity.
  - intros v w. split; reflexivity.
Qed.

Lemma discoverDevices_jar_consistent :
  stable (keeps jar_consistent) discoverDevices.
Proof. apply stable_discoverDevices; keeps_jar. Qed.

Lemma getE_Ok (v : jsval) (k : string) (w w' : World) (x : jsval) :
  getE v k w = (Ok x, w') -> x = get v k /\ w' = w.
Proof.
  destruct v; cbn [getE]; intro H; try discriminate;
    injection H as <- <-; split; reflexivity.
Qed.

Lemma login_logging_unchanged (plants : jsval) :
  stable (fun w0 w1 : World => w1 = w0)
    (if nullish plants then ret tt
     else js_map "plants?.map" plants
            (fun p => _ <- getE p "plantId" ;; ret tt)).
Proof.
  destruct (nullish plants); [intro; reflexivity |].
  apply unchanged_js_map. intros x w.
  unfold bind. pose proof (unchanged_getE x "plantId" w) as H.
  destruct (getE x "plantId" w) as [[v | e] w1]; exact H.
Qed.

Lemma login_parse_Ok (res : Response) (w w' : World) (data : jsval) :
  try_catch
    (match JSON_parse (body res) with
     | Some data => Object_keys data ;;; ret data
     | None => throw "SyntaxError"
     end)
    (fun _ => throw (login_non_json res)) w = (Ok data, w') ->
  JSON_parse (body res) = Some data /\ w' = w.
Proof.
  unfold try_catch. destruct (JSON_parse (body res)) as [v |];
    [| discriminate].
  unfold bind, Object_keys. destruct (nullish v); [discriminate |].
  cbn. intro H. injection H as <- <-. split; reflexivity.
Qed.


(** ** The numbers of a snapshot *)

Lemma pf_plain (vals : list jsval) : plain_number (pf vals).
Proof.
  induction vals as [| v rest IH]; cbn [pf].
  - split; [reflexivity | discriminate].
  - cbv zeta.
    destruct (isNaN (parseFloat v)) eqn:En; [exact IH |].
    destruct (is_zero (parseFloat v)) eqn:Ez; [exact IH |].
    cbn [negb andb]. split; [exact En |].
    intro H. rewrite H in Ez. discriminate.
Qed.

Lemma num_or_plain (a b : float) : plain_number b -> plain_number (num_or a b).
Proof.
  intro Hb. unfold num_or. cbn [truthy].
  destruct (is_zero a) eqn:Ez; [exact Hb |].
  destruct (isNaN a) eqn:En; [exact Hb |].
  cbn [orb negb]. split; [exact En |].
  intro H. rewrite H in Ez. discriminate.
Qed.

Lemma zero_plain : plain_number zero.
Proof. split; [reflexivity | discriminate]. Qed.


(** X6.  Whatever the sources hold, no numeric field of the snapshot is
    [NaN] or the negative zero: a field is 0 or a number other than
    zero (an infinity included, which a candidate like ["Infinity"] or
    [1e999] gives). *)
Theorem snapshot_numbers_are_plain (s : Session) (t : Z)
  (storageRaw : StorageRaw) (plantDetail : jsval) :
  Forall (fun field => plain_number (snd field))
    (numeric_fields (normalize s t storageRaw plantDetail)).
Proof.
  unfold numeric_fields, normalize. cbv zeta.
  repeat (apply Forall_cons; cbn [snd plant pv battery load grid inverter
                                   energy]);
    try apply Forall_nil;
    first [ apply pf_plain | apply zero_plain
          | apply num_or_plain, num_or_plain, zero_plain ].
Qed.

(** ** What [getStorageData] can throw *)

(** [JSON.parse] never returns [undefined]. *)
Lemma parse_elements_array (fuel : nat) (l : list N) (acc : list jsval)
  (v : jsval) (r : list N) :
  parse_elements fuel l acc = Some (v, r) -> exists items, v = VArr items.
Proof.
  revert l acc. induction fuel as [| fuel IH]; intros l acc H;
    [discriminate |].
  cbn [parse_elements] in H.
  destruct (parse_value fuel l) as [[x r1] |]; [| discriminate].
  destruct (skip_json_ws r1) as [| c r2]; [discriminate |].
  destruct (N.eqb_spec c 44) as [-> | H44]; [exact (IH _ _ H) |].
  destruct (N.eqb_spec c 93) as [-> | H93].
  - injection H as <- _. eexists. reflexivity.
  - exfalso. revert H. destruct c as [| q]; [discriminate |].
    do 7 (try (destruct q as [q | q |]; try discriminate; try congruence)).
Qed.

Lemma parse_members_object (fuel : nat) (l : list N)
  (acc : list (string * jsval)) (v : jsval) (r : list N) :
  parse_members fuel l acc = Some (v, r) -> exists props, v = VObj props.
Proof.
  revert l acc. induction fuel as [| fuel IH]; intros l acc H;
    [discriminate |].
  cbn [parse_members] in H.
  repeat match type of H with
         | context [match ?x with _ => _ end] => destruct x; try discriminate
         end;
    first [ exact (IH _ _ H) | injection H as <- _; eexists; reflexivity ].
Qed.

Lemma parse_value_defined (fuel : nat) (l : list N) (v : jsval)
  (r : list N) :
  parse_value fuel l = Some (v, r) -> v <> VUndef.
Proof.
  destruct fuel as [| fuel]; [discriminate |].
  cbn [parse_value]. intro H.
  repeat match type of H with
         | context [match ?x with _ => _ end] => destruct x; try discriminate
         end;
    first [ injection H as <- _; discriminate
          | apply parse_members_object in H as [props ->]; discriminate
          | apply parse_elements_array in H as [items ->]; discriminate ].
Qed.

Lemma JSON_parse_defined (s : string) (v : jsval) :
  JSON_parse s = Some v -> v <> VUndef.
Proof.
  unfold JSON_parse.
  destruct (parse_value _ _) as [[x r] |] eqn:E; [| discriminate].
  destruct (skip_json_ws r); [| discriminate].
  intro H. injection H as <-. exact (parse_value_defined _ _ _ _ E).
Qed.

Lemma try_endings_defined (current : string) (es : list string) (v : jsval) :
  try_endings current es = Some v -> v <> VUndef.
Proof.
  induction es as [| ending rest IH]; [discriminate |].
  cbn [try_endings].
  destruct (JSON_parse (current ++ ending)) as [x |] eqn:E; [| exact IH].
  intro H. injection H as <-. exact (JSON_parse_defined _ _ E).
Qed.

Lemma salvage_defined (rounds : nat) (current : string) (v : jsval) :
  salvage rounds current = Some v -> v <> VUndef.
Proof.
  revert current. induction rounds as [| rounds IH]; intro current;
    [discriminate |].
  cbn [salvage]. destruct (lastIndexOf current ","); [| discriminate].
  destruct (try_endings _ endings) as [x |] eqn:E; [| apply IH].
  intro H. injection H as <-. exact (try_endings_defined _ _ _ E).
Qed.

Lemma safeJson_defined (res : Response) (label : string) (w w' : World)
  (v : jsval) :
  safeJson res label w = (Ok v, w') -> v <> VUndef.
Proof.
  unfold safeJson.
  destruct (JSON_parse (body res)) as [x |] eqn:E.
  - intro H. injection H as <- _. exact (JSON_parse_defined _ _ E).
  - destruct variant; [| discriminate].
    destruct (startsWith _ _); [discriminate |].
    destruct (salvage 10 (body res)) as [x |] eqn:Es;
      intro H; injection H as <- _; [| discriminate].
    exact (salvage_defined _ _ _ Es).
Qed.

Lemma fetch_json_defined (ep : Endpoint) (label : string) (w w' : World)
  (v : jsval) :
  fetch_json ep label w = (Ok v, w') -> v <> VUndef.
Proof.
  unfold fetch_json. intro H.
  apply bind_Ok in H as (res & w1 & _ & H).
  exact (safeJson_defined _ _ _ _ _ H).
Qed.

Lemma guarded_source_outcome (ep : Endpoint) (label : string) (w : World) :
  variant = ServerTs ->
  match source ep label w with
  | (Ok x, _) => x <> VUndef
  | (Throw e, _) => includes e "session_expired" = true
  end.
Proof.
  intro Hv. rewrite (guarded_source_run ep label w Hv).
  destruct (fetch_json ep label w) as [[x | e] w1] eqn:E.
  - exact (fetch_json_defined _ _ _ _ _ E).
  - destruct (includes e "session_expired") eqn:Ei; [exact Ei | discriminate].
Qed.


(** ** Device discovery *)

Lemma getE_defined (v : jsval) (k : string) :
  nullish v = false -> getE v k = ret (get v k).
Proof. destruct v; try discriminate; reflexivity. Qed.

Lemma Object_keys_defined (v : jsval) :
  nullish v = false -> Object_keys v = ret tt.
Proof. unfold Object_keys. intros ->. reflexivity. Qed.

(** Logging the devices goes through when none of them is [null]. *)
Lemma log_devices_returns (items : list jsval) (w : World) :
  Forall (fun x => nullish x = false) items ->
  for_each (fun d => _ <- getE d "deviceSn" ;; Object_keys d) items w
  = (Ok tt, w).
Proof.
  induction 1 as [| x rest Hx _ IH]; [reflexivity |].
  cbn [for_each]. unfold bind at 1.
  rewrite (getE_defined _ _ Hx). unfold bind at 1. unfold ret at 1.
  rewrite (Object_keys_defined _ Hx). unfold ret at 1. exact IH.
Qed.

Lemma get_length (items : list jsval) :
  get (VArr items) "length" = VNum (of_nat (List.length items)).
Proof. reflexivity. Qed.

(** The length of a short array as a number: zero for the empty array
    only. *)
Lemma short_length (n : nat) :
  n <= 20 ->
  is_zero (of_nat n) = (n =? 0)%nat
  /\ lt zero (of_nat n) = negb (n =? 0)%nat.
Proof.
  intro H.
  do 21 (destruct n as [| n]; [split; vm_compute; reflexivity |]).
  lia.
Qed.


Lemma fetch_json_one_request (ep : Endpoint) (label : string) (w : World) :
  requests (snd (fetch_json ep label w)) = requests w + 1.
Proof.
  unfold fetch_json, growattFetch, bind, getSession.
  match goal with |- context [fetch ?rq w] =>
    pose proof (fetch_world rq w) as Hw;
    destruct (fetch rq w) as [[res | e] w1]
  end; cbn [snd] in Hw; subst w1.
  - unfold captureCookies, ret.
    pose proof (stable_safeJson (fun w0 w1 => w1 = w0) (fun _ => eq_refl)
                  res label) as Hs.
    match goal with |- context [safeJson res label ?w0] =>
      specialize (Hs w0); destruct (safeJson res label w0) as [r w2]
    end.
    cbn [snd] in *. subst w2.
    unfold requests, count, after_fetch. cbn [trace].
    rewrite filter_app, length_app. reflexivity.
  - cbn [snd]. unfold requests, count, after_fetch. cbn [trace].
    rewrite filter_app, length_app. reflexivity.
Qed.

Lemma fetch_json_keeps_device (ep : Endpoint) (label : string) :
  stable (fun w w' => deviceSn (session w') = deviceSn (session w))
    (fetch_json ep label).
Proof.
  apply stable_fetch_json.
  - reflexivity.
  - intros w1 w2 w3 H1 H2. congruence.
  - intros rq w. rewrite fetch_world. reflexivity.
  - intros res w. reflexivity.
Qed.


(** ** A login that cannot be sent *)

(** X10.  When the login request fails on the network, [login] throws
    the network error with the cookies and the cookie jar emptied, while
    the login time, the user, the plant, the device and the cached
    snapshot of the session stay what they were; one request has been
    sent, and the next [ensureSession] will log in again. *)
Theorem login_network_failure (username password : string) (w : World)
  (e : string) (latency : N) :
  GROWATT_USERNAME = Some username ->
  GROWATT_PASSWORD = Some password ->
  username <> "" -> password <> "" ->
  upstream (trace w ++ [EvLogin]) (now w)
    {| endpoint := EpLogin; cookie := None;
       form := [("userName", username);
                ("password", growattHash password)] |}
  = (latency, NetworkError e) ->
  fst (login w) = Throw e
  /\ cookies (session (snd (login w))) = None
  /\ cookieJar (snd (login w)) = []
  /\ lastLogin (session (snd (login w))) = lastLogin (session w)
  /\ userId (session (snd (login w))) = userId (session w)
  /\ plantId (session (snd (login w))) = plantId (session w)
  /\ plantName (session (snd (login w))) = plantName (session w)
  /\ deviceSn (session (snd (login w))) = deviceSn (session w)
  /\ same_cache w (snd (login w))
  /\ requests (snd (login w)) = requests w + 1
  /\ (forall t, login_needed (session (snd (login w))) t = true).
Proof.
  intros Hu Hp Hune Hpne Hup.
  assert (Hrun :
    login w
    = (Throw e,
       {| session := set_cookies None (session w);
          cookieJar := [];
          now := now w + Z.of_N latency;
          trace := (trace w ++ [EvLogin])
                   ++ [EvRequest
                         {| endpoint := EpLogin; cookie := None;
                            form := [("userName", username);
                                     ("password", growattHash password)] |}]
       |})).
  { unfold login. rewrite Hu, Hp.
    apply String.eqb_neq in Hune, Hpne.
    unfold bind at 1. unfold record at 1. rewrite Hune, Hpne. cbn [orb].
    unfold login_with. unfold bind at 1. unfold clearCookies at 1.
    cbv zeta. unfold bind at 1. unfold fetch at 1. cbn [trace now].
    rewrite Hup. reflexivity. }
  rewrite Hrun. cbn [fst snd session cookieJar].
  repeat split.
  unfold requests, count. cbn [trace].
  rewrite !filter_app, !length_app. cbn. lia.
Qed.

(** ** The cache across the other operations *)

Lemma cache_kept_refl (w : World) : cache_kept w w.
Proof. split; [split; reflexivity | lia]. Qed.

Lemma cache_kept_trans (w1 w2 w3 : World) :
  cache_kept w1 w2 -> cache_kept w2 w3 -> cache_kept w1 w3.
Proof.
  intros [[A1 B1] L1] [[A2 B2] L2].
  split; [split; congruence | lia].
Qed.

(** Everything but the refresh keeps the cache, and nothing turns the
    clock back. *)
Ltac cache_kept_auto :=
  first
    [ exact cache_kept_refl
    | exact cache_kept_trans
    | intros; intro; rewrite ?fetch_world;
      unfold cache_kept, same_cache, stampLogin, bind, Date_now, update;
      cbn; repeat split; lia ].

Lemma api_connect_cache_kept (w : World) : cache_kept w (snd (api_connect w)).
Proof. apply stable_api_connect; cache_kept_auto. Qed.

Lemma ensureSession_cache_kept : stable cache_kept ensureSession.
Proof. apply stable_ensureSession; cache_kept_auto. Qed.

Lemma getStorageData_cache_kept : stable cache_kept getStorageData.
Proof. apply stable_getStorageData; cache_kept_auto. Qed.

Lemma getPlantDetail_cache_kept : stable cache_kept getPlantDetail.
Proof. apply stable_getPlantDetail; cache_kept_auto. Qed.

Lemma discoverDevices_cache_kept : stable cache_kept discoverDevices.
Proof. apply stable_discoverDevices; cache_kept_auto. Qed.

Lemma storage_or_empty_cache_kept : stable cache_kept storage_or_empty.
Proof. apply stable_storage_or_empty; cache_kept_auto. Qed.

Lemma plant_or_error_cache_kept : stable cache_kept plant_or_error.
Proof. apply stable_plant_or_error; cache_kept_auto. Qed.

Lemma cache_sound_kept (w w' : World) :
  cache_kept w w' -> cache_sound w -> cache_sound w'.
Proof.
  intros [[Hd Hf] Hnow]. unfold cache_sound. rewrite Hd, Hf.
  destruct (lastData (session w)); [| exact (fun H => H)].
  intros [Hle Hs]. split; [lia | exact Hs].
Qed.

(** X11.  [/api/connect] does not touch the cache: a snapshot cached
    before a reconnection is still served, marked cached, by the
    [/api/data] that follows it within 60 seconds of its fetch, even
    though the session may by then be on another plant or device. *)
Theorem reconnect_keeps_snapshot (w : World) (d : DashData) :
  lastData (session w) = Some d ->
  (now (snd (api_connect w)) - lastFetch (session w) < 60 * 1000)%Z ->
  lastData (session (snd (api_connect w))) = Some d
  /\ lastFetch (session (snd (api_connect w))) = lastFetch (session w)
  /\ api_data (snd (api_connect w)) = (DataOk true d, snd (api_connect w)).
Proof.
  intros Hd Hage.
  destruct (api_connect_cache_kept w) as [[Hd' Hf'] _].
  rewrite Hd in Hd'. split; [exact Hd' |]. split; [exact Hf' |].
  unfold api_data, fresh_snapshot. rewrite Hd', Hf'.
  change DATA_CACHE_TTL with (60 * 1000)%Z.
  destruct (Z.ltb_spec (now (snd (api_connect w)) - lastFetch (session w))
              (60 * 1000)); [reflexivity | lia].
Qed.

Lemma reachable_cache_sound (w : World) : reachable w -> cache_sound w.
Proof.
  intro Hr.
  induction Hr as [t Ht | dt w _ IH | w _ IH | w Hr IH | w _ IH | w _ IH
                  | w _ IH | w _ IH].
  - reflexivity.
  - unfold cache_sound in *. cbn [later session now].
    destruct (lastData (session w)); [| exact IH].
    destruct IH as [Hle Hs]. split; [lia | exact Hs].
  - exact (cache_sound_kept _ _ (api_connect_cache_kept w) IH).
  - destruct (reachable_invariants w Hr) as [_ [Hnow _]].
    unfold api_data. destruct (fresh_snapshot w); [exact IH |].
    rewrite refresh_run.
    pose proof (ensureSession_cache_kept w) as H1.
    destruct (ensureSession w) as [[[] | e] w1]; cbn [snd] in H1.
    + pose proof (storage_or_empty_cache_kept w1) as H2.
      destruct (storage_or_empty w1) as [[sr | e] w2]; cbn [snd] in H2.
      * pose proof (plant_or_error_cache_kept w2) as H3.
        destruct (plant_or_error w2) as [[pd | e] w3]; cbn [snd] in H3.
        -- cbv zeta. cbn [snd]. unfold cache_sound. cbn.
           destruct H1 as [_ L1], H2 as [_ L2], H3 as [_ L3]. lia.
        -- cbn [snd].
           assert (Hk : cache_kept w w3)
             by (eapply cache_kept_trans; [| exact H3];
                 eapply cache_kept_trans; [exact H1 | exact H2]).
           destruct (indicates_login_problem e);
             exact (cache_sound_kept _ _ Hk IH).
      * cbn [snd].
        assert (Hk : cache_kept w w2)
          by (eapply cache_kept_trans; [exact H1 | exact H2]).
        destruct (indicates_login_problem e);
          exact (cache_sound_kept _ _ Hk IH).
    + cbn [snd]. destruct (indicates_login_problem e);
        exact (cache_sound_kept _ _ H1 IH).
  - exact (cache_sound_kept _ _ (ensureSession_cache_kept w) IH).
  - exact (cache_sound_kept _ _ (getStorageData_cache_kept w) IH).
  - exact (cache_sound_kept _ _ (getPlantDetail_cache_kept w) IH).
  - exact (cache_sound_kept _ _ (discoverDevices_cache_kept w) IH).
Qed.

(** X12.  In every reachable state with a snapshot in the cache, the
    time of the last fetch is past the epoch, not in the future, and not
    before the time stamp of the snapshot; with no snapshot it is still
    the initial 0.  So [lastFetch] is 0 exactly when nothing is
    cached. *)
Theorem cache_time_is_snapshot_time (w : World) :
  reachable w ->
  cache_sound w
  /\ (lastData (session w) = None <-> lastFetch (session w) = 0%Z).
Proof.
  intro Hr. pose proof (reachable_cache_sound w Hr) as Hs.
  split; [exact Hs |].
  unfold cache_sound in Hs. destruct (lastData (session w)).
  - split; [discriminate | lia].
  - split; [intros _; exact Hs | reflexivity].
Qed.

(** ** The diagnostic endpoints *)

(** [/api/debug], stage by stage. *)
Lemma debug_run (w : World) :
  debug w =
  match ensureSession w with
  | (Throw e, w1) => (Throw e, w1)
  | (Ok _, w1) =>
      let '(r1, w2) := getStorageData w1 in
      let '(r2, w3) := getPlantDetail w2 in
      let '(r3, w4) := discoverDevices w3 in
      let storageRaw :=
        match r1 with
        | Ok sr => storage_object sr
        | Throw e => error_object e
        end in
      (Ok {| debug_plantId := plantId (session w4);
             debug_plantName := plantName (session w4);
             debug_deviceSn := deviceSn (session w4);
             debug_userId := userId (session w4);
             debug_storageDetail :=
               or_else (get storageRaw "detail") storageRaw;
             debug_energyOverview :=
               or_else (get storageRaw "energy") empty_object;
             debug_storageParams :=
               or_else (get storageRaw "params") empty_object;
             debug_plantDetail :=
               match r2 with Ok pd => pd | Throw e => error_object e end;
             debug_devices :=
               match r3 with Ok ds => ds | Throw e => error_object e end |},
       w4)
  end.
Proof.
  unfold debug. unfold bind at 1.
  destruct (ensureSession w) as [[[] | e] w1]; [| reflexivity].
  unfold bind at 1. unfold try_catch at 1. unfold bind at 1.
  destruct (getStorageData w1) as [[sr | e1] w2];
    unfold ret at 1;
    (unfold bind at 1; unfold try_catch at 1;
     destruct (getPlantDetail w2) as [[pd | e2] w3];
     unfold ret at 1;
     (unfold bind at 1; unfold try_catch at 1;
      destruct (discoverDevices w3) as [[ds | e3] w4]; reflexivity)).
Qed.

(** What its four stages leave related, [/api/debug] leaves related. *)
Lemma api_debug_stable (R : World -> World -> Prop) :
  (forall w1 w2 w3, R w1 w2 -> R w2 w3 -> R w1 w3) ->
  stable R ensureSession -> stable R getStorageData ->
  stable R getPlantDetail -> stable R discoverDevices ->
  forall w, R w (snd (api_debug w)).
Proof.
  intros Htrans He Hs Hp Hd w. unfold api_debug. rewrite debug_run.
  specialize (He w). destruct (ensureSession w) as [[[] | e] w1];
    cbn [snd] in He; [| exact He].
  specialize (Hs w1). destruct (getStorageData w1) as [r1 w2].
  specialize (Hp w2). destruct (getPlantDetail w2) as [r2 w3].
  specialize (Hd w3). destruct (discoverDevices w3) as [r3 w4].
  cbn [snd] in *. eauto.
Qed.

Ltac keeps_logged_in :=
  first
    [ exact (keeps_refl logged_in)
    | exact (keeps_trans logged_in)
    | intros; intro; rewrite ?fetch_world;
      unfold keeps, logged_in, stampLogin, bind, Date_now, update;
      cbn; first [tauto | discriminate] ].

(** X13.  [/api/debug] answers with an error exactly when
    [ensureSession] throws, and with that error; otherwise it answers
    with success whatever the three fetches do, and when
    [getStorageData] throws, its error stands for the storage detail
    while the energy overview and the storage parameters are [{}].  The
    endpoint keeps the cache and a login time that was set, sends at
    most 9 requests, enters [login] at most once, never retries, and
    leads from reachable states to reachable states. *)
Theorem api_debug_reports (w : World) :
  (forall e w1, ensureSession w = (Throw e, w1) ->
     api_debug w = (DebugError e, w1))
  /\ (forall w1, ensureSession w = (Ok tt, w1) ->
      exists info,
        fst (api_debug w) = DebugOk info
        /\ (forall e w2, getStorageData w1 = (Throw e, w2) ->
              debug_storageDetail info = error_object e
              /\ debug_energyOverview info = empty_object
              /\ debug_storageParams info = empty_object))
  /\ same_cache w (snd (api_debug w))
  /\ requests (snd (api_debug w)) <= requests w + 9
  /\ logins (snd (api_debug w)) <= logins w + 1
  /\ invocations (snd (api_debug w)) <= invocations w
  /\ (logged_in w -> logged_in (snd (api_debug w)))
  /\ (reachable w -> reachable (snd (api_debug w))).
Proof.
  split; [| split; [| split; [| split; [| split; [| split; [| split]]]]]].
  - intros e w1 H. unfold api_debug. rewrite debug_run, H. reflexivity.
  - intros w1 H. unfold api_debug. rewrite debug_run, H.
    destruct (getStorageData w1) as [r1 w2] eqn:E1.
    destruct (getPlantDetail w2) as [r2 w3].
    destruct (discoverDevices w3) as [r3 w4].
    eexists. split; [reflexivity |].
    intros e w2' H1. injection H1 as -> _. repeat split.
  - apply (api_debug_stable cache_kept cache_kept_trans
             ensureSession_cache_kept getStorageData_cache_kept
             getPlantDetail_cache_kept discoverDevices_cache_kept).
  - pose proof (costs_debug is_request 1 (fun _ => eq_refl) w) as H.
    unfold api_debug. destruct (debug w) as [[info | e] w']; exact H.
  - pose proof (costs_debug is_login 0 (fun _ => eq_refl) w) as H.
    unfold api_debug. destruct (debug w) as [[info | e] w']; exact H.
  - pose proof (costs_debug is_invoke 0 (fun _ => eq_refl) w) as H.
    unfold api_debug. destruct (debug w) as [[info | e] w'];
      cbn [snd] in *; unfold invocations; unfold count in H; cbn in H; lia.
  - apply (api_debug_stable (keeps logged_in) (keeps_trans logged_in)).
    + apply stable_ensureSession; keeps_logged_in.
    + apply stable_getStorageData; keeps_logged_in.
    + apply stable_getPlantDetail; keeps_logged_in.
    + apply stable_discoverDevices; keeps_logged_in.
  - apply (api_debug_stable (keeps reachable) (keeps_trans reachable)).
    + intros w0 H. apply reach_ensureSession, H.
    + intros w0 H. apply reach_getStorageData, H.
    + intros w0 H. apply reach_getPlantDetail, H.
    + intros w0 H. apply reach_discoverDevices, H.
Qed.

(** X14.  In every reachable state [/api/status] changes nothing and
    reports: connected exactly when the cookie jar holds a cookie; the
    login time of the session as it is, null included; and a time of the
    last fetch exactly when a snapshot is cached. *)
Theorem api_status_reports (w : World) :
  reachable w ->
  snd (api_status w) = w
  /\ (status_connected (fst (api_status w)) = true <-> cookieJar w <> [])
  /\ status_lastLogin (fst (api_status w)) = lastLogin (session w)
  /\ (status_lastFetch (fst (api_status w)) = None
      <-> lastData (session w) = None).
Proof.
  intro Hr. destruct (reachable_invariants w Hr) as [Hj [_ [_ Hl]]].
  pose proof (reachable_cache_sound w Hr) as Hc.
  unfold jar_consistent in Hj. unfold cache_sound in Hc.
  split; [reflexivity |]. split; [| split].
  - cbn [api_status fst status_connected]. unfold cookie_to_send.
    rewrite Hj. pose proof (header_of_jar (cookieJar w)) as Hh.
    pose proof (header_not_empty (cookieJar w)) as Hne.
    destruct (cookie_header (cookieJar w)) as [c |].
    + destruct (String.eqb_spec c "") as [-> | _]; [contradiction |].
      split; [intros _ E; apply Hh in E; discriminate | reflexivity].
    + split; [discriminate | intro H; contradiction H; apply Hh; reflexivity].
  - cbn [api_status fst status_lastLogin].
    destruct (lastLogin (session w)) as [t |]; [| reflexivity].
    destruct (Z.eqb_spec t 0) as [-> | _]; [contradiction | reflexivity].
  - cbn [api_status fst status_lastFetch].
    destruct (lastData (session w)).
    + destruct (Z.eqb_spec (lastFetch (session w)) 0) as [E | _];
        [lia | split; discriminate].
    + rewrite Hc. split; reflexivity.
Qed.

(** ** Cookies *)

Lemma text_codes (s : string) : text (codes s) = s.
Proof.
  unfold text, codes. rewrite map_map.
  rewrite (map_ext _ (fun a => a)) by apply ascii_N_embedding.
  rewrite map_id. apply string_of_list_ascii_of_string.
Qed.

Lemma all_chars_app (f : ascii -> bool) (a b : string) :
  all_chars f (a ++ b) = all_chars f a && all_chars f b.
Proof.
  induction a as [| c a IH]; [reflexivity |].
  cbn [append all_chars]. rewrite IH. apply andb_assoc.
Qed.

Lemma all_chars_weaken (f g : ascii -> bool) (s : string) :
  (forall c, f c = true -> g c = true) ->
  all_chars f s = true -> all_chars g s = true.
Proof.
  intro Hfg. induction s as [| c s IH]; [reflexivity |].
  cbn [all_chars]. intro H. apply andb_true_iff in H as [Hc Hs].
  rewrite (Hfg c Hc), (IH Hs). reflexivity.
Qed.

Lemma all_chars_codes (s : string) :
  all_chars visible s = true ->
  Forall (fun n => (33 <= n <= 126)%N) (codes s).
Proof.
  induction s as [| c s IH]; [constructor |].
  cbn [all_chars]. intro H. apply andb_true_iff in H as [Hc Hs].
  unfold codes. cbn [list_ascii_of_string map]. constructor; [| exact (IH Hs)].
  unfold visible in Hc. apply andb_true_iff in Hc as [H1 H2].
  apply N.leb_le in H1, H2. lia.
Qed.

(** No entry of the table starts with the character. *)
Lemma match_length_none (table : list (list N)) (c : N) (l : list N) :
  Forall (fun p => match p with a :: _ => a <> c | [] => False end) table ->
  match_length table (c :: l) = 0.
Proof.
  intro H. unfold match_length. rewrite find_nothing; [reflexivity |].
  eapply Forall_impl; [| exact H]. intros p Hp.
  destruct p as [| a p]; [contradiction |].
  unfold starts_with_codes. cbn [strip_prefix].
  destruct (N.eqb_spec a c); [contradiction | reflexivity].
Qed.

(** No white space starts, or ends, with a visible character. *)
Lemma ws_length_visible (c : N) (l : list N) :
  (33 <= c <= 126)%N -> ws_length (c :: l) = 0.
Proof.
  intro H. apply match_length_none. unfold white_space.
  repeat (apply Forall_cons; [lia |]). apply Forall_nil.
Qed.

Lemma ws_length_rev_visible (c : N) (l : list N) :
  (33 <= c <= 126)%N -> ws_length_rev (c :: l) = 0.
Proof.
  intro H. apply match_length_none. unfold white_space.
  cbn [map rev app].
  repeat (apply Forall_cons; [lia |]). apply Forall_nil.
Qed.

Lemma trimStart_codes_none (fuel : nat) (l : list N) :
  ws_length l = 0 -> trimStart_codes fuel l = l.
Proof. intro H. destruct fuel; cbn [trimStart_codes]; rewrite ?H; reflexivity. Qed.

Lemma trimEnd_rev_none (fuel : nat) (l : list N) :
  ws_length_rev l = 0 -> trimEnd_rev fuel l = l.
Proof. intro H. destruct fuel; cbn [trimEnd_rev]; rewrite ?H; reflexivity. Qed.

(** Trimming leaves a text of visible characters as it is. *)
Lemma trim_visible (s : string) : all_chars visible s = true -> trim s = s.
Proof.
  intro H. apply all_chars_codes in H. unfold trim. cbv zeta.
  assert (H1 : ws_length (codes s) = 0).
  { destruct H as [| c l Hc _]; [reflexivity | exact (ws_length_visible c l Hc)]. }
  rewrite (trimStart_codes_none (String.length s) (codes s) H1).
  assert (H2 : ws_length_rev (rev (codes s)) = 0).
  { apply Forall_rev in H.
    destruct H as [| c l Hc _];
      [reflexivity | exact (ws_length_rev_visible c l Hc)]. }
  rewrite (trimEnd_rev_none (String.length s) (rev (codes s)) H2).
  rewrite rev_involutive. apply text_codes.
Qed.

Lemma indexOf_absent (s : string) (c : ascii) :
  all_chars (fun a => negb (Ascii.eqb a c)) s = true -> indexOf s c = None.
Proof.
  induction s as [| a s IH]; [reflexivity |].
  cbn [all_chars indexOf]. intro H. apply andb_true_iff in H as [Ha Hs].
  apply negb_true_iff in Ha. rewrite Ha, (IH Hs). reflexivity.
Qed.

Lemma indexOf_app (pre rest : string) (c : ascii) :
  all_chars (fun a => negb (Ascii.eqb a c)) pre = true ->
  indexOf (pre ++ String c rest) c = Some (String.length pre).
Proof.
  induction pre as [| a pre IH].
  - intros _. cbn [append indexOf]. rewrite Ascii.eqb_refl. reflexivity.
  - cbn [all_chars append indexOf String.length]. intro H.
    apply andb_true_iff in H as [Ha Hs]. apply negb_true_iff in Ha.
    rewrite Ha, (IH Hs). reflexivity.
Qed.

Lemma includes_app (pre s sub : string) :
  prefix sub s = true -> includes (pre ++ s) sub = true.
Proof.
  intro H. induction pre as [| a pre IH].
  - cbn [append]. destruct s; cbn [includes]; rewrite H; reflexivity.
  - cbn [append includes]. rewrite IH. apply orb_true_r.
Qed.

Lemma name_char_visible (s : string) :
  all_chars name_char s = true -> all_chars visible s = true.
Proof.
  apply all_chars_weaken. intros c H. unfold name_char, value_char in H.
  apply andb_true_iff in H as [H _]. apply andb_true_iff in H as [H _].
  exact H.
Qed.

Lemma value_char_visible (s : string) :
  all_chars value_char s = true -> all_chars visible s = true.
Proof.
  apply all_chars_weaken. intros c H. unfold value_char in H.
  apply andb_true_iff in H as [H _]. exact H.
Qed.

Lemma name_char_no_semicolon (s : string) :
  all_chars name_char s = true ->
  all_chars (fun a => negb (Ascii.eqb a ";")) s = true.
Proof.
  apply all_chars_weaken. intros c H. unfold name_char, value_char in H.
  apply andb_true_iff in H as [H _]. apply andb_true_iff in H as [_ H].
  exact H.
Qed.

Lemma value_char_no_semicolon (s : string) :
  all_chars value_char s = true ->
  all_chars (fun a => negb (Ascii.eqb a ";")) s = true.
Proof.
  apply all_chars_weaken. intros c H. unfold value_char in H.
  apply andb_true_iff in H as [_ H]. exact H.
Qed.

Lemma name_char_no_equals (s : string) :
  all_chars name_char s = true ->
  all_chars (fun a => negb (Ascii.eqb a "=")) s = true.
Proof.
  apply all_chars_weaken. intros c H. unfold name_char in H.
  apply andb_true_iff in H as [_ H]. exact H.
Qed.

(** X15.  A [Set-Cookie] value made of a name, [=], a value and then
    nothing or [;] and attributes, where the name is not empty and name
    and value are visible ASCII without [;] (and without [=] in the
    name), sets exactly that name to that value: the attributes are
    dropped, and on an empty jar the [Cookie] header becomes
    [name=value]. *)
Theorem parse_cookie_drops_attributes (name value tail : string) :
  name <> "" ->
  all_chars name_char name = true ->
  all_chars value_char value = true ->
  tail = "" \/ (exists rest, tail = String ";" rest) ->
  parse_cookie (name ++ "=" ++ value ++ tail) = Some (name, value)
  /\ (forall jar,
        capture [name ++ "=" ++ value ++ tail] jar = jar_set name value jar)
  /\ cookie_header (capture [name ++ "=" ++ value ++ tail] [])
     = Some (name ++ "=" ++ value).
Proof.
  intros Hne Hname Hvalue Htail.
  assert (Hraw : name ++ "=" ++ value ++ tail
                 = (name ++ String "=" value) ++ tail).
  { rewrite string_app_assoc. reflexivity. }
  assert (Hpair : all_chars (fun a => negb (Ascii.eqb a ";"))
                    (name ++ String "=" value) = true).
  { rewrite all_chars_app, (name_char_no_semicolon _ Hname).
    cbn [all_chars]. rewrite (value_char_no_semicolon _ Hvalue).
    reflexivity. }
  assert (Hbefore : before_first (name ++ "=" ++ value ++ tail) ";"
                    = name ++ String "=" value).
  { rewrite Hraw. unfold before_first.
    destruct Htail as [-> | [rest ->]].
    - rewrite string_app_nil_r, (indexOf_absent _ _ Hpair). reflexivity.
    - rewrite (indexOf_app _ _ _ Hpair). apply substring_to_app. }
  assert (Hvisible : all_chars visible (name ++ String "=" value) = true).
  { rewrite all_chars_app, (name_char_visible _ Hname).
    cbn [all_chars]. rewrite (value_char_visible _ Hvalue). reflexivity. }
  assert (Hparse : parse_cookie (name ++ "=" ++ value ++ tail)
                   = Some (name, value)).
  { unfold parse_cookie. rewrite Hbefore. cbv zeta.
    rewrite (trim_visible _ Hvisible).
    assert (E1 : String.eqb (name ++ String "=" value) "" = false)
      by (destruct name; [contradiction | reflexivity]).
    rewrite E1. cbn [orb].
    assert (E2 : includes (name ++ String "=" value) "=" = true).
    { apply includes_app. cbn [prefix].
      destruct (ascii_dec "=" "="); [| contradiction].
      destruct value; reflexivity. }
    rewrite E2. cbn [negb].
    rewrite (indexOf_app _ _ _ (name_char_no_equals _ Hname)).
    rewrite substring_to_app, substring_from_app.
    rewrite (trim_visible _ (name_char_visible _ Hname)).
    rewrite (trim_visible _ (value_char_visible _ Hvalue)).
    assert (E3 : String.eqb name "" = false)
      by (destruct name; [contradiction | reflexivity]).
    rewrite E3. reflexivity. }
  split; [exact Hparse |]. split.
  - intro jar. unfold capture. cbn [fold_left]. rewrite Hparse. reflexivity.
  - unfold capture. cbn [fold_left]. rewrite Hparse.
    unfold cookie_header. cbn [jar_set map join fst snd].
    assert (E : String.eqb (name ++ "=" ++ value) "" = false)
      by (destruct name; [contradiction | reflexivity]).
    rewrite E. reflexivity.
Qed.

Lemma jar_set_names (name value k : string) (jar : list (string * string)) :
  In k (map fst (jar_set name value jar)) <->
  k = name \/ In k (map fst jar).
Proof.
  induction jar as [| [k0 v0] rest IH]; cbn [jar_set map fst In].
  - split; [intros [H | []]; left; symmetry; exact H
           | intros [H | []]; left; symmetry; exact H].
  - destruct (String.eqb_spec name k0) as [-> | Hne]; cbn [map fst In].
    + split;
        [ intros [H | H]; [left; symmetry; exact H | right; right; exact H]
        | intros [H | [H | H]];
          [left; symmetry; exact H | left; exact H | right; exact H] ].
    + rewrite IH. tauto.
Qed.

Lemma jar_set_well_keyed (name value : string) (jar : list (string * string)) :
  name <> "" ->
  NoDup (map fst jar) /\ Forall (fun kv => fst kv <> "") jar ->
  NoDup (map fst (jar_set name value jar))
  /\ Forall (fun kv => fst kv <> "") (jar_set name value jar).
Proof.
  intros Hname. induction jar as [| [k0 v0] rest IH]; intros [Hnd Hall].
  - cbn. split; [constructor; [intros [] | constructor] |].
    constructor; [exact Hname | constructor].
  - cbn [jar_set]. inversion Hnd as [| ? ? Hnotin Hnd']; subst.
    inversion Hall as [| ? ? Hk0 Hall']; subst.
    destruct (String.eqb_spec name k0) as [-> | Hne].
    + split; [exact Hnd | constructor; [exact Hk0 | exact Hall']].
    + destruct (IH (conj Hnd' Hall')) as [IH1 IH2].
      split.
      * cbn [map fst]. constructor; [| exact IH1].
        rewrite jar_set_names. intros [E | Hin];
          [apply Hne; symmetry; exact E | exact (Hnotin Hin)].
      * constructor; [exact Hk0 | exact IH2].
Qed.

Lemma parse_cookie_name (raw name value : string) :
  parse_cookie raw = Some (name, value) -> name <> "".
Proof.
  unfold parse_cookie. cbv zeta.
  destruct (_ || _); [discriminate |].
  destruct (indexOf _ _) as [eqIdx |]; [| discriminate].
  destruct (String.eqb_spec (trim (substring_to
              (trim (before_first raw ";")) eqIdx)) "") as [| Hne];
    [discriminate |].
  intro H. injection H as <- _. exact Hne.
Qed.

Lemma capture_well_keyed (raws : list string) (jar : list (string * string)) :
  NoDup (map fst jar) /\ Forall (fun kv => fst kv <> "") jar ->
  NoDup (map fst (capture raws jar))
  /\ Forall (fun kv => fst kv <> "") (capture raws jar).
Proof.
  unfold capture. revert jar.
  induction raws as [| raw rest IH]; intros jar H; [exact H |].
  cbn [fold_left]. apply IH.
  destruct (parse_cookie raw) as [[name value] |] eqn:E; [| exact H].
  apply jar_set_well_keyed; [exact (parse_cookie_name _ _ _ E) | exact H].
Qed.

Ltac keeps_well_keyed :=
  first
    [ exact (keeps_refl jar_well_keyed)
    | exact (keeps_trans jar_well_keyed)
    | intros; intro; rewrite ?fetch_world;
      unfold keeps, jar_well_keyed, stampLogin, bind, Date_now, update;
      cbn [snd captureCookies clearCookies cookieJar after_fetch with_session
           map];
      first [ tauto | apply capture_well_keyed
            | intros _; split; constructor ] ].

(** X16.  In every reachable state the cookie jar holds each name once,
    and no empty name: a cookie set again replaces the earlier value, so
    the [Cookie] header never carries a name twice. *)
Theorem jar_names_are_unique (w : World) :
  reachable w -> jar_well_keyed w.
Proof.
  induction 1 as [t Ht | dt w _ IH | w _ IH | w _ IH | w _ IH | w _ IH
                 | w _ IH | w _ IH].
  - split; constructor.
  - exact IH.
  - apply (stable_api_connect (keeps jar_well_keyed)); try keeps_well_keyed.
    exact IH.
  - apply (stable_api_data (keeps jar_well_keyed)); try keeps_well_keyed.
    exact IH.
  - apply (stable_ensureSession (keeps jar_well_keyed));
      try keeps_well_keyed.
    exact IH.
  - apply (stable_getStorageData (keeps jar_well_keyed));
      try keeps_well_keyed.
    exact IH.
  - apply (stable_getPlantDetail (keeps jar_well_keyed));
      try keeps_well_keyed.
    exact IH.
  - apply (stable_discoverDevices (keeps jar_well_keyed));
      try keeps_well_keyed.
    exact IH.
Qed.

(** ** What the salvage looks at *)

Lemma lastIndexOf_absent (s : string) (c : ascii) :
  all_chars (fun a => negb (Ascii.eqb a c)) s = true ->
  lastIndexOf s c = None.
Proof.
  induction s as [| a s IH]; [reflexivity |].
  cbn [all_chars lastIndexOf]. intro H. apply andb_true_iff in H as [Ha Hs].
  apply negb_true_iff in Ha. rewrite (IH Hs), Ha. reflexivity.
Qed.

Lemma lastIndexOf_app (pre rest : string) (c : ascii) :
  all_chars (fun a => negb (Ascii.eqb a c)) rest = true ->
  lastIndexOf (pre ++ String c rest) c = Some (String.length pre).
Proof.
  intro H. induction pre as [| a pre IH].
  - cbn [append lastIndexOf]. rewrite (lastIndexOf_absent _ _ H).
    rewrite Ascii.eqb_refl. reflexivity.
  - cbn [append lastIndexOf String.length]. rewrite IH. reflexivity.
Qed.

Lemma salvage_step (rounds : nat) (current : string) :
  salvage (S rounds) current
  = match lastIndexOf current "," with
    | None => None
    | Some commaIdx =>
        match try_endings (substring_to current commaIdx) endings with
        | Some parsed => Some parsed
        | None => salvage rounds (substring_to current commaIdx)
        end
    end.
Proof. reflexivity. Qed.

(** X17.  In the TypeScript listing, for a body that does not parse and
    is not taken for HTML: without a comma in it nothing is tried and
    the result is [{}]; with one, the result is made from the text
    before the last comma alone, so whatever follows the last comma is
    dropped without a trace. *)
Theorem safeJson_salvage_scope (res : Response) (label : string) (w : World) :
  variant = ServerTs ->
  JSON_parse (body res) = None ->
  startsWith (trim (body res)) "<" = false ->
  (all_chars (fun a => negb (Ascii.eqb a ",")) (body res) = true ->
   safeJson res label w = (Ok empty_object, w))
  /\ (forall kept dropped,
        body res = kept ++ String "," dropped ->
        all_chars (fun a => negb (Ascii.eqb a ",")) dropped = true ->
        safeJson res label w
        = (Ok match try_endings kept endings with
              | Some v => v
              | None =>
                  match salvage 9 kept with
                  | Some v => v
                  | None => empty_object
                  end
              end, w)).
Proof.
  intros Hv Hparse Hhtml. unfold safeJson. rewrite Hparse, Hv, Hhtml.
  split.
  - intro H. rewrite (salvage_step 9), (lastIndexOf_absent _ _ H).
    reflexivity.
  - intros kept dropped Hbody H. rewrite Hbody, (salvage_step 9).
    rewrite (lastIndexOf_app _ _ _ H), substring_to_app.
    destruct (try_endings kept endings); [reflexivity |].
    destruct (salvage 9 kept); reflexivity.
Qed.

(** ** The older listing *)


(** ** The plant detail *)

(** The plant detail is fetched on every refresh and kept in
    [_raw.plantDetail], and has no other effect on the snapshot: every
    section of it is the same whatever the plant detail is. *)
Remark plant_detail_only_raw (s : Session) (t : Z) (storageRaw : StorageRaw)
  (plantDetail plantDetail' : jsval) :
  let d := normalize s t storageRaw plantDetail in
  let d' := normalize s t storageRaw plantDetail' in
  plant d = plant d' /\ pv d = pv d' /\ battery d = battery d'
  /\ load d = load d' /\ grid d = grid d' /\ inverter d = inverter d'
  /\ energy d = energy d'
  /\ numeric_fields d = numeric_fields d'
  /\ raw_plantDetail (_raw d) = plantDetail.
Proof. repeat split. Qed.

(** ** No device *)

(** Without a storage source every numeric field is 0. *)
Lemma empty_storage_zeros (s : Session) (t : Z) (plantDetail : jsval) :
  Forall (fun field => snd field = zero)
    (numeric_fields (normalize s t empty_storage plantDetail)).
Proof. repeat constructor. Qed.

Lemma no_device_not_retryable :
  retryable "No device discovered. Try reconnecting." = false.
Proof. unfold retryable. destruct variant; reflexivity. Qed.

(** X20.  With a session that needs no login but holds no device serial
    number (the login found no device), a request to [/api/data] that
    misses the cache sends nothing for the storage data: the error
    [No device discovered. Try reconnecting.] is not an error that asks
    for a new login and is dropped by the handler, which answers with
    success and a snapshot whose numeric fields are all 0; no login is
    attempted for the storage data. *)
Theorem no_device_serves_zeros (w : World) :
  fresh_snapshot w = None ->
  login_needed (session w) (now w) = false ->
  truthy (deviceSn (session w)) = false ->
  ensureSession w = (Ok tt, w)
  /\ storage_or_empty w = (Ok empty_storage, noted EvInvoke w)
  /\ exists d,
       fst (api_data w) = DataOk false d
       /\ Forall (fun field => snd field = zero) (numeric_fields d)
       /\ lastData (session (snd (api_data w))) = Some d.
Proof.
  intros Hmiss Hneed Hdev.
  assert (He : ensureSession w = (Ok tt, w)).
  { unfold ensureSession, bind, getSession, Date_now. rewrite Hneed.
    reflexivity. }
  assert (Hs : storage_or_empty w = (Ok empty_storage, noted EvInvoke w)).
  { unfold storage_or_empty, try_catch. rewrite withSessionRetry_run.
    unfold getStorageData, bind, getSession. cbn [noted session].
    rewrite Hdev. cbn [negb throw]. rewrite no_device_not_retryable.
    reflexivity. }
  split; [exact He |]. split; [exact Hs |].
  unfold api_data. rewrite Hmiss, refresh_run, He, Hs.
  destruct (plant_or_error_returns (noted EvInvoke w)) as [pd Hpd].
  destruct (plant_or_error (noted EvInvoke w)) as [[pd' | e] w3];
    [| discriminate].
  cbv zeta. eexists. split; [reflexivity |].
  split; [apply empty_storage_zeros | reflexivity].
Qed.

(** ** The HTTP helper *)

Lemma capture_nothing (raws : list string) (jar : list (string * string)) :
  Forall (fun raw => parse_cookie raw = None) raws -> capture raws jar = jar.
Proof.
  unfold capture. induction 1 as [| raw rest Hraw _ IH]; [reflexivity |].
  cbn [fold_left]. rewrite Hraw. exact IH.
Qed.

Lemma session_eta (s : Session) : set_cookies (cookies s) s = s.
Proof. destruct s. reflexivity. Qed.

(** X21.  From a reachable state, [growattFetch] sends one request, with
    the session's cookies as its [Cookie] header and no header when
    there are none.  When the request fails on the network the error
    propagates and the session and the jar are untouched; when the
    answer sets no cookie (no [Set-Cookie] value with a [name=] in it),
    the answer is returned and the session and the jar are what they
    were: only the clock and the history move. *)
Theorem growattFetch_keeps_session (ep : Endpoint) (w : World) :
  reachable w ->
  let rq := {| endpoint := ep; cookie := cookies (session w); form := [] |} in
  match snd (upstream (trace w) (now w) rq) with
  | NetworkError e => growattFetch ep w = (Throw e, after_fetch rq w)
  | Answer res =>
      Forall (fun raw => parse_cookie raw = None) (setCookies res) ->
      growattFetch ep w = (Ok res, after_fetch rq w)
  end.
Proof.
  intros Hr rq. destruct (reachable_invariants w Hr) as [Hj [_ [Hc _]]].
  assert (Hsend : cookie_to_send (session w) = cookies (session w)).
  { unfold cookie_to_send. destruct (cookies (session w)) as [c |];
      [| reflexivity].
    destruct (String.eqb_spec c "") as [-> | _]; [contradiction | reflexivity]. }
  unfold growattFetch, bind, getSession. rewrite Hsend. fold rq.
  unfold fetch, after_fetch.
  destruct (upstream (trace w) (now w) rq) as [latency [e | res]];
    cbn [fst snd]; [reflexivity |].
  intro Hnone. unfold captureCookies, ret. cbn [cookieJar session now trace].
  rewrite (capture_nothing _ _ Hnone). unfold jar_consistent in Hj.
  rewrite <- Hj, session_eta. reflexivity.
Qed.

(** ** Who the session is about *)

Lemma target_kept_refl (w : World) : target_kept w w.
Proof. repeat split. Qed.

Lemma target_kept_trans (w1 w2 w3 : World) :
  target_kept w1 w2 -> target_kept w2 w3 -> target_kept w1 w3.
Proof.
  intros ((A1 & B1 & C1) & D1 & E1) ((A2 & B2 & C2) & D2 & E2).
  repeat split; congruence.
Qed.

Lemma target_kept_fetch (rq : Request) : stable target_kept (fetch rq).
Proof.
  intro w. split; [| split].
  - rewrite fetch_world. repeat split.
  - rewrite fetch_world. reflexivity.
  - apply same_logins_fetch.
Qed.

Lemma target_kept_captureCookies (res : Response) :
  stable target_kept (captureCookies res).
Proof. intro w. repeat split. Qed.

Lemma getStorageData_target_kept : stable target_kept getStorageData.
Proof.
  apply stable_getStorageData;
    [ exact target_kept_refl | exact target_kept_trans
    | exact target_kept_fetch | exact target_kept_captureCookies ].
Qed.

Lemma getPlantDetail_target_kept : stable target_kept getPlantDetail.
Proof.
  apply stable_getPlantDetail;
    [ exact target_kept_refl | exact target_kept_trans
    | exact target_kept_fetch | exact target_kept_captureCookies ].
Qed.

Lemma unless_login_refl (w : World) : target_kept_unless_login w w.
Proof. split; [lia | intros _; repeat split]. Qed.

Lemma unless_login_trans (w1 w2 w3 : World) :
  target_kept_unless_login w1 w2 -> target_kept_unless_login w2 w3 ->
  target_kept_unless_login w1 w3.
Proof.
  intros [L1 H1] [L2 H2]. split; [lia |]. intro E.
  destruct (H1 ltac:(lia)) as [(A1 & B1 & C1) D1].
  destruct (H2 ltac:(lia)) as [(A2 & B2 & C2) D2].
  repeat split; congruence.
Qed.

Lemma target_kept_unless (w w' : World) :
  target_kept w w' -> target_kept_unless_login w w'.
Proof. intros (I & D & E). split; [lia | intros _; split; assumption]. Qed.

Lemma login_unless_login (w : World) :
  target_kept_unless_login w (snd (login w)).
Proof. pose proof (login_counts_once w). split; [lia | intro; lia]. Qed.

Lemma ensureSession_unless_login : stable target_kept_unless_login ensureSession.
Proof.
  intro w. unfold ensureSession, bind, getSession, Date_now.
  destruct (login_needed (session w) (now w)); [| apply unless_login_refl].
  pose proof (login_unless_login w) as H.
  destruct (login w) as [[info | e] w']; exact H.
Qed.

Lemma withSessionRetry_unless_login {A : Type} (fn : M A) :
  stable target_kept fn ->
  stable target_kept_unless_login (withSessionRetry fn).
Proof.
  intros Hfn w. rewrite withSessionRetry_run.
  assert (Hn : forall w0, target_kept w0 (noted EvInvoke w0)).
  { intro w0. repeat split. rewrite logins_noted. cbn. lia. }
  pose proof (Hfn (noted EvInvoke w)) as H1.
  destruct (fn (noted EvInvoke w)) as [[a | e] w1]; cbn [snd] in *.
  - apply target_kept_unless. exact (target_kept_trans _ _ _ (Hn w) H1).
  - assert (H01 : target_kept_unless_login w w1)
      by (apply target_kept_unless;
          exact (target_kept_trans _ _ _ (Hn w) H1)).
    destruct (retryable e); [| exact H01].
    pose proof (login_unless_login (with_session (set_lastLogin None) w1))
      as H2.
    assert (H12 : target_kept_unless_login w1
                    (snd (login (with_session (set_lastLogin None) w1)))).
    { destruct H2 as [L2 I2]. split; [exact L2 |]. intro E.
      destruct (I2 E) as [I D]. split; assumption. }
    destruct (login (with_session (set_lastLogin None) w1))
      as [[info | e'] w2]; cbn [snd] in *.
    + pose proof (Hfn (noted EvInvoke w2)) as H3.
      eapply unless_login_trans; [exact H01 |].
      eapply unless_login_trans; [exact H12 |].
      apply target_kept_unless.
      exact (target_kept_trans _ _ _ (Hn w2) H3).
    + eapply unless_login_trans; [exact H01 | exact H12].
Qed.

(** X22.  [getStorageData] and [getPlantDetail] never change the user,
    the plant or the device of the session, and never enter [login].  A
    request to [/api/data] changes them only if [login] was entered
    while it was served: without a login the session is about the same
    user, plant and device afterwards. *)
Theorem data_requests_keep_the_target (w : World) :
  target_kept w (snd (getStorageData w))
  /\ target_kept w (snd (getPlantDetail w))
  /\ target_kept_unless_login w (snd (api_data w)).
Proof.
  split; [apply getStorageData_target_kept |].
  split; [apply getPlantDetail_target_kept |].
  unfold api_data. destruct (fresh_snapshot w); [apply unless_login_refl |].
  rewrite refresh_run.
  pose proof (ensureSession_unless_login w) as H1.
  destruct (ensureSession w) as [[[] | e] w1]; cbn [snd] in H1.
  - pose proof (withSessionRetry_unless_login _ getStorageData_target_kept w1)
      as H2.
    assert (H2' : target_kept_unless_login w1 (snd (storage_or_empty w1))).
    { unfold storage_or_empty, try_catch.
      destruct (withSessionRetry getStorageData w1) as [[sr | e] w2];
        exact H2. }
    destruct (storage_or_empty w1) as [[sr | e] w2]; cbn [snd] in H2'.
    + pose proof (withSessionRetry_unless_login _ getPlantDetail_target_kept
                    w2) as H3.
      assert (H3' : target_kept_unless_login w2 (snd (plant_or_error w2))).
      { unfold plant_or_error, try_catch.
        destruct (withSessionRetry getPlantDetail w2) as [[pd | e] w3];
          exact H3. }
      destruct (plant_or_error w2) as [[pd | e] w3]; cbn [snd] in H3'.
      * cbv zeta. cbn [snd].
        eapply unless_login_trans; [exact H1 |].
        eapply unless_login_trans; [exact H2' | exact H3'].
      * cbn [snd].
        assert (H : target_kept_unless_login w w3)
          by (eapply unless_login_trans; [exact H1 |];
              eapply unless_login_trans; [exact H2' | exact H3']).
        destruct (indicates_login_problem e); exact H.
    + cbn [snd].
      assert (H : target_kept_unless_login w w2)
        by (eapply unless_login_trans; [exact H1 | exact H2']).
      destruct (indicates_login_problem e); exact H.
  - cbn [snd]. destruct (indicates_login_problem e); exact H1.
Qed.

End Server.

(* ================================================================== *)
(** * Runs against a scripted vendor *)
(* ================================================================== *)

(** ** C1: tolerant parsing *)

(** A body cut in the middle of a key is salvaged: the text up to its
    last comma parses once [}}] is appended. *)
Lemma safeJson_tolerant_witness :
  JSON_parse (body truncated) = None /\
  startsWith (trim (body truncated)) "<" = false /\
  safeJson ServerTs truncated "StorageDetail" w_start
  = (Ok (VObj [("a", VNum (of_Z 1)); ("b", VObj [("c", VNum (of_Z 2))])]),
     w_start).
Proof.
  assert (Hparse : JSON_parse (body truncated) = None)
    by (vm_compute; reflexivity).
  assert (Hnot : startsWith (trim (body truncated)) "<" = false)
    by (vm_compute; reflexivity).
  destruct (safeJson_tolerant ServerTs truncated "StorageDetail" w_start
              eq_refl Hparse) as (_ & Hsalvage & _).
  split; [exact Hparse |]. split; [exact Hnot |].
  rewrite (Hsalvage Hnot). vm_compute. reflexivity.
Defined.

(** C1 as stated fails on a body that has white space before the
    markup: the body does not start with [<], nothing can be salvaged
    from it, so the empty object is specified, and [safeJson] throws the
    session-expired error instead. *)
Lemma safeJson_spaced_html_throws :
  JSON_parse (body spaced_html) = None /\
  startsWith (body spaced_html) "<" = false /\
  safeJson_as_specified spaced_html "API" = Ok empty_object /\
  safeJson ServerTs spaced_html "API" w_start
  = (Throw "session_expired: API returned HTML", w_start).
Proof. vm_compute. repeat split. Qed.

(** The older listing does not salvage at all: every body that does not
    parse is an error. *)
Lemma safeJson_legacy_throws (res : Response) (label : string) (w : World) :
  JSON_parse (body res) = None ->
  safeJson ServerJs res label w
  = (Throw (label ++ " returned non-JSON: " ++ dq
            ++ substring_to (body res) 80 ++ dq), w).
Proof. intro H. unfold safeJson. rewrite H. reflexivity. Qed.

(** ** C2: isolation of the sources *)



(** ** C5: a failing refresh *)


(** ** C6: the retry bound *)

Lemma withSessionRetry_retries_once_witness :
  neutral expired_call /\
  always_expired ServerTs expired_call /\
  (exists e,
     fst (withSessionRetry ServerTs user pass (always healthy)
            expired_call w_start) = Throw e) /\
  invocations (snd (withSessionRetry ServerTs user pass (always healthy)
                      expired_call w_start)) <= 2 /\
  invocations (snd (withSessionRetry ServerTs user pass (always healthy)
                      expired_call w_start)) = 2 /\
  logins (snd (withSessionRetry ServerTs user pass (always healthy)
                 expired_call w_start)) = 1.
Proof.
  assert (Hn : neutral expired_call) by (intro w; reflexivity).
  assert (Ha : always_expired ServerTs expired_call).
  { intro w. exists "session_expired: Probe returned HTML", w.
    split; reflexivity. }
  destruct (withSessionRetry_retries_once ServerTs user pass (always healthy)
              expired_call w_start Hn) as (Hle & _ & Hall).
  destruct (Hall Ha) as [e [He _]].
  split; [exact Hn |]. split; [exact Ha |].
  split; [exists e; exact He |]. split; [exact Hle |].
  split; vm_compute; reflexivity.
Defined.

(** ** C7: the session guard *)

(** A fresh process logs in once; right after that, with the cookies
    and the login time set, [ensureSession] does nothing. *)
Lemma ensureSession_logs_in_iff_expired_witness :
  well_formed (session w_start) /\
  session_expired w_start /\
  logins (snd (ensureSession ServerTs user pass (always healthy) w_start))
  = 1 /\
  ensureSession ServerTs user pass (always healthy)
    (snd (ensureSession ServerTs user pass (always healthy) w_start))
  = (Ok tt, snd (ensureSession ServerTs user pass (always healthy) w_start)).
Proof.
  assert (Hwf : well_formed (session w_start)) by (split; discriminate).
  assert (Hexp : session_expired w_start) by (left; reflexivity).
  destruct (ensureSession_logs_in_iff_expired ServerTs user pass
              (always healthy) w_start Hwf) as [Hlogin _].
  destruct (Hlogin Hexp) as [Hcount _].
  split; [exact Hwf |]. split; [exact Hexp |]. split; [exact Hcount |].
  vm_compute. reflexivity.
Defined.

(** ** C9: cookies and login time *)

(** C9 as stated fails after a login that does not get through: [login]
    clears the cookies before it sends the request, and the time of the
    earlier login stays. *)
Lemma failed_login_leaves_login_time :
  reachable ServerTs user pass second_login_fails
    (snd (api_connect ServerTs user pass second_login_fails
            (snd (api_connect ServerTs user pass second_login_fails
                    w_start)))) /\
  fst (api_connect ServerTs user pass second_login_fails
         (snd (api_connect ServerTs user pass second_login_fails w_start)))
  = ConnectError "fetch failed" /\
  lastLogin
    (session
       (snd (api_connect ServerTs user pass second_login_fails
               (snd (api_connect ServerTs user pass second_login_fails
                       w_start)))))
  = Some 1005%Z /\
  cookies
    (session
       (snd (api_connect ServerTs user pass second_login_fails
               (snd (api_connect ServerTs user pass second_login_fails
                       w_start)))))
  = None.
Proof.
  split.
  - apply reach_connect, reach_connect, reach_start. reflexivity.
  - vm_compute. repeat split.
Qed.

(** After a login that the vendor answers with a cookie, the jar is not
    empty and the cookies are set. *)
Lemma cookies_follow_the_jar_witness :
  reachable ServerTs user pass (always healthy)
    (snd (api_connect ServerTs user pass (always healthy) w_start)) /\
  cookieJar (snd (api_connect ServerTs user pass (always healthy) w_start))
  = [("JSESSIONID", "abc")] /\
  cookies
    (session (snd (api_connect ServerTs user pass (always healthy) w_start)))
  <> None.
Proof.
  assert (Hreach :
    reachable ServerTs user pass (always healthy)
      (snd (api_connect ServerTs user pass (always healthy) w_start)))
    by (apply reach_connect, reach_start; reflexivity).
  destruct (cookies_follow_the_jar ServerTs user pass (always healthy) _
              Hreach) as (_ & _ & Himp).
  split; [exact Hreach |]. split; [vm_compute; reflexivity |].
  apply Himp; vm_compute; discriminate.
Defined.

(** ** C10: every source fails *)

(** The storage detail keeps answering with the login page and the plant
    detail cannot be reached: the reply is a success with zeros, and a
    request 59.999 seconds later gets the same snapshot from the
    cache. *)
Lemma all_sources_fail_zero_snapshot_witness :
  exists d,
    fst (api_data ServerTs user pass (always all_down) w_start)
    = DataOk false d /\
    Forall (fun field => snd field = zero) (numeric_fields d) /\
    api_data ServerTs user pass (always all_down)
      (later 59999
         (snd (api_data ServerTs user pass (always all_down) w_start)))
    = (DataOk true d,
       later 59999
         (snd (api_data ServerTs user pass (always all_down) w_start))).
Proof.
  pose (up := always all_down).
  assert (Hruns : exists w1 w2 w3,
             ensureSession ServerTs user pass up w_start = (Ok tt, w1)
             /\ withSessionRetry ServerTs user pass up
                  (getStorageData ServerTs up) w1
                = (Throw "session_expired: StorageDetail returned HTML", w2)
             /\ withSessionRetry ServerTs user pass up
                  (getPlantDetail ServerTs up) w2
                = (Throw "fetch failed", w3)).
  { exists (snd (ensureSession ServerTs user pass up w_start)).
    exists (snd (withSessionRetry ServerTs user pass up
                   (getStorageData ServerTs up)
                   (snd (ensureSession ServerTs user pass up w_start)))).
    exists (snd (withSessionRetry ServerTs user pass up
                   (getPlantDetail ServerTs up)
                   (snd (withSessionRetry ServerTs user pass up
                           (getStorageData ServerTs up)
                           (snd (ensureSession ServerTs user pass up
                                   w_start)))))).
    split; [| split]; vm_compute; reflexivity. }
  destruct Hruns as (w1 & w2 & w3 & H1 & H2 & H3).
  destruct (all_sources_fail_zero_snapshot ServerTs user pass up
              w_start w1 w2 w3 _ _ eq_refl H1 H2 H3)
    as (Hapi & Hzero & _ & _ & Hcached).
  eexists. fold up. rewrite Hapi. cbn [fst snd].
  split; [reflexivity |]. split; [exact Hzero |].
  apply Hcached; [reflexivity |]. cbn [later now]. cbn [stored with_session now].
  lia.
Defined.

(* ================================================================== *)
(** * Further runs *)
(* ================================================================== *)

(** ** X1: the load on the vendor *)

(** The bound is reached: with the device in the second list only and
    the login page for the storage parameters and the plant detail, one
    request to [/api/data] sends 17 requests and logs in 3 times. *)
Lemma api_data_load_reached :
  requests (snd (api_data ServerTs user pass (always costly) w_start)) = 17
  /\ logins (snd (api_data ServerTs user pass (always costly) w_start)) = 3
  /\ invocations (snd (api_data ServerTs user pass (always costly) w_start))
     = 4.
Proof. vm_compute. repeat split. Qed.

(** ** X2: missing credentials *)

Lemma unconfigured_server_sends_nothing_witness :
  api_connect ServerTs None pass (always healthy) w_start
  = (ConnectError config_error, noted EvLogin w_start)
  /\ api_data ServerTs None pass (always healthy) w_start
     = (DataError config_error, noted EvLogin w_start)
  /\ requests (noted EvLogin w_start) = requests w_start.
Proof.
  destruct (unconfigured_server_sends_nothing ServerTs None pass
              (always healthy) w_start (or_introl eq_refl))
    as (H1 & H2 & _ & _ & _ & H3).
  split; [exact H1 |]. split; [apply H2; reflexivity | exact H3].
Defined.

(** ** X3: the retry logs in *)

(** An operation that finds the session expired, on a process that has
    not logged in yet: one login before the second invocation. *)
Lemma withSessionRetry_retry_logs_in_witness :
  logins (snd (withSessionRetry ServerTs user pass (always healthy)
                 expired_call w_start))
  = logins w_start + 1.
Proof.
  pose proof (withSessionRetry_retry_logs_in ServerTs user pass
                (always healthy) expired_call w_start
                (fun _ => eq_refl)) as H.
  exact (proj1 H).
Defined.

(** ** X4: what a login leaves behind *)


(** ** X7: what [getStorageData] can throw *)


(** ** X8 and X9: device discovery *)



(** ** X10: a login that cannot be sent *)

Lemma login_network_failure_witness :
  fst (login ServerTs user pass (always offline) w_stale)
  = Throw "fetch failed"
  /\ cookies (session (snd (login ServerTs user pass (always offline)
                              w_stale))) = None
  /\ lastLogin (session (snd (login ServerTs user pass (always offline)
                                w_stale))) = Some 1000%Z
  /\ deviceSn (session (snd (login ServerTs user pass (always offline)
                               w_stale))) = VStr "XYZ123".
Proof.
  destruct (login_network_failure ServerTs user pass (always offline)
              "u" "p" w_stale "fetch failed" 5 eq_refl eq_refl
              ltac:(discriminate) ltac:(discriminate) eq_refl)
    as (H1 & H2 & _ & H3 & _ & _ & _ & H4 & _).
  split; [exact H1 |]. split; [exact H2 |].
  split; [rewrite H3; reflexivity | rewrite H4; reflexivity].
Defined.

(** ** X11: the cache across a reconnection *)

Lemma reconnect_keeps_snapshot_witness :
  api_data ServerTs user pass (always healthy)
    (snd (api_connect ServerTs user pass (always healthy) w_cached))
  = (DataOk true old_snapshot,
     snd (api_connect ServerTs user pass (always healthy) w_cached)).
Proof.
  assert (Hage : (now (snd (api_connect ServerTs user pass (always healthy)
                              w_cached))
                  - lastFetch (session w_cached) < 60 * 1000)%Z)
    by (vm_compute; reflexivity).
  exact (proj2 (proj2 (reconnect_keeps_snapshot ServerTs user pass
                         (always healthy) w_cached old_snapshot eq_refl
                         Hage))).
Defined.

(** ** X12, X14 and X16: reachable states *)

Lemma cache_time_is_snapshot_time_witness :
  cache_sound (snd (api_data ServerTs user pass (always healthy) w_start))
  /\ (lastData (session (snd (api_data ServerTs user pass (always healthy)
                                w_start))) = None
      <-> lastFetch (session (snd (api_data ServerTs user pass
                                     (always healthy) w_start))) = 0%Z).
Proof.
  apply (cache_time_is_snapshot_time ServerTs user pass (always healthy)).
  apply reach_data, reach_start. reflexivity.
Defined.

Lemma api_status_reports_witness :
  status_connected
    (fst (api_status
            (snd (api_connect ServerTs user pass (always healthy) w_start))))
  = true
  /\ cookieJar (snd (api_connect ServerTs user pass (always healthy)
                       w_start)) <> [].
Proof.
  assert (Hjar : cookieJar (snd (api_connect ServerTs user pass
                                   (always healthy) w_start)) <> [])
    by (vm_compute; discriminate).
  destruct (api_status_reports ServerTs user pass (always healthy)
              (snd (api_connect ServerTs user pass (always healthy) w_start)))
    as (_ & Hconnected & _).
  - apply reach_connect, reach_start. reflexivity.
  - split; [apply Hconnected, Hjar | exact Hjar].
Defined.

Lemma jar_names_are_unique_witness :
  jar_well_keyed
    (snd (api_data ServerTs user pass (always healthy) w_start)).
Proof.
  apply (jar_names_are_unique ServerTs user pass (always healthy)).
  apply reach_data, reach_start. reflexivity.
Defined.

(** ** X15: cookies *)

Lemma parse_cookie_drops_attributes_witness :
  parse_cookie "JSESSIONID=abc; Path=/; HttpOnly"
  = Some ("JSESSIONID", "abc")
  /\ cookie_header (capture ["JSESSIONID=abc; Path=/; HttpOnly"] [])
     = Some "JSESSIONID=abc".
Proof.
  destruct (parse_cookie_drops_attributes "JSESSIONID" "abc"
              "; Path=/; HttpOnly" ltac:(discriminate) eq_refl eq_refl
              (or_intror (ex_intro _ " Path=/; HttpOnly" eq_refl)))
    as (H1 & _ & H2).
  split; [exact H1 | exact H2].
Defined.

(** ** X17 and X18: a body that does not parse *)

Lemma safeJson_salvage_scope_witness :
  safeJson ServerTs truncated "StorageDetail" w_start
  = (Ok (VObj [("a", VNum (of_Z 1)); ("b", VObj [("c", VNum (of_Z 2))])]),
     w_start).
Proof.
  assert (Hparse : JSON_parse (body truncated) = None)
    by (vm_compute; reflexivity).
  assert (Hhtml : startsWith (trim (body truncated)) "<" = false)
    by (vm_compute; reflexivity).
  destruct (safeJson_salvage_scope ServerTs truncated "StorageDetail"
              w_start eq_refl Hparse Hhtml) as [_ H].
  rewrite (H (json_text "{'a':1,'b':{'c':2") (json_text "'d"))
    by (vm_compute; reflexivity).
  vm_compute. reflexivity.
Defined.


(** ** X19: the older listing shares the fate of the sources *)


(** ** X20: no device *)

(** A login that found no device, and a request for data right after
    it. *)
Lemma no_device_serves_zeros_witness :
  truthy (deviceSn
            (session (snd (api_connect ServerTs user pass (always no_devices)
                             w_start)))) = false
  /\ exists d,
       fst (api_data ServerTs user pass (always no_devices)
              (snd (api_connect ServerTs user pass (always no_devices)
                      w_start)))
       = DataOk false d
       /\ Forall (fun field => snd field = zero) (numeric_fields d).
Proof.
  assert (Hdev : truthy (deviceSn
                           (session (snd (api_connect ServerTs user pass
                                            (always no_devices) w_start))))
                 = false) by (vm_compute; reflexivity).
  assert (Hmiss : fresh_snapshot
                    (snd (api_connect ServerTs user pass (always no_devices)
                            w_start)) = None) by (vm_compute; reflexivity).
  assert (Hneed : login_needed
                    (session (snd (api_connect ServerTs user pass
                                     (always no_devices) w_start)))
                    (now (snd (api_connect ServerTs user pass
                                 (always no_devices) w_start)))
                  = false) by (vm_compute; reflexivity).
  destruct (no_device_serves_zeros ServerTs user pass (always no_devices)
              _ Hmiss Hneed Hdev) as (_ & _ & d & Hd & Hz & _).
  split; [exact Hdev |]. exists d. split; [exact Hd | exact Hz].
Defined.

(** ** X21: the HTTP helper *)

(** After a login, a request for the plant detail, which sets no
    cookie, leaves the session as the login left it. *)
Lemma growattFetch_keeps_session_witness :
  session (snd (growattFetch (always healthy) EpPlantDetail
                  (snd (api_connect ServerTs user pass (always healthy)
                          w_start))))
  = session (snd (api_connect ServerTs user pass (always healthy) w_start)).
Proof.
  assert (Hr : reachable ServerTs user pass (always healthy)
                 (snd (api_connect ServerTs user pass (always healthy)
                         w_start)))
    by (apply reach_connect, reach_start; reflexivity).
  pose proof (growattFetch_keeps_session ServerTs user pass (always healthy)
                EpPlantDetail _ Hr) as H.
  cbv zeta in H. cbn [always healthy endpoint snd answer] in H.
  rewrite (H (Forall_nil _)). reflexivity.
Defined.

(** ** X5, X6 and X13: examples *)

(** An infinite candidate is taken; a negative zero is passed over. *)
Lemma pf_infinity_and_negative_zero :
  pf [VStr "Infinity"] = S754_infinity false
  /\ JSON_parse "1e999" = Some (VNum (S754_infinity false))
  /\ pf [VStr "-0"; VNum (S754_zero true)] = zero.
Proof. vm_compute. repeat split. Qed.

(** With [null] for the energy overview, [/api/debug] answers with
    success and the error of [getStorageData] in place of the storage
    detail. *)
Lemma api_debug_reports_storage_error :
  option_map
    (fun info => (debug_storageDetail info, debug_energyOverview info,
                  debug_deviceSn info))
    match fst (api_debug ServerTs user pass (always energy_null) w_start) with
    | DebugOk info => Some info
    | DebugError _ => None
    end
  = Some (VObj [("error",
                 VStr "Cannot read properties of null (reading 'obj')")],
          VObj [], VStr "XYZ123").
Proof. vm_compute. reflexivity. Qed.
